(** * The path actor of [path/path.go]

    A shallow embedding of the [Path] state machine: the struct is a record,
    every method is a function on that record, the branches of the [select]
    in [run] are the cases of [handle], and the calls the actor makes on its
    clients and on its parent are appended to an output trace. *)

From Stdlib Require Import ZArith String List.
From stdpp Require Import base decidable option list gmap fin_maps strings pretty.

Local Open Scope Z_scope.
Local Open Scope string_scope.
Local Open Scope list_scope.

(** ** Results of a method call

    A Go method either returns or panics.  [removeClient] and
    [onSourceSetNotReady] call each other, so the embedding of [removeClient]
    recurses on a fuel argument; [OutOfFuel] is the answer of a call that was
    given too little of it. *)

Inductive result (A : Type) : Type :=
| Ok (a : A)
| Panic (msg : string)
| OutOfFuel.

Arguments Ok {A} a.
Arguments Panic {A} msg.
Arguments OutOfFuel {A}.

Global Instance result_ret : MRet result := fun A a => Ok a.

Global Instance result_bind : MBind result := fun A B k r =>
  match r with
  | Ok a => k a
  | Panic msg => Panic msg
  | OutOfFuel => OutOfFuel
  end.

(** ** Data model *)

(** A [*client.Client]: only the identity of the pointer matters. *)
Definition client : Type := positive.

Inductive clientState : Type :=
| clientStateWaitingDescribe
| clientStatePrePlay
| clientStatePlay
| clientStatePreRecord
| clientStateRecord
| clientStatePreRemove.

Inductive sourceStateT : Type :=
| sourceStateNotReady
| sourceStateWaitingDescribe
| sourceStateReady.

(** The interface value held by [pa.source]: nil, a client, one of the two
    external sources, or the redirect stub. *)
Inductive sourceT : Type :=
| sourceNil
| sourceClient (c : client)
| sourceRtsp
| sourceRtmp
| sourceRedirect.

Global Instance clientState_eq_dec : EqDecision clientState.
Proof. solve_decision. Defined.

Global Instance sourceStateT_eq_dec : EqDecision sourceStateT.
Proof. solve_decision. Defined.

Global Instance sourceT_eq_dec : EqDecision sourceT.
Proof. solve_decision. Defined.

(** The type assertion [pa.source.(sourceExternal)]. *)
Definition isSourceExternal (src : sourceT) : bool :=
  match src with
  | sourceRtsp | sourceRtmp => true
  | _ => false
  end.

(** A [*time.Timer] as the actor sees it: either its channel will deliver
    once, after [d], or it never will ([newEmptyTimer], a stopped timer, a
    timer whose tick has been received). *)
Inductive timer : Type :=
| timerEmpty
| timerPending (d : Z).

Definition timerIsPending (t : timer) : bool :=
  match t with
  | timerPending _ => true
  | timerEmpty => false
  end.

Definition newEmptyTimer : timer := timerEmpty.

Global Instance byte_eq_dec : EqDecision Byte.byte := Byte.byte_eq_dec.

Definition sdpBytes : Type := list Byte.byte.

(** [gortsplib.Tracks] is a slice of tracks; a track is opaque here. *)
Definition Track : Type := list Byte.byte.
Definition Tracks : Type := list Track.

(** Modelled from the uses in [path.go]: [stats.Stats] (package [stats] is
    not part of the sources at hand); the fields are the two counters the
    path adds to, at the values they hold when [New] receives the stats. *)
Record Stats : Type := mkStats {
  CountReaders : Z;
  CountPublishers : Z
}.

(** Modelled from the spec: [conf.PathConf] (package [conf] is not part of
    the sources at hand); the fields are the ones [path.go] reads, durations
    are in nanoseconds, [Regexp] is [None] for a nil pointer. *)
Record PathConf : Type := mkPathConf {
  Source : string;
  SourceOnDemand : bool;
  SourceOnDemandStartTimeout : Z;
  SourceOnDemandCloseAfter : Z;
  SourceRedirect : string;
  RunOnInit : string;
  RunOnInitRestart : bool;
  RunOnDemand : string;
  RunOnDemandRestart : bool;
  RunOnDemandStartTimeout : Z;
  RunOnDemandCloseAfter : Z;
  Regexp : option string
}.

(** Modelled from the spec: [externalcmd.ExternalCmd] (package [externalcmd]
    is not part of the sources at hand); a handle records the arguments of
    [externalcmd.New]. *)
Record ExternalCmd : Type := mkExternalCmd {
  cmdString : string;
  cmdRestart : bool;
  cmdPathName : string
}.

Global Instance ExternalCmd_eq_dec : EqDecision ExternalCmd.
Proof. solve_decision. Defined.

(** What the actor does to the outside: callbacks on clients and on the
    parent, replies on the request channels, log lines, [Close] calls. *)
Inductive output : Type :=
| OnPathDescribeData (c : client) (sdp : option sdpBytes) (redirect : string)
    (err : option string)
| OnPathClientClose (c : client)
| OnPathClose
| Log (msg : string)
| DescribeRes (c : client) (err : option string)
| SetupPlayRes (c : client) (err : option string)
| AnnounceRes (c : client) (err : option string)
| PlayRes (c : client)
| RecordRes (c : client)
| RemoveRes (c : client)
| SourceClose
| CmdClose (cmd : ExternalCmd).

Global Instance output_eq_dec : EqDecision output.
Proof. solve_decision. Defined.

(** The mutable fields of [Path].  [readers] is the set of clients held by
    the readers map, [countReaders] and [countPublishers] are the two
    counters of [pa.stats] as the adds of this path leave them (the other
    holders of the shared stats are left out), [clientsWg] is the counter of
    the wait group.  [trace] and
    [rangeSeq] are not fields of the struct: the first collects the outputs,
    the second counts the [range] loops executed so far. *)
Record Path : Type := mkPath {
  clients : gmap client clientState;
  clientsWg : Z;
  source : sourceT;
  sourceTrackCount : Z;
  sourceSdp : option sdpBytes;
  readers : gset client;
  onInitCmd : option ExternalCmd;
  onDemandCmd : option ExternalCmd;
  describeTimer : timer;
  sourceCloseTimer : timer;
  sourceCloseTimerStarted : bool;
  sourceState : sourceStateT;
  runOnDemandCloseTimer : timer;
  runOnDemandCloseTimerStarted : bool;
  closeTimer : timer;
  closeTimerStarted : bool;
  countReaders : Z;
  countPublishers : Z;
  closed : bool;
  trace : list output;
  rangeSeq : nat
}.

(** Field updates. *)
Definition set_clients (v : gmap client clientState) (s : Path) : Path :=
  mkPath v (clientsWg s) (source s) (sourceTrackCount s) (sourceSdp s)
    (readers s) (onInitCmd s) (onDemandCmd s) (describeTimer s)
    (sourceCloseTimer s) (sourceCloseTimerStarted s) (sourceState s)
    (runOnDemandCloseTimer s) (runOnDemandCloseTimerStarted s) (closeTimer s)
    (closeTimerStarted s) (countReaders s) (countPublishers s) (closed s)
    (trace s) (rangeSeq s).

Definition set_clientsWg (v : Z) (s : Path) : Path :=
  mkPath (clients s) v (source s) (sourceTrackCount s) (sourceSdp s)
    (readers s) (onInitCmd s) (onDemandCmd s) (describeTimer s)
    (sourceCloseTimer s) (sourceCloseTimerStarted s) (sourceState s)
    (runOnDemandCloseTimer s) (runOnDemandCloseTimerStarted s) (closeTimer s)
    (closeTimerStarted s) (countReaders s) (countPublishers s) (closed s)
    (trace s) (rangeSeq s).

Definition set_source (v : sourceT) (s : Path) : Path :=
  mkPath (clients s) (clientsWg s) v (sourceTrackCount s) (sourceSdp s)
    (readers s) (onInitCmd s) (onDemandCmd s) (describeTimer s)
    (sourceCloseTimer s) (sourceCloseTimerStarted s) (sourceState s)
    (runOnDemandCloseTimer s) (runOnDemandCloseTimerStarted s) (closeTimer s)
    (closeTimerStarted s) (countReaders s) (countPublishers s) (closed s)
    (trace s) (rangeSeq s).

Definition set_sourceTrackCount (v : Z) (s : Path) : Path :=
  mkPath (clients s) (clientsWg s) (source s) v (sourceSdp s)
    (readers s) (onInitCmd s) (onDemandCmd s) (describeTimer s)
    (sourceCloseTimer s) (sourceCloseTimerStarted s) (sourceState s)
    (runOnDemandCloseTimer s) (runOnDemandCloseTimerStarted s) (closeTimer s)
    (closeTimerStarted s) (countReaders s) (countPublishers s) (closed s)
    (trace s) (rangeSeq s).

Definition set_sourceSdp (v : option sdpBytes) (s : Path) : Path :=
  mkPath (clients s) (clientsWg s) (source s) (sourceTrackCount s) v
    (readers s) (onInitCmd s) (onDemandCmd s) (describeTimer s)
    (sourceCloseTimer s) (sourceCloseTimerStarted s) (sourceState s)
    (runOnDemandCloseTimer s) (runOnDemandCloseTimerStarted s) (closeTimer s)
    (closeTimerStarted s) (countReaders s) (countPublishers s) (closed s)
    (trace s) (rangeSeq s).

Definition set_readers (v : gset client) (s : Path) : Path :=
  mkPath (clients s) (clientsWg s) (source s) (sourceTrackCount s) (sourceSdp s)
    v (onInitCmd s) (onDemandCmd s) (describeTimer s)
    (sourceCloseTimer s) (sourceCloseTimerStarted s) (sourceState s)
    (runOnDemandCloseTimer s) (runOnDemandCloseTimerStarted s) (closeTimer s)
    (closeTimerStarted s) (countReaders s) (countPublishers s) (closed s)
    (trace s) (rangeSeq s).

Definition set_onInitCmd (v : option ExternalCmd) (s : Path) : Path :=
  mkPath (clients s) (clientsWg s) (source s) (sourceTrackCount s) (sourceSdp s)
    (readers s) v (onDemandCmd s) (describeTimer s)
    (sourceCloseTimer s) (sourceCloseTimerStarted s) (sourceState s)
    (runOnDemandCloseTimer s) (runOnDemandCloseTimerStarted s) (closeTimer s)
    (closeTimerStarted s) (countReaders s) (countPublishers s) (closed s)
    (trace s) (rangeSeq s).

Definition set_onDemandCmd (v : option ExternalCmd) (s : Path) : Path :=
  mkPath (clients s) (clientsWg s) (source s) (sourceTrackCount s) (sourceSdp s)
    (readers s) (onInitCmd s) v (describeTimer s)
    (sourceCloseTimer s) (sourceCloseTimerStarted s) (sourceState s)
    (runOnDemandCloseTimer s) (runOnDemandCloseTimerStarted s) (closeTimer s)
    (closeTimerStarted s) (countReaders s) (countPublishers s) (closed s)
    (trace s) (rangeSeq s).

Definition set_describeTimer (v : timer) (s : Path) : Path :=
  mkPath (clients s) (clientsWg s) (source s) (sourceTrackCount s) (sourceSdp s)
    (readers s) (onInitCmd s) (onDemandCmd s) v
    (sourceCloseTimer s) (sourceCloseTimerStarted s) (sourceState s)
    (runOnDemandCloseTimer s) (runOnDemandCloseTimerStarted s) (closeTimer s)
    (closeTimerStarted s) (countReaders s) (countPublishers s) (closed s)
    (trace s) (rangeSeq s).

Definition set_sourceCloseTimer (v : timer) (s : Path) : Path :=
  mkPath (clients s) (clientsWg s) (source s) (sourceTrackCount s) (sourceSdp s)
    (readers s) (onInitCmd s) (onDemandCmd s) (describeTimer s)
    v (sourceCloseTimerStarted s) (sourceState s)
    (runOnDemandCloseTimer s) (runOnDemandCloseTimerStarted s) (closeTimer s)
    (closeTimerStarted s) (countReaders s) (countPublishers s) (closed s)
    (trace s) (rangeSeq s).

Definition set_sourceCloseTimerStarted (v : bool) (s : Path) : Path :=
  mkPath (clients s) (clientsWg s) (source s) (sourceTrackCount s) (sourceSdp s)
    (readers s) (onInitCmd s) (onDemandCmd s) (describeTimer s)
    (sourceCloseTimer s) v (sourceState s)
    (runOnDemandCloseTimer s) (runOnDemandCloseTimerStarted s) (closeTimer s)
    (closeTimerStarted s) (countReaders s) (countPublishers s) (closed s)
    (trace s) (rangeSeq s).

Definition set_sourceState (v : sourceStateT) (s : Path) : Path :=
  mkPath (clients s) (clientsWg s) (source s) (sourceTrackCount s) (sourceSdp s)
    (readers s) (onInitCmd s) (onDemandCmd s) (describeTimer s)
    (sourceCloseTimer s) (sourceCloseTimerStarted s) v
    (runOnDemandCloseTimer s) (runOnDemandCloseTimerStarted s) (closeTimer s)
    (closeTimerStarted s) (countReaders s) (countPublishers s) (closed s)
    (trace s) (rangeSeq s).

Definition set_runOnDemandCloseTimer (v : timer) (s : Path) : Path :=
  mkPath (clients s) (clientsWg s) (source s) (sourceTrackCount s) (sourceSdp s)
    (readers s) (onInitCmd s) (onDemandCmd s) (describeTimer s)
    (sourceCloseTimer s) (sourceCloseTimerStarted s) (sourceState s)
    v (runOnDemandCloseTimerStarted s) (closeTimer s)
    (closeTimerStarted s) (countReaders s) (countPublishers s) (closed s)
    (trace s) (rangeSeq s).

Definition set_runOnDemandCloseTimerStarted (v : bool) (s : Path) : Path :=
  mkPath (clients s) (clientsWg s) (source s) (sourceTrackCount s) (sourceSdp s)
    (readers s) (onInitCmd s) (onDemandCmd s) (describeTimer s)
    (sourceCloseTimer s) (sourceCloseTimerStarted s) (sourceState s)
    (runOnDemandCloseTimer s) v (closeTimer s)
    (closeTimerStarted s) (countReaders s) (countPublishers s) (closed s)
    (trace s) (rangeSeq s).

Definition set_closeTimer (v : timer) (s : Path) : Path :=
  mkPath (clients s) (clientsWg s) (source s) (sourceTrackCount s) (sourceSdp s)
    (readers s) (onInitCmd s) (onDemandCmd s) (describeTimer s)
    (sourceCloseTimer s) (sourceCloseTimerStarted s) (sourceState s)
    (runOnDemandCloseTimer s) (runOnDemandCloseTimerStarted s) v
    (closeTimerStarted s) (countReaders s) (countPublishers s) (closed s)
    (trace s) (rangeSeq s).

Definition set_closeTimerStarted (v : bool) (s : Path) : Path :=
  mkPath (clients s) (clientsWg s) (source s) (sourceTrackCount s) (sourceSdp s)
    (readers s) (onInitCmd s) (onDemandCmd s) (describeTimer s)
    (sourceCloseTimer s) (sourceCloseTimerStarted s) (sourceState s)
    (runOnDemandCloseTimer s) (runOnDemandCloseTimerStarted s) (closeTimer s)
    v (countReaders s) (countPublishers s) (closed s)
    (trace s) (rangeSeq s).

Definition set_countReaders (v : Z) (s : Path) : Path :=
  mkPath (clients s) (clientsWg s) (source s) (sourceTrackCount s) (sourceSdp s)
    (readers s) (onInitCmd s) (onDemandCmd s) (describeTimer s)
    (sourceCloseTimer s) (sourceCloseTimerStarted s) (sourceState s)
    (runOnDemandCloseTimer s) (runOnDemandCloseTimerStarted s) (closeTimer s)
    (closeTimerStarted s) v (countPublishers s) (closed s)
    (trace s) (rangeSeq s).

Definition set_countPublishers (v : Z) (s : Path) : Path :=
  mkPath (clients s) (clientsWg s) (source s) (sourceTrackCount s) (sourceSdp s)
    (readers s) (onInitCmd s) (onDemandCmd s) (describeTimer s)
    (sourceCloseTimer s) (sourceCloseTimerStarted s) (sourceState s)
    (runOnDemandCloseTimer s) (runOnDemandCloseTimerStarted s) (closeTimer s)
    (closeTimerStarted s) (countReaders s) v (closed s)
    (trace s) (rangeSeq s).

Definition set_closed (v : bool) (s : Path) : Path :=
  mkPath (clients s) (clientsWg s) (source s) (sourceTrackCount s) (sourceSdp s)
    (readers s) (onInitCmd s) (onDemandCmd s) (describeTimer s)
    (sourceCloseTimer s) (sourceCloseTimerStarted s) (sourceState s)
    (runOnDemandCloseTimer s) (runOnDemandCloseTimerStarted s) (closeTimer s)
    (closeTimerStarted s) (countReaders s) (countPublishers s) v
    (trace s) (rangeSeq s).

Definition set_trace (v : list output) (s : Path) : Path :=
  mkPath (clients s) (clientsWg s) (source s) (sourceTrackCount s) (sourceSdp s)
    (readers s) (onInitCmd s) (onDemandCmd s) (describeTimer s)
    (sourceCloseTimer s) (sourceCloseTimerStarted s) (sourceState s)
    (runOnDemandCloseTimer s) (runOnDemandCloseTimerStarted s) (closeTimer s)
    (closeTimerStarted s) (countReaders s) (countPublishers s) (closed s)
    v (rangeSeq s).

Definition set_rangeSeq (v : nat) (s : Path) : Path :=
  mkPath (clients s) (clientsWg s) (source s) (sourceTrackCount s) (sourceSdp s)
    (readers s) (onInitCmd s) (onDemandCmd s) (describeTimer s)
    (sourceCloseTimer s) (sourceCloseTimerStarted s) (sourceState s)
    (runOnDemandCloseTimer s) (runOnDemandCloseTimerStarted s) (closeTimer s)
    (closeTimerStarted s) (countReaders s) (countPublishers s) (closed s)
    (trace s) v.

(** One output of the actor. *)
Definition emit (o : output) (s : Path) : Path :=
  set_trace (trace s ++ [o]) s.

(** ** Configurations and clients of the examples *)

(** A path fed by a publisher. *)
Definition confRecord : PathConf :=
  mkPathConf "record" false 0 0 "" "" false "" false 0 0 None.

(** A path fed by a publisher that a command starts on demand. *)
Definition confRunOnDemand : PathConf :=
  mkPathConf "record" false 0 0 "" "" false "ffmpeg -re -i movie.mp4 -f rtsp"
    false 10000000000 10000000000 None.

(** A path that pulls an RTSP source on demand: 2 s to start, closed 5 s
    after the last client left. *)
Definition confSourceOnDemand : PathConf :=
  mkPathConf "rtsp://example/s" true 2000000000 5000000000 "" "" false ""
    false 0 0 None.

(** Stats that no one has added to yet, and stats that other paths have
    added to. *)
Definition freshStats : Stats := mkStats 0 0.
Definition sharedStats : Stats := mkStats 7 3.

Definition publisher : client := 1%positive.
Definition reader : client := 2%positive.

Definition videoTrack : Track := [Byte.x76].

(** A stand-in for [Tracks.Write]: the tracks one after the other. *)
Definition writeTracks (tracks : Tracks) : sdpBytes := concat tracks.

(** The [range] loops of the examples visit the keys in the order given,
    or in the opposite order. *)
Definition keyOrder (n : nat) (ks : list client) : list client := ks.
Definition keyOrderRev (n : nat) (ks : list client) : list client := rev ks.

(** ** The methods of [Path] *)

Section PathActor.

(** The immutable fields [conf] and [name], the stats that [New] receives
    from its caller, gortsplib's [Tracks.Write], and the order in which the
    n-th [range] over [pa.clients] visits the keys it is given (Go leaves
    that order unspecified). *)
Variable conf : PathConf.
Variable name : string.
Variable stats : Stats.
Variable tracksWrite : Tracks -> sdpBytes.
Variable order : nat -> list client -> list client.

(** [pa.Log] *)
Definition paLog (msg : string) (s : Path) : Path :=
  emit (Log ("[path " +:+ name +:+ "] " +:+ msg)) s.

Definition hasExternalSource : bool :=
  String.prefix "rtsp://" (Source conf) || String.prefix "rtmp://" (Source conf).

Definition startExternalSource (s : Path) : Path :=
  if String.prefix "rtsp://" (Source conf) then set_source sourceRtsp s
  else if String.prefix "rtmp://" (Source conf) then set_source sourceRtmp s
  else s.

(** The two loops return [true] at the first entry that qualifies, so their
    answer does not depend on the order of the visit. *)
Definition hasClients (s : Path) : bool :=
  bool_decide (map_Exists (fun _ state => state <> clientStatePreRemove) (clients s)).

Definition hasClientsNotSources (s : Path) : bool :=
  bool_decide (map_Exists (fun c state =>
    state <> clientStatePreRemove /\ sourceClient c <> source s) (clients s)).

Arguments hasClients : simpl never.
Arguments hasClientsNotSources : simpl never.

Definition addClient (c : client) (state : clientState) (s : Path) : result Path :=
  match clients s !! c with
  | Some _ => Panic "client already added"
  | None =>
      Ok (set_clientsWg (clientsWg s + 1)
            (set_clients (<[c := state]> (clients s)) s))
  end.

Definition scheduleSourceClose (s : Path) : Path :=
  if negb hasExternalSource || negb (SourceOnDemand conf)
     || bool_decide (source s = sourceNil) then s
  else if sourceCloseTimerStarted s
     || bool_decide (sourceState s = sourceStateWaitingDescribe)
     || hasClients s then s
  else set_sourceCloseTimerStarted true
         (set_sourceCloseTimer (timerPending (SourceOnDemandCloseAfter conf)) s).

Definition scheduleRunOnDemandClose (s : Path) : Path :=
  if bool_decide (RunOnDemand conf = "") || bool_decide (onDemandCmd s = None) then s
  else if runOnDemandCloseTimerStarted s
     || bool_decide (sourceState s = sourceStateWaitingDescribe)
     || hasClientsNotSources s then s
  else set_runOnDemandCloseTimerStarted true
         (set_runOnDemandCloseTimer (timerPending (RunOnDemandCloseAfter conf)) s).

Definition scheduleClose (s : Path) : Path :=
  if closeTimerStarted s
     || bool_decide (Regexp conf = None)
     || hasClients s
     || bool_decide (source s <> sourceNil) then s
  else set_closeTimerStarted true (set_closeTimer (timerPending 0) s).

Definition scheduleAll (s : Path) : Path :=
  scheduleClose (scheduleRunOnDemandClose (scheduleSourceClose s)).

(** [for c, state := range pa.clients { body }], the keys visited in the
    order [ks].  The bodies only overwrite values of the map, so every key is
    visited once and [state] is the value the entry holds when it is reached. *)
Fixpoint rangeClients (body : client -> clientState -> Path -> result Path)
    (ks : list client) (s : Path) : result Path :=
  match ks with
  | [] => Ok s
  | c :: ks' =>
      match clients s !! c with
      | Some state => s' ← body c state s; rangeClients body ks' s'
      | None => rangeClients body ks' s
      end
  end.

Definition rangeKeys (s : Path) : list client :=
  order (rangeSeq s) (map_to_list (clients s)).*1.

Definition forRange (body : client -> clientState -> Path -> result Path)
    (s : Path) : result Path :=
  rangeClients body (rangeKeys s) (set_rangeSeq (S (rangeSeq s)) s).

(** [onSourceSetNotReady], over the [removeClient] it calls. *)
Definition onSourceSetNotReadyWith (remove : client -> Path -> result Path)
    (s : Path) : result Path :=
  forRange (fun c state s =>
      if decide (state = clientStateWaitingDescribe) then Panic "not possible"
      else if decide (sourceClient c <> source s /\ state <> clientStatePreRemove)
      then s ← remove c s; Ok (emit (OnPathClientClose c) s)
      else Ok s)
    (set_sourceState sourceStateNotReady s).

Fixpoint removeClientFuel (fuel : nat) (c : client) (s : Path) : result Path :=
  match fuel with
  | O => OutOfFuel
  | S fuel' =>
      let state := default clientStateWaitingDescribe (clients s !! c) in
      let s := set_clients (<[c := clientStatePreRemove]> (clients s)) s in
      s ← match state with
          | clientStatePlay =>
              Ok (set_readers (readers s ∖ {[c]})
                    (set_countReaders (countReaders s - 1) s))
          | clientStateRecord =>
              onSourceSetNotReadyWith (removeClientFuel fuel')
                (set_countPublishers (countPublishers s - 1) s)
          | _ => Ok s
          end;
      s ← (if decide (source s = sourceClient c) then
             forRange (fun oc state s =>
                 if decide (state <> clientStatePreRemove
                            /\ state <> clientStateWaitingDescribe)
                 then s ← removeClientFuel fuel' oc s;
                      Ok (emit (OnPathClientClose oc) s)
                 else Ok s)
               (set_source sourceNil s)
           else Ok s);
      Ok (scheduleAll s)
  end.

(** A call marks its client [PreRemove] before it recurses, and recurses only
    on clients that are not yet marked: one more than the number of entries
    is fuel enough. *)
Definition removeClient (c : client) (s : Path) : result Path :=
  removeClientFuel (S (size (clients s))) c s.

Definition onSourceSetNotReady (s : Path) : result Path :=
  onSourceSetNotReadyWith removeClient s.

Definition onSourceSetReady (s : Path) : result Path :=
  let s := if decide (sourceState s = sourceStateWaitingDescribe)
           then set_describeTimer newEmptyTimer s else s in
  let s := set_sourceState sourceStateReady s in
  s ← forRange (fun c state s =>
      if decide (state = clientStateWaitingDescribe)
      then s ← removeClient c s;
           Ok (emit (OnPathDescribeData c (sourceSdp s) "" None) s)
      else Ok s) s;
  Ok (scheduleAll s).

Definition errNoOnePublishing : string :=
  "no one is publishing to path '" +:+ name +:+ "'".

(** The four blocks that open [onClientDescribe], named after their
    comments; the first two also open the branch of [onClientSetupPlay] that
    adds a client. *)

(** "prevent on-demand source from closing" *)
Definition preventSourceClose (s : Path) : Path :=
  if sourceCloseTimerStarted s
  then set_sourceCloseTimerStarted false (set_sourceCloseTimer newEmptyTimer s)
  else s.

(** "prevent on-demand command from closing" *)
Definition preventRunOnDemandClose (s : Path) : Path :=
  if runOnDemandCloseTimerStarted s
  then set_runOnDemandCloseTimerStarted false
         (set_runOnDemandCloseTimer newEmptyTimer s)
  else s.

(** "start on-demand source" *)
Definition startOnDemandSource (s : Path) : Path :=
  if hasExternalSource && bool_decide (source s = sourceNil) then
    let s := startExternalSource s in
    if decide (sourceState s <> sourceStateWaitingDescribe)
    then set_sourceState sourceStateWaitingDescribe
           (set_describeTimer (timerPending (SourceOnDemandStartTimeout conf)) s)
    else s
  else s.

(** "start on-demand command" *)
Definition startOnDemandCmd (s : Path) : Path :=
  if bool_decide (RunOnDemand conf <> "") && bool_decide (onDemandCmd s = None)
  then
    let s := paLog "on demand command started" s in
    let s := set_onDemandCmd
               (Some (mkExternalCmd (RunOnDemand conf)
                        (RunOnDemandRestart conf) name)) s in
    if decide (sourceState s <> sourceStateWaitingDescribe)
    then set_sourceState sourceStateWaitingDescribe
           (set_describeTimer (timerPending (RunOnDemandStartTimeout conf)) s)
    else s
  else s.

Definition onClientDescribe (c : client) (s : Path) : result Path :=
  let s := preventSourceClose s in
  let s := preventRunOnDemandClose s in
  let s := startOnDemandSource s in
  let s := startOnDemandCmd s in
  if decide (source s = sourceRedirect) then
    s ← addClient c clientStatePreRemove s;
    s ← removeClient c s;
    Ok (emit (OnPathDescribeData c None (SourceRedirect conf) None) s)
  else
    match sourceState s with
    | sourceStateReady =>
        s ← addClient c clientStatePreRemove s;
        s ← removeClient c s;
        Ok (emit (OnPathDescribeData c (sourceSdp s) "" None) s)
    | sourceStateWaitingDescribe =>
        addClient c clientStateWaitingDescribe s
    | sourceStateNotReady =>
        s ← addClient c clientStatePreRemove s;
        s ← removeClient c s;
        Ok (emit (OnPathDescribeData c None "" (Some errNoOnePublishing)) s)
    end.

(** The methods that return an [error] return it next to the state. *)
Definition onClientSetupPlay (c : client) (trackId : Z) (s : Path)
    : result (option string * Path) :=
  if decide (sourceState s <> sourceStateReady) then
    Ok (Some errNoOnePublishing, s)
  else if decide (trackId >= sourceTrackCount s) then
    Ok (Some ("track " +:+ pretty trackId +:+ " does not exist"), s)
  else
    match clients s !! c with
    | None =>
        let s := preventSourceClose s in
        let s := preventRunOnDemandClose s in
        s ← addClient c clientStatePrePlay s;
        Ok (None, s)
    | Some _ => Ok (None, s)
    end.

Definition onClientPlay (c : client) (s : Path) : Path :=
  match clients s !! c with
  | None => s
  | Some state =>
      if decide (state <> clientStatePrePlay) then s
      else
        let s := set_countReaders (countReaders s + 1) s in
        let s := set_clients (<[c := clientStatePlay]> (clients s)) s in
        set_readers ({[c]} ∪ readers s) s
  end.

Definition onClientAnnounce (c : client) (tracks : Tracks) (s : Path)
    : result (option string * Path) :=
  match clients s !! c with
  | Some _ => Ok (Some "already subscribed", s)
  | None =>
      if bool_decide (source s <> sourceNil) || hasExternalSource then
        Ok (Some ("someone is already publishing to path '" +:+ name +:+ "'"), s)
      else
        s ← addClient c clientStatePreRecord s;
        let s := set_source (sourceClient c) s in
        let s := set_sourceTrackCount (Z.of_nat (length tracks)) s in
        let s := set_sourceSdp (Some (tracksWrite tracks)) s in
        Ok (None, s)
  end.

Definition onClientRecord (c : client) (s : Path) : result Path :=
  match clients s !! c with
  | None => Ok s
  | Some state =>
      if decide (state <> clientStatePreRecord) then Ok s
      else
        let s := set_countPublishers (countPublishers s + 1) s in
        let s := set_clients (<[c := clientStateRecord]> (clients s)) s in
        onSourceSetReady s
  end.

(** [OnSourceSetReady]: the source writes the two fields, then signals. *)
Definition OnSourceSetReady (tracks : Tracks) (s : Path) : Path :=
  set_sourceTrackCount (Z.of_nat (length tracks))
    (set_sourceSdp (Some (tracksWrite tracks)) s).

(** The part of [run] after the loop, the waits on the wait groups left out. *)
Definition teardown (s : Path) : result Path :=
  let s := set_closeTimer timerEmpty
             (set_runOnDemandCloseTimer timerEmpty
                (set_sourceCloseTimer timerEmpty
                   (set_describeTimer timerEmpty s))) in
  let s := match onInitCmd s with
           | Some cmd => emit (CmdClose cmd) (paLog "on init command stopped" s)
           | None => s
           end in
  let s := if isSourceExternal (source s) then emit SourceClose s else s in
  let s := match onDemandCmd s with
           | Some cmd => emit (CmdClose cmd) (paLog "on demand command stopped" s)
           | None => s
           end in
  s ← forRange (fun c state s =>
      if decide (state <> clientStatePreRemove) then
        let s := match state with
                 | clientStatePlay =>
                     set_readers (readers s ∖ {[c]})
                       (set_countReaders (countReaders s - 1) s)
                 | clientStateRecord =>
                     set_countPublishers (countPublishers s - 1) s
                 | _ => s
                 end in
        Ok (emit (OnPathClientClose c) s)
      else Ok s) s;
  Ok (set_closed true s).

(** ** The event loop *)

(** What the [select] of [run] can receive. *)
Inductive event : Type :=
| EvDescribeTimer
| EvSourceCloseTimer
| EvRunOnDemandCloseTimer
| EvCloseTimer
| EvSourceSetReady (tracks : Tracks)
| EvSourceSetNotReady
| EvClientDescribe (c : client)
| EvClientSetupPlay (c : client) (trackId : Z)
| EvClientPlay (c : client)
| EvClientAnnounce (c : client) (tracks : Tracks)
| EvClientRecord (c : client)
| EvClientRemove (c : client)
| EvTerminate.

Definition errTimedOut : string :=
  "publisher of path '" +:+ name +:+ "' has timed out".

(** The branch of the [select] taken on an event. *)
Definition handle (ev : event) (s : Path) : result Path :=
  match ev with
  | EvDescribeTimer =>
      let s := set_describeTimer timerEmpty s in
      s ← forRange (fun c state s =>
          if decide (state = clientStateWaitingDescribe)
          then s ← removeClient c s;
               Ok (emit (OnPathDescribeData c None "" (Some errTimedOut)) s)
          else Ok s) s;
      Ok (scheduleAll (set_sourceState sourceStateNotReady s))
  | EvSourceCloseTimer =>
      let s := set_sourceCloseTimer timerEmpty s in
      let s := set_sourceCloseTimerStarted false s in
      if isSourceExternal (source s) then
        Ok (scheduleClose (set_source sourceNil (emit SourceClose s)))
      else Panic "interface conversion: path.source is not path.sourceExternal"
  | EvRunOnDemandCloseTimer =>
      let s := set_runOnDemandCloseTimer timerEmpty s in
      let s := set_runOnDemandCloseTimerStarted false s in
      let s := paLog "on demand command stopped" s in
      match onDemandCmd s with
      | Some cmd =>
          Ok (scheduleClose (set_onDemandCmd None (emit (CmdClose cmd) s)))
      | None => Panic "invalid memory address or nil pointer dereference"
      end
  | EvCloseTimer =>
      teardown (emit OnPathClose (set_closeTimer timerEmpty s))
  | EvSourceSetReady tracks =>
      onSourceSetReady (OnSourceSetReady tracks s)
  | EvSourceSetNotReady =>
      onSourceSetNotReady s
  | EvClientDescribe c =>
      match clients s !! c with
      | Some _ => Ok (emit (DescribeRes c (Some "already subscribed")) s)
      | None => onClientDescribe c (emit (DescribeRes c None) s)
      end
  | EvClientSetupPlay c trackId =>
      '(err, s) ← onClientSetupPlay c trackId s;
      Ok (emit (SetupPlayRes c err) s)
  | EvClientPlay c =>
      Ok (emit (PlayRes c) (onClientPlay c s))
  | EvClientAnnounce c tracks =>
      '(err, s) ← onClientAnnounce c tracks s;
      Ok (emit (AnnounceRes c err) s)
  | EvClientRecord c =>
      s ← onClientRecord c s;
      Ok (emit (RecordRes c) s)
  | EvClientRemove c =>
      match clients s !! c with
      | None => Ok (emit (RemoveRes c) s)
      | Some state =>
          s ← (if decide (state <> clientStatePreRemove)
               then removeClient c s else Ok s);
          let s := set_clients (delete c (clients s)) s in
          let s := set_clientsWg (clientsWg s - 1) s in
          Ok (emit (RemoveRes c) s)
      end
  | EvTerminate => teardown s
  end.

(** Whether the [select] can take the branch: a timer branch needs a timer
    that is still to tick, and the loop has to be running. *)
Definition ready (s : Path) (ev : event) : bool :=
  negb (closed s) &&
  match ev with
  | EvDescribeTimer => timerIsPending (describeTimer s)
  | EvSourceCloseTimer => timerIsPending (sourceCloseTimer s)
  | EvRunOnDemandCloseTimer => timerIsPending (runOnDemandCloseTimer s)
  | EvCloseTimer => timerIsPending (closeTimer s)
  | _ => true
  end.

(** One turn of the loop; an event whose branch is not ready changes
    nothing. *)
Definition step (s : Path) (ev : event) : result Path :=
  if ready s ev then handle ev s else Ok s.

Fixpoint runFrom (s : Path) (evs : list event) : result Path :=
  match evs with
  | [] => Ok s
  | ev :: evs' => s' ← step s ev; runFrom s' evs'
  end.

(** [New], then the part of [run] before the loop.  [New] stores the stats
    it is given and does not reset them: the two counters start from the
    values they hold. *)
Definition New : Path :=
  mkPath ∅ 0 sourceNil 0 None ∅ None None newEmptyTimer newEmptyTimer false
    sourceStateNotReady newEmptyTimer false newEmptyTimer false
    (CountReaders stats) (CountPublishers stats) false [] 0.

Definition start : Path :=
  let s := if decide (Source conf = "redirect") then set_source sourceRedirect New
           else if hasExternalSource && negb (SourceOnDemand conf)
           then startExternalSource New
           else New in
  if decide (RunOnInit conf <> "") then
    set_onInitCmd
      (Some (mkExternalCmd (RunOnInit conf) (RunOnInitRestart conf) name))
      (paLog "on init command started" s)
  else s.

Definition run (evs : list event) : result Path := runFrom start evs.

Definition reachable (s : Path) : Prop := exists evs, run evs = Ok s.


(** ** Invariants of the loop *)

Definition isPublisher (state : clientState) : Prop :=
  state = clientStatePreRecord \/ state = clientStateRecord.

(** A client waits for a description only while the source is awaited. *)
Definition inv_waiting (s : Path) : Prop :=
  forall c, clients s !! c = Some clientStateWaitingDescribe ->
    sourceState s = sourceStateWaitingDescribe.

(** A client that announced or records is the source. *)
Definition inv_publisher (s : Path) : Prop :=
  forall c state, clients s !! c = Some state -> isPublisher state ->
    source s = sourceClient c.

(** A client that is the source announced or records. *)
Definition inv_source (s : Path) : Prop :=
  forall c, source s = sourceClient c ->
    exists state, clients s !! c = Some state /\ isPublisher state.

(** On a path with an external source the source is that one or none. *)
Definition inv_external (s : Path) : Prop :=
  hasExternalSource = true ->
  source s = sourceNil \/ isSourceExternal (source s) = true.

(** The precondition of the source close timer. *)
Definition inv_sourceClose (s : Path) : Prop :=
  sourceCloseTimerStarted s = true ->
  hasExternalSource = true /\ SourceOnDemand conf = true /\
  source s <> sourceNil /\ hasClients s = false /\
  sourceState s <> sourceStateWaitingDescribe.

(** A description is stored once a client announced or the path is ready. *)
Definition inv_sdp (s : Path) : Prop :=
  (sourceState s = sourceStateReady \/
   exists c state, clients s !! c = Some state /\ isPublisher state) ->
  sourceSdp s <> None.

Record Inv (s : Path) : Prop := mkInv {
  Inv_waiting : inv_waiting s;
  Inv_publisher : inv_publisher s;
  Inv_source : inv_source s;
  Inv_external : inv_external s;
  Inv_sourceClose : inv_sourceClose s;
  Inv_sdp : inv_sdp s
}.

(** The describe callbacks a piece of trace holds for one client. *)
Definition isDescribeDataFor (c : client) (o : output) : bool :=
  match o with
  | OnPathDescribeData c' _ _ _ => bool_decide (c' = c)
  | _ => false
  end.

Definition describeDataFor (c : client) (tr : list output) : list output :=
  List.filter (isDescribeDataFor c) tr.


(** The source close timer can only tick while its flag is set. *)
Definition inv_pending (s : Path) : Prop :=
  timerIsPending (sourceCloseTimer s) = true -> sourceCloseTimerStarted s = true.


(** The two places from which [run] enters [onSourceSetReady]: the signal of
    an external source, after [OnSourceSetReady] stored the tracks, and
    [onClientRecord], after it moved the announcing client to [Record]. *)
Definition sourceSetReadyEntry (s s0 : Path) : Prop :=
  (exists tracks, s0 = OnSourceSetReady tracks s) \/
  (exists c, clients s !! c = Some clientStatePreRecord /\
     s0 = set_clients (<[c := clientStateRecord]> (clients s))
            (set_countPublishers (countPublishers s + 1) s)).

(** The state in which [onClientDescribe] picks its answer, after its four
    opening blocks. *)
Definition describePrelude (s : Path) : Path :=
  startOnDemandCmd (startOnDemandSource
    (preventRunOnDemandClose (preventSourceClose s))).

(** ** Notions used by the proofs *)

(** The fields none of the opening blocks of [onClientDescribe] writes. *)
Definition untouched (s : Path) :=
  (clients s, sourceSdp s, sourceTrackCount s, countReaders s,
   countPublishers s, readers s, closed s, clientsWg s).

(** The fields the opening blocks of [onClientDescribe] read or write on the
    way to the source and source state the handler dispatches on. *)
Definition dispatchView (s : Path) :=
  (source s, sourceState s, sourceCloseTimerStarted s,
   runOnDemandCloseTimerStarted s, onDemandCmd s).


(** *** What a removal can change

    [evolves s s'] bounds the effect of [removeClient] and of the loops built
    on it: entries of the map are kept or marked [PreRemove], the source is
    kept or cleared, the source state is kept or reset, and the fields below
    are untouched. *)

Record evolves (s s' : Path) : Prop := mkEvolves {
  ev_clients : forall x,
    clients s' !! x = clients s !! x \/
    (is_Some (clients s !! x) /\ clients s' !! x = Some clientStatePreRemove);
  ev_source : source s' = source s \/ source s' = sourceNil;
  ev_sourceState :
    sourceState s' = sourceState s \/ sourceState s' = sourceStateNotReady;
  ev_sourceSdp : sourceSdp s' = sourceSdp s;
  ev_sourceTrackCount : sourceTrackCount s' = sourceTrackCount s;
  ev_onInitCmd : onInitCmd s' = onInitCmd s;
  ev_onDemandCmd : onDemandCmd s' = onDemandCmd s;
  ev_describeTimer : describeTimer s' = describeTimer s;
  ev_clientsWg : clientsWg s' = clientsWg s;
  ev_closed : closed s' = closed s
}.

(** The source, when it is still a client after a removal, was that client
    before, is not the removed one, and kept its state. *)
Definition keepsSource (s s' : Path) : Prop :=
  forall x, source s' = sourceClient x ->
    source s = sourceClient x /\ clients s' !! x = clients s !! x.

Definition noneWaiting (s : Path) : Prop :=
  forall x, clients s !! x <> Some clientStateWaitingDescribe.

(** Predicates that survive the removal of a client and the bookkeeping the
    loops around it do. *)
Record removalStable (I : Path -> Prop) : Prop := mkRemovalStable {
  rs_remove : forall c s s', I s -> removeClient c s = Ok s' -> I s';
  rs_emit : forall o s, I s -> I (emit o s);
  rs_rangeSeq : forall n s, I s -> I (set_rangeSeq n s);
  rs_schedule : forall s, I s -> I (scheduleAll s)
}.

Definition inv_timer (s : Path) : Prop := inv_external s /\ inv_sourceClose s.

(** The invariants that do not constrain the source state: they hold across
    the handlers that reset it before they loop. *)
Record InvCore (s : Path) : Prop := mkInvCore {
  Core_publisher : inv_publisher s;
  Core_source : inv_source s;
  Core_timer : inv_timer s
}.

(** The keys of [ks] whose client waits for a description in [s]. *)
Definition waitingKeys (s : Path) (ks : list client) : list client :=
  List.filter
    (fun c => bool_decide (clients s !! c = Some clientStateWaitingDescribe)) ks.

(** What the loop that answers the waiting clients leaves behind. *)
Record replied (cb : client -> output) (ks : list client) (s s' : Path) : Prop :=
  mkReplied {
  rp_clients : forall x,
    clients s' !! x =
    if decide (x ∈ ks /\ clients s !! x = Some clientStateWaitingDescribe)
    then Some clientStatePreRemove else clients s !! x;
  rp_trace : trace s' = trace s ++ map cb (waitingKeys s ks);
  rp_source : source s' = source s;
  rp_sourceState : sourceState s' = sourceState s;
  rp_sourceSdp : sourceSdp s' = sourceSdp s;
  rp_sourceTrackCount : sourceTrackCount s' = sourceTrackCount s;
  rp_describeTimer : describeTimer s' = describeTimer s;
  rp_readers : readers s' = readers s;
  rp_countReaders : countReaders s' = countReaders s;
  rp_countPublishers : countPublishers s' = countPublishers s;
  rp_onDemandTimers :
    sourceState s = sourceStateWaitingDescribe ->
    sourceCloseTimerStarted s' = sourceCloseTimerStarted s /\
    sourceCloseTimer s' = sourceCloseTimer s /\
    runOnDemandCloseTimerStarted s' = runOnDemandCloseTimerStarted s /\
    runOnDemandCloseTimer s' = runOnDemandCloseTimer s
}.

(** The entry of a client that is in [PreRemove] stays until the client
    sends its remove request. *)
Definition staysPreRemove (y : client) (s : Path) : Prop :=
  clients s !! y = Some clientStatePreRemove.

(** The entries that are not marked [PreRemove], and how many a state has:
    the measure by which the recursion of [removeClient] ends. *)
Definition alive (cl : gmap client clientState) : gmap client clientState :=
  filter (fun kv => kv.2 <> clientStatePreRemove) cl.

Definition live (s : Path) : nat := size (alive (clients s)).

(** A call that returned with at most [bound] unmarked entries, or
    panicked. *)
Definition settles (bound : nat) (r : result Path) : Prop :=
  match r with
  | Ok s' => (live s' <= bound)%nat
  | Panic _ => True
  | OutOfFuel => False
  end.

(** *** The track list announced or delivered last *)




(** *** The books of the loop *)

(** The entries of the map that hold a given state. *)
Definition inState (state : clientState) (cl : gmap client clientState)
    : gmap client clientState :=
  filter (fun kv => kv.2 = state) cl.

(** The wait group counts the entries of the map. *)
Definition wgCounts (s : Path) : Prop :=
  clientsWg s = Z.of_nat (size (clients s)).

(** While the loop runs the readers map holds the clients in [Play], and the
    two counters stand above the values [New] received by the number of
    clients in [Play] and in [Record]. *)
Record tally (s : Path) : Prop := mkTally {
  tally_readers : readers s = dom (inState clientStatePlay (clients s));
  tally_countReaders :
    countReaders s =
    CountReaders stats + Z.of_nat (size (inState clientStatePlay (clients s)));
  tally_countPublishers :
    countPublishers s =
    CountPublishers stats
    + Z.of_nat (size (inState clientStateRecord (clients s)))
}.

(** After the loop everything this path added was given back. *)
Definition settled (s : Path) : Prop :=
  readers s = ∅ /\ countReaders s = CountReaders stats /\
  countPublishers s = CountPublishers stats.

Record Books (s : Path) : Prop := mkBooks {
  Books_wg : wgCounts s;
  Books_open : closed s = false -> tally s;
  Books_closed : closed s = true -> settled s
}.

(** The fields the books are about. *)
Definition booksView (s : Path) :=
  (clients s, clientsWg s, readers s, countReaders s, countPublishers s,
   closed s).

(** The keys of [ks] whose entry holds a given state, and those whose entry
    is not marked [PreRemove]. *)
Definition keysIn (state : clientState) (cl : gmap client clientState)
    (ks : list client) : list client :=
  filter (fun c => cl !! c = Some state) ks.

Definition liveKeys (cl : gmap client clientState) (ks : list client)
    : list client :=
  filter (fun c => is_Some (cl !! c) /\ cl !! c <> Some clientStatePreRemove) ks.

(** The calls of [OnPathClientClose] a piece of trace holds for one client. *)
Definition closeCallsFor (c : client) (tr : list output) : list output :=
  filter (fun o => o = OnPathClientClose c) tr.

(** The fields the loop that ends [run] leaves alone. *)
Definition teardownView (s : Path) :=
  (clients s, clientsWg s, describeTimer s, sourceCloseTimer s,
   runOnDemandCloseTimer s, closeTimer s, closed s).

(** *** The close timer of the on-demand command *)

(** The precondition under which [scheduleRunOnDemandClose] arms the timer
    stays true while the flag is set, and the timer can only tick while the
    flag is set. *)
Definition inv_cmdClose (s : Path) : Prop :=
  runOnDemandCloseTimerStarted s = true ->
  RunOnDemand conf <> "" /\ onDemandCmd s <> None /\
  (forall x state, clients s !! x = Some state ->
     state = clientStatePreRemove \/ sourceClient x = source s) /\
  sourceState s <> sourceStateWaitingDescribe.

Definition inv_cmdPending (s : Path) : Prop :=
  timerIsPending (runOnDemandCloseTimer s) = true ->
  runOnDemandCloseTimerStarted s = true.

Definition inv_cmd (s : Path) : Prop := inv_cmdClose s /\ inv_cmdPending s.

Definition cmdView (s : Path) :=
  (runOnDemandCloseTimerStarted s, runOnDemandCloseTimer s, onDemandCmd s,
   clients s, source s, sourceState s).

(** The timer is not armed and will not tick. *)
Definition cmdDisarmed (s : Path) : Prop :=
  runOnDemandCloseTimerStarted s = false /\
  timerIsPending (runOnDemandCloseTimer s) = false.

(** *** Panics *)

(** No client waits for a description, or none publishes: the two cases in
    which [removeClient] cannot reach the panic of [onSourceSetNotReady]. *)
Definition noPublisher (s : Path) : Prop :=
  forall x state, clients s !! x = Some state -> ~ isPublisher state.

Definition calm (s : Path) : Prop := noneWaiting s \/ noPublisher s.

(** *** The close timer *)

(** The close timer is not armed and the parent was not asked to close the
    path. *)
Definition closeQuiet (s : Path) : Prop :=
  closeTimerStarted s = false /\ timerIsPending (closeTimer s) = false /\
  OnPathClose ∉ trace s.

(** *** The removal of the publisher *)

(** The keys of [ks] other than [x] whose entry is not marked [PreRemove]:
    the clients that are closed when the publisher [x] is removed. *)
Definition closedKeys (x : client) (cl : gmap client clientState)
    (ks : list client) : list client :=
  filter (fun c => c <> x /\ is_Some (cl !! c) /\
                   cl !! c <> Some clientStatePreRemove) ks.

(** The fields a removal neither of the loops of which runs leaves alone. *)
Definition removalView (s : Path) :=
  (trace s, source s, sourceState s, clientsWg s, closed s).

(** *** [hasClients] and [hasClientsNotSources] as loops *)

(** The two functions as the code writes them, over a visit [ks] of the map:
    the loop returns [true] at the first entry that qualifies. *)
Fixpoint hasClientsRange (ks : list client) (s : Path) : bool :=
  match ks with
  | [] => false
  | c :: ks' =>
      match clients s !! c with
      | Some state =>
          if decide (state <> clientStatePreRemove) then true
          else hasClientsRange ks' s
      | None => hasClientsRange ks' s
      end
  end.

Fixpoint hasClientsNotSourcesRange (ks : list client) (s : Path) : bool :=
  match ks with
  | [] => false
  | c :: ks' =>
      match clients s !! c with
      | Some state =>
          if decide (state <> clientStatePreRemove /\ sourceClient c <> source s)
          then true
          else hasClientsNotSourcesRange ks' s
      | None => hasClientsNotSourcesRange ks' s
      end
  end.

(** *** After the loop: [exhaustChannels] *)

(** [WaitGroup.Done]: the counter may not drop below 0. *)
Definition wgDone (s : Path) : result Path :=
  if decide (clientsWg s - 1 < 0)
  then Panic "sync: negative WaitGroup counter"
  else Ok (set_clientsWg (clientsWg s - 1) s).

(** One turn of the goroutine that [exhaustChannels] starts when [run]
    leaves its loop, which answers the requests that still arrive until [run]
    closes the channels: the signals of the source are dropped (the source
    has written its tracks before it signals), Describe, Announce and
    SetupPlay are answered with the error "terminated", Play and Record are
    acknowledged, and a ClientRemove of a client of the map gives the unit of
    that client back to the wait group, on which [run] is waiting.  The part
    of [run] after the loop, which runs next to this goroutine, reads the map
    and does not touch the wait group. *)
Definition exhaust (ev : event) (s : Path) : result Path :=
  match ev with
  | EvSourceSetReady tracks => Ok (OnSourceSetReady tracks s)
  | EvSourceSetNotReady => Ok s
  | EvClientDescribe c => Ok (emit (DescribeRes c (Some "terminated")) s)
  | EvClientAnnounce c _ => Ok (emit (AnnounceRes c (Some "terminated")) s)
  | EvClientSetupPlay c _ => Ok (emit (SetupPlayRes c (Some "terminated")) s)
  | EvClientPlay c => Ok (emit (PlayRes c) s)
  | EvClientRecord c => Ok (emit (RecordRes c) s)
  | EvClientRemove c =>
      match clients s !! c with
      | None => Ok (emit (RemoveRes c) s)
      | Some _ => s ← wgDone s; Ok (emit (RemoveRes c) s)
      end
  | _ => Ok s
  end.

Fixpoint drain (s : Path) (reqs : list event) : result Path :=
  match reqs with
  | [] => Ok s
  | ev :: reqs' => s' ← exhaust ev s; drain s' reqs'
  end.

(** The clients that ask to be removed. *)
Definition removeRequests (reqs : list event) : list client :=
  omap (fun ev => match ev with EvClientRemove c => Some c | _ => None end) reqs.

(** The entries of the clients that are not in [seen]. *)
Definition stillAttached (seen : list client) (cl : gmap client clientState)
    : gmap client clientState :=
  filter (fun kv => kv.1 ∉ seen) cl.
(** ** Properties *)

(** Every [range] visits each key of the map once. *)
Hypothesis order_perm : forall n l, order n l ≡ₚ l.

Lemma bind_Ok {A B} (r : result A) (k : A -> result B) (b : B) :
  r ≫= k = Ok b <-> exists a, r = Ok a /\ k a = Ok b.
Proof.
  destruct r as [a| |]; simpl; split.
  - intros H. exists a. auto.
  - intros (a' & Ha & Hk). congruence.
  - discriminate.
  - intros (a' & Ha & _). discriminate.
  - discriminate.
  - intros (a' & Ha & _). discriminate.
Qed.

Ltac inv_res :=
  repeat match goal with
  | H : Ok _ = Ok _ |- _ => injection H as H; try subst
  | H : Panic _ = Ok _ |- _ => discriminate H
  | H : OutOfFuel = Ok _ |- _ => discriminate H
  | H : mbind _ _ = Ok _ |- _ =>
      let a := fresh "t" in
      let Ha := fresh "Hstep" in
      apply bind_Ok in H; destruct H as (a & Ha & H)
  end.

(** *** The schedule checks only touch the three idle timers *)

Ltac sched_frame :=
  unfold scheduleAll, scheduleClose, scheduleRunOnDemandClose, scheduleSourceClose;
  repeat case_match; reflexivity.

Lemma scheduleAll_clients s : clients (scheduleAll s) = clients s.
Proof. sched_frame. Qed.
Lemma scheduleAll_clientsWg s : clientsWg (scheduleAll s) = clientsWg s.
Proof. sched_frame. Qed.
Lemma scheduleAll_source s : source (scheduleAll s) = source s.
Proof. sched_frame. Qed.
Lemma scheduleAll_sourceTrackCount s :
  sourceTrackCount (scheduleAll s) = sourceTrackCount s.
Proof. sched_frame. Qed.
Lemma scheduleAll_sourceSdp s : sourceSdp (scheduleAll s) = sourceSdp s.
Proof. sched_frame. Qed.
Lemma scheduleAll_readers s : readers (scheduleAll s) = readers s.
Proof. sched_frame. Qed.
Lemma scheduleAll_onInitCmd s : onInitCmd (scheduleAll s) = onInitCmd s.
Proof. sched_frame. Qed.
Lemma scheduleAll_onDemandCmd s : onDemandCmd (scheduleAll s) = onDemandCmd s.
Proof. sched_frame. Qed.
Lemma scheduleAll_describeTimer s : describeTimer (scheduleAll s) = describeTimer s.
Proof. sched_frame. Qed.
Lemma scheduleAll_sourceState s : sourceState (scheduleAll s) = sourceState s.
Proof. sched_frame. Qed.
Lemma scheduleAll_countReaders s : countReaders (scheduleAll s) = countReaders s.
Proof. sched_frame. Qed.
Lemma scheduleAll_countPublishers s :
  countPublishers (scheduleAll s) = countPublishers s.
Proof. sched_frame. Qed.
Lemma scheduleAll_closed s : closed (scheduleAll s) = closed s.
Proof. sched_frame. Qed.
Lemma scheduleAll_trace s : trace (scheduleAll s) = trace s.
Proof. sched_frame. Qed.
Lemma scheduleAll_rangeSeq s : rangeSeq (scheduleAll s) = rangeSeq s.
Proof. sched_frame. Qed.

Lemma scheduleClose_clients s : clients (scheduleClose s) = clients s.
Proof. sched_frame. Qed.
Lemma scheduleClose_source s : source (scheduleClose s) = source s.
Proof. sched_frame. Qed.
Lemma scheduleClose_sourceState s : sourceState (scheduleClose s) = sourceState s.
Proof. sched_frame. Qed.
Lemma scheduleClose_sourceSdp s : sourceSdp (scheduleClose s) = sourceSdp s.
Proof. sched_frame. Qed.
Lemma scheduleClose_sourceTrackCount s :
  sourceTrackCount (scheduleClose s) = sourceTrackCount s.
Proof. sched_frame. Qed.
Lemma scheduleClose_sourceCloseTimerStarted s :
  sourceCloseTimerStarted (scheduleClose s) = sourceCloseTimerStarted s.
Proof. sched_frame. Qed.
Lemma scheduleClose_closed s : closed (scheduleClose s) = closed s.
Proof. sched_frame. Qed.

Create Rewrite HintDb sched.

#[local] Hint Rewrite scheduleAll_clients scheduleAll_clientsWg scheduleAll_source
  scheduleAll_sourceTrackCount scheduleAll_sourceSdp scheduleAll_readers
  scheduleAll_onInitCmd scheduleAll_onDemandCmd scheduleAll_describeTimer
  scheduleAll_sourceState scheduleAll_countReaders scheduleAll_countPublishers
  scheduleAll_closed scheduleAll_trace scheduleAll_rangeSeq
  scheduleClose_clients scheduleClose_source scheduleClose_sourceState
  scheduleClose_sourceSdp scheduleClose_sourceTrackCount
  scheduleClose_sourceCloseTimerStarted scheduleClose_closed : sched.

(** *** Loops *)

Lemma rangeClients_inv (I : Path -> Prop) body ks s s' :
  (forall c state t t',
     I t -> clients t !! c = Some state -> body c state t = Ok t' -> I t') ->
  I s -> rangeClients body ks s = Ok s' -> I s'.
Proof.
  intros Hbody. revert s. induction ks as [|c ks IH]; intros s Hs Hrun; simpl in Hrun.
  - congruence.
  - destruct (clients s !! c) as [state|] eqn:Hc.
    + inv_res. eauto.
    + eauto.
Qed.

Lemma forRange_inv (I : Path -> Prop) body s s' :
  (forall c state t t',
     I t -> clients t !! c = Some state -> body c state t = Ok t' -> I t') ->
  I (set_rangeSeq (S (rangeSeq s)) s) -> forRange body s = Ok s' -> I s'.
Proof. unfold forRange. intros Hbody Hs Hrun. eapply rangeClients_inv; eauto. Qed.

Lemma rangeKeys_elem s c : c ∈ rangeKeys s <-> is_Some (clients s !! c).
Proof.
  unfold rangeKeys. rewrite order_perm. rewrite list_elem_of_fmap. split.
  - intros ([c' st] & -> & Hin). apply elem_of_map_to_list in Hin. simpl. eauto.
  - intros [st Hst]. exists (c, st). split; [done|]. by apply elem_of_map_to_list.
Qed.

Lemma rangeKeys_NoDup s : NoDup (rangeKeys s).
Proof. unfold rangeKeys. rewrite order_perm. apply NoDup_fst_map_to_list. Qed.

Lemma evolves_refl s : evolves s s.
Proof. constructor; auto. Qed.

Lemma evolves_trans s1 s2 s3 : evolves s1 s2 -> evolves s2 s3 -> evolves s1 s3.
Proof.
  intros [Hc1 Hs1 Hst1 ? ? ? ? ? ? ?] [Hc2 Hs2 Hst2 ? ? ? ? ? ? ?].
  constructor; try congruence.
  - intros x. destruct (Hc1 x) as [E1|[I1 E1]], (Hc2 x) as [E2|[I2 E2]].
    + left. congruence.
    + right. rewrite <- E1. done.
    + right. split; [done|congruence].
    + right. done.
  - destruct Hs2 as [->| ->]; auto.
  - destruct Hst2 as [->| ->]; auto.
Qed.

Lemma evolves_same s s' :
  clients s' = clients s -> source s' = source s ->
  sourceState s' = sourceState s -> sourceSdp s' = sourceSdp s ->
  sourceTrackCount s' = sourceTrackCount s -> onInitCmd s' = onInitCmd s ->
  onDemandCmd s' = onDemandCmd s -> describeTimer s' = describeTimer s ->
  clientsWg s' = clientsWg s -> closed s' = closed s -> evolves s s'.
Proof. intros Hc **. constructor; auto. intros x. rewrite Hc. auto. Qed.

Lemma evolves_scheduleAll s : evolves s (scheduleAll s).
Proof. apply evolves_same; by autorewrite with sched. Qed.

Lemma evolves_emit o s : evolves s (emit o s).
Proof. by apply evolves_same. Qed.

Lemma evolves_rangeSeq n s : evolves s (set_rangeSeq n s).
Proof. by apply evolves_same. Qed.

Lemma evolves_mark c state s :
  clients s !! c = Some state ->
  evolves s (set_clients (<[c := clientStatePreRemove]> (clients s)) s).
Proof.
  intros Hc. constructor; simpl; auto.
  intros x. destruct (decide (x = c)) as [->|Hne].
  - right. rewrite lookup_insert_eq. eauto.
  - left. by rewrite lookup_insert_ne.
Qed.

Lemma evolves_lookup_PreRemove s s' x :
  evolves s s' -> clients s !! x = Some clientStatePreRemove ->
  clients s' !! x = Some clientStatePreRemove.
Proof. intros H Hx. destruct (ev_clients _ _ H x) as [->|[_ ->]]; done. Qed.

Lemma evolves_lookup_None s s' x :
  evolves s s' -> clients s' !! x = None <-> clients s !! x = None.
Proof.
  intros H. destruct (ev_clients _ _ H x) as [->|[[st Hst] ->]]; [done|].
  rewrite Hst. split; discriminate.
Qed.

Lemma evolves_lookup_Some s s' x state :
  evolves s s' -> clients s' !! x = Some state ->
  clients s !! x = Some state \/
  (state = clientStatePreRemove /\ is_Some (clients s !! x)).
Proof.
  intros H Hx. destruct (ev_clients _ _ H x) as [E|[I E]].
  - left. congruence.
  - right. split; [congruence|done].
Qed.

Lemma forRange_evolves body s s' :
  (forall c state t t',
     clients t !! c = Some state -> body c state t = Ok t' -> evolves t t') ->
  forRange body s = Ok s' -> evolves s s'.
Proof.
  intros Hbody Hrun.
  eapply (forRange_inv (evolves s)); [| |exact Hrun].
  - intros c state t t' Ht Hc Hb. eapply evolves_trans; eauto.
  - apply evolves_rangeSeq.
Qed.

(** The body of the loop of [onSourceSetNotReady] and of the loop of
    [removeClient], over a removal that is known to evolve. *)
Lemma onSourceSetNotReadyWith_evolves remove s s' :
  (forall c state t t',
     clients t !! c = Some state -> remove c t = Ok t' -> evolves t t') ->
  onSourceSetNotReadyWith remove s = Ok s' -> evolves s s'.
Proof.
  intros Hrem Hrun. unfold onSourceSetNotReadyWith in Hrun.
  eapply evolves_trans; [|eapply forRange_evolves; [|exact Hrun]].
  - constructor; simpl; auto.
  - intros c state t t' Hc Hb. simpl in Hb.
    repeat case_decide; inv_res; try apply evolves_refl.
    eapply evolves_trans; [eauto|apply evolves_emit].
Qed.

Lemma removeClientFuel_evolves fuel c s s' :
  removeClientFuel fuel c s = Ok s' ->
  evolves (set_clients (<[c := clientStatePreRemove]> (clients s)) s) s'.
Proof.
  revert c s s'. induction fuel as [|fuel IH]; intros c s s' Hrun; [discriminate|].
  assert (Hnested : forall c state t t',
            clients t !! c = Some state ->
            removeClientFuel fuel c t = Ok t' -> evolves t t').
  { intros c' state t t' Hc Hr. eapply evolves_trans.
    - eapply evolves_mark; eauto.
    - eauto. }
  simpl in Hrun. inv_res.
  eapply evolves_trans; [|apply evolves_scheduleAll].
  match goal with H : _ = Ok t0 |- _ => rename H into Hcascade end.
  match goal with H : _ = Ok t |- _ => rename H into Hswitch end.
  eapply (evolves_trans _ t).
  - destruct (default clientStateWaitingDescribe (clients s !! c));
      inv_res; try apply evolves_refl.
    + by apply evolves_same.
    + eapply evolves_trans; [|eapply onSourceSetNotReadyWith_evolves; eauto].
      by apply evolves_same.
  - case_decide; inv_res; [|apply evolves_refl].
    eapply evolves_trans; [|eapply forRange_evolves; [|exact Hcascade]].
    + constructor; simpl; auto.
    + intros oc state t' t'' Hc Hb. simpl in Hb.
      case_decide; inv_res; [|apply evolves_refl].
      eapply evolves_trans; [eauto|apply evolves_emit].
Qed.

Lemma removeClientFuel_evolves_present fuel c state s s' :
  clients s !! c = Some state ->
  removeClientFuel fuel c s = Ok s' -> evolves s s'.
Proof.
  intros Hc Hrun. eapply evolves_trans.
  - eapply evolves_mark; eauto.
  - eapply removeClientFuel_evolves; eauto.
Qed.

Lemma removeClientFuel_marks fuel c s s' :
  removeClientFuel fuel c s = Ok s' ->
  clients s' !! c = Some clientStatePreRemove.
Proof.
  intros Hrun. apply removeClientFuel_evolves in Hrun.
  eapply evolves_lookup_PreRemove; [exact Hrun|].
  simpl. apply lookup_insert_eq.
Qed.

Lemma removeClient_evolves c state s s' :
  clients s !! c = Some state -> removeClient c s = Ok s' -> evolves s s'.
Proof. apply removeClientFuel_evolves_present. Qed.

Lemma removeClient_marks c s s' :
  removeClient c s = Ok s' -> clients s' !! c = Some clientStatePreRemove.
Proof. apply removeClientFuel_marks. Qed.

(** *** Invariants across [removeClient] *)

Lemma hasClients_false s :
  hasClients s = false <->
  forall x state, clients s !! x = Some state -> state = clientStatePreRemove.
Proof.
  unfold hasClients. rewrite bool_decide_eq_false. unfold map_Exists. split.
  - intros H x state Hx. destruct (decide (state = clientStatePreRemove)); [done|].
    exfalso. apply H. eauto.
  - intros H (x & state & Hx & Hne). apply Hne. eauto.
Qed.

Lemma hasClients_true s :
  hasClients s = true <->
  exists x state, clients s !! x = Some state /\ state <> clientStatePreRemove.
Proof. unfold hasClients. rewrite bool_decide_eq_true. done. Qed.

Lemma hasClients_false_evolves s s' :
  evolves s s' -> hasClients s = false -> hasClients s' = false.
Proof.
  rewrite !hasClients_false. intros He H x state Hx.
  destruct (evolves_lookup_Some _ _ _ _ He Hx) as [Hs|[-> _]]; eauto.
Qed.

Lemma keepsSource_refl s : keepsSource s s.
Proof. intros x Hx. auto. Qed.

Lemma keepsSource_trans s1 s2 s3 :
  keepsSource s1 s2 -> keepsSource s2 s3 -> keepsSource s1 s3.
Proof.
  intros H1 H2 x Hx. destruct (H2 x Hx) as [Hs Hc].
  destruct (H1 x Hs) as [Hs' Hc']. split; congruence.
Qed.

Lemma removeClientFuel_source fuel c s s' x :
  removeClientFuel fuel c s = Ok s' -> source s' = sourceClient x ->
  source s = sourceClient x /\ x <> c /\ clients s' !! x = clients s !! x.
Proof.
  revert c s s' x. induction fuel as [|fuel IH]; intros c s s' x Hrun Hx;
    [discriminate|].
  assert (Hnested : forall c t t',
            removeClientFuel fuel c t = Ok t' -> keepsSource t (emit (OnPathClientClose c) t')).
  { intros c' t t' Hr y Hy. simpl in Hy.
    destruct (IH _ _ _ _ Hr Hy) as (? & ? & ?). auto. }
  simpl in Hrun. inv_res.
  match goal with H : _ = Ok t0 |- _ => rename H into Hcascade end.
  match goal with H : _ = Ok t |- _ => rename H into Hswitch end.
  rewrite scheduleAll_source in Hx. rewrite scheduleAll_clients.
  set (s1 := set_clients (<[c := clientStatePreRemove]> (clients s)) s) in *.
  assert (Hk : keepsSource s1 t).
  { clear Hcascade Hx. destruct (default clientStateWaitingDescribe (clients s !! c));
      inv_res; try apply keepsSource_refl.
    - intros y Hy. auto.
    - unfold onSourceSetNotReadyWith in Hswitch.
      eapply (forRange_inv (keepsSource s1)); [| |exact Hswitch].
      + intros c' state t1 t2 Ht1 Hc' Hb. simpl in Hb.
        repeat case_decide; inv_res; try done.
        eapply keepsSource_trans; eauto.
      + intros y Hy. auto. }
  case_decide as Hsrc; inv_res.
  - exfalso.
    assert (Hk' : keepsSource (set_source sourceNil t) t0).
    { eapply (forRange_inv (keepsSource (set_source sourceNil t)));
        [| |exact Hcascade].
      - intros c' state t1 t2 Ht1 Hc' Hb. simpl in Hb.
        case_decide; inv_res; try done.
        eapply keepsSource_trans; eauto.
      - intros y Hy. auto. }
    destruct (Hk' x Hx) as [Hnil _]. discriminate.
  - destruct (Hk x Hx) as [Hs Hc]. simpl in Hs, Hc.
    assert (x <> c) by congruence.
    rewrite lookup_insert_ne in Hc by done. auto.
Qed.

(** After the loop of [onSourceSetNotReady] no client waits. *)
Lemma rangeClients_visited (Q : client -> Path -> Prop) body ks s s' :
  (forall c state t t',
     clients t !! c = Some state -> body c state t = Ok t' ->
     Q c t' /\ forall x, Q x t -> Q x t') ->
  (forall c t, clients t !! c = None -> Q c t) ->
  rangeClients body ks s = Ok s' -> forall x, x ∈ ks -> Q x s'.
Proof.
  intros Hbody Hnone. revert s.
  induction ks as [|c ks IH]; intros s Hrun x Hin; [by apply elem_of_nil in Hin|].
  simpl in Hrun.
  assert (Hstable : forall t t' y, Q y t -> rangeClients body ks t = Ok t' -> Q y t').
  { intros t t' y Hy Hr. eapply (rangeClients_inv (Q y)); [|exact Hy|exact Hr].
    intros c' state u u' Hu Hc' Hb. destruct (Hbody c' state u u' Hc' Hb) as [_ Hst]. by apply Hst. }
  apply elem_of_cons in Hin. destruct (clients s !! c) as [state|] eqn:Hc.
  - inv_res. destruct Hin as [->|Hin]; [|eauto].
    eapply Hstable; [|eassumption]. by destruct (Hbody c state s t Hc Hstep).
  - destruct Hin as [->|Hin]; [|eauto].
    eapply Hstable; [|eassumption]. by apply Hnone.
Qed.

Lemma evolves_not_waiting s s' x :
  evolves s s' -> clients s !! x <> Some clientStateWaitingDescribe ->
  clients s' !! x <> Some clientStateWaitingDescribe.
Proof.
  intros He Hx Hx'. destruct (evolves_lookup_Some _ _ _ _ He Hx') as [?|[? _]]; done.
Qed.

Lemma forRange_noneWaiting body s s' :
  (forall c state t t',
     clients t !! c = Some state -> body c state t = Ok t' ->
     evolves t t' /\ clients t' !! c <> Some clientStateWaitingDescribe) ->
  forRange body s = Ok s' -> noneWaiting s'.
Proof.
  intros Hbody Hrun x Hx.
  assert (He : evolves s s').
  { eapply forRange_evolves; [|exact Hrun]. intros. by eapply Hbody. }
  assert (Hin : x ∈ rangeKeys s).
  { apply rangeKeys_elem. destruct (clients s !! x) eqn:E; [eauto|].
    apply (evolves_lookup_None _ _ x He) in E. congruence. }
  unfold forRange in Hrun.
  refine (rangeClients_visited
    (fun y t => clients t !! y <> Some clientStateWaitingDescribe)
    body _ _ _ _ _ Hrun x Hin Hx).
  - intros c state t t' Hc Hb. destruct (Hbody _ _ _ _ Hc Hb) as [He' Hc'].
    split; [done|]. intros y. by apply evolves_not_waiting.
  - intros c t Hc. congruence.
Qed.

Lemma onSourceSetNotReadyWith_noneWaiting remove s s' :
  (forall c state t t',
     clients t !! c = Some state -> remove c t = Ok t' -> evolves t t') ->
  onSourceSetNotReadyWith remove s = Ok s' -> noneWaiting s'.
Proof.
  intros Hrem Hrun. unfold onSourceSetNotReadyWith in Hrun.
  eapply forRange_noneWaiting; [|exact Hrun].
  intros c state t t' Hc Hb. simpl in Hb.
  case_decide as Hw; [discriminate|].
  case_decide; inv_res.
  - assert (He : evolves t t0) by eauto. split.
    + eapply evolves_trans; [exact He|apply evolves_emit].
    + simpl. apply (evolves_not_waiting _ _ _ He). congruence.
  - split; [apply evolves_refl|congruence].
Qed.

Lemma noneWaiting_inv_waiting s : noneWaiting s -> inv_waiting s.
Proof. intros H c Hc. by destruct (H c). Qed.

Lemma removeClientFuel_inv_waiting fuel c s s' :
  inv_waiting s -> removeClientFuel fuel c s = Ok s' -> inv_waiting s'.
Proof.
  revert c s s'. induction fuel as [|fuel IH]; intros c s s' Hinv Hrun;
    [discriminate|].
  simpl in Hrun. inv_res.
  match goal with H : _ = Ok t0 |- _ => rename H into Hcascade end.
  match goal with H : _ = Ok t |- _ => rename H into Hswitch end.
  set (s1 := set_clients (<[c := clientStatePreRemove]> (clients s)) s) in *.
  assert (H1 : inv_waiting s1).
  { intros x Hx. simpl in *. apply (Hinv x).
    destruct (decide (x = c)) as [->|Hne].
    - rewrite lookup_insert_eq in Hx. discriminate.
    - by rewrite lookup_insert_ne in Hx. }
  assert (Ht : inv_waiting t).
  { clear Hcascade. destruct (default clientStateWaitingDescribe (clients s !! c));
      inv_res; try done.
    apply noneWaiting_inv_waiting.
    eapply onSourceSetNotReadyWith_noneWaiting; [|exact Hswitch].
    intros. eapply removeClientFuel_evolves_present; eauto. }
  assert (Ht0 : inv_waiting t0).
  { case_decide; inv_res; [|done].
    eapply (forRange_inv inv_waiting); [| |exact Hcascade]; [|exact Ht].
    intros c' state t1 t2 Ht1 Hc' Hb. simpl in Hb.
    case_decide; inv_res; [|done].
    intros x Hx. simpl in *. eapply IH; eauto. }
  intros x Hx. autorewrite with sched in *. eauto.
Qed.

Lemma inv_publisher_mark c s :
  inv_publisher s ->
  inv_publisher (set_clients (<[c := clientStatePreRemove]> (clients s)) s).
Proof.
  intros Hinv x state Hx Hp. simpl in *.
  destruct (decide (x = c)) as [->|Hne].
  - rewrite lookup_insert_eq in Hx. destruct Hp; congruence.
  - rewrite lookup_insert_ne in Hx by done. eauto.
Qed.

Lemma removeClientFuel_inv_publisher fuel c s s' :
  inv_publisher s -> removeClientFuel fuel c s = Ok s' -> inv_publisher s'.
Proof.
  revert c s s'. induction fuel as [|fuel IH]; intros c s s' Hinv Hrun;
    [discriminate|].
  pose proof (removeClientFuel_evolves _ _ _ _ Hrun) as Hev.
  simpl in Hrun. inv_res.
  match goal with H : _ = Ok t0 |- _ => rename H into Hcascade end.
  match goal with H : _ = Ok t |- _ => rename H into Hswitch end.
  set (s1 := set_clients (<[c := clientStatePreRemove]> (clients s)) s) in *.
  pose proof (inv_publisher_mark c s Hinv) as H1. fold s1 in H1.
  assert (Hnested : forall c' t1 t2,
            inv_publisher t1 ->
            (s ← removeClientFuel fuel c' t1; Ok (emit (OnPathClientClose c') s)) = Ok t2 ->
            inv_publisher t2).
  { intros c' t1 t2 Ht1 Hb. inv_res.
    intros x st Hx Hp. simpl in *. eapply IH; eauto. }
  assert (Ht : inv_publisher t /\ clients t !! c = Some clientStatePreRemove).
  { clear Hcascade Hev. destruct (default clientStateWaitingDescribe (clients s !! c));
      inv_res; try (split; [done|apply lookup_insert_eq]).
    split.
    - unfold onSourceSetNotReadyWith in Hswitch.
      eapply (forRange_inv inv_publisher); [| |exact Hswitch]; [|exact H1].
      intros c' state t1 t2 Ht1 Hc' Hb. simpl in Hb.
      repeat case_decide; inv_res; try done.
      eapply (Hnested c' t1); [done|]. rewrite Hstep. done.
    - eapply evolves_lookup_PreRemove.
      + eapply onSourceSetNotReadyWith_evolves; [|exact Hswitch].
        intros. eapply removeClientFuel_evolves_present; eauto.
      + simpl. apply lookup_insert_eq. }
  destruct Ht as [Ht Htc].
  assert (Ht0 : inv_publisher t0).
  { case_decide as Hsrc; inv_res; [|done].
    eapply (forRange_inv inv_publisher); [| |exact Hcascade].
    - intros c' state t1 t2 Ht1 Hc' Hb. simpl in Hb.
      case_decide; inv_res; [|done].
      eapply (Hnested c' t1); [done|]. rewrite Hstep. done.
    - intros x st Hx Hp. simpl in *. exfalso.
      pose proof (Ht x st Hx Hp) as Hsx. rewrite Hsrc in Hsx.
      injection Hsx as <-. rewrite Htc in Hx. destruct Hp; congruence. }
  intros x st Hx Hp. autorewrite with sched in *. eauto.
Qed.

(** A predicate that survives every elementary effect of [removeClient]
    survives [removeClient]. *)
Lemma removeClientFuel_preserves (I : Path -> Prop) :
  (forall c s, I s -> I (set_clients (<[c := clientStatePreRemove]> (clients s)) s)) ->
  (forall c n s, I s -> I (set_readers (readers s ∖ {[c]}) (set_countReaders n s))) ->
  (forall n s, I s -> I (set_sourceState sourceStateNotReady (set_countPublishers n s))) ->
  (forall n s, I s -> I (set_rangeSeq n s)) ->
  (forall c s, I s -> I (emit (OnPathClientClose c) s)) ->
  (forall c s, I s -> source s = sourceClient c ->
     clients s !! c = Some clientStatePreRemove -> I (set_source sourceNil s)) ->
  (forall s, I s -> I (scheduleAll s)) ->
  forall fuel c s s', I s -> removeClientFuel fuel c s = Ok s' -> I s'.
Proof.
  intros Hmark Hplay Hrecord Hseq Hemit Hnil Hsched.
  induction fuel as [|fuel IH]; intros c s s' Hinv Hrun; [discriminate|].
  simpl in Hrun. inv_res.
  match goal with H : _ = Ok t0 |- _ => rename H into Hcascade end.
  match goal with H : _ = Ok t |- _ => rename H into Hswitch end.
  set (s1 := set_clients (<[c := clientStatePreRemove]> (clients s)) s) in *.
  assert (H1 : I s1) by (apply Hmark; done).
  assert (Ht : I t /\ clients t !! c = Some clientStatePreRemove).
  { clear Hcascade.
    destruct (default clientStateWaitingDescribe (clients s !! c));
      inv_res; try (split; [exact H1|apply lookup_insert_eq]).
    { split; [exact (Hplay c _ s1 H1)|apply lookup_insert_eq]. }
    split.
    - unfold onSourceSetNotReadyWith in Hswitch.
      eapply (forRange_inv I); [| |exact Hswitch];
        [|apply Hseq; exact (Hrecord _ s1 H1)].
      intros c' state t1 t2 Ht1 Hc' Hb. simpl in Hb.
      case_decide; [discriminate|]. case_decide; inv_res; eauto.
    - eapply evolves_lookup_PreRemove.
      + eapply onSourceSetNotReadyWith_evolves; [|exact Hswitch].
        intros. eapply removeClientFuel_evolves_present; eauto.
      + simpl. apply lookup_insert_eq. }
  destruct Ht as [Ht Htc]. apply Hsched.
  case_decide as Hsrc; inv_res; [|done].
  eapply (forRange_inv I); [| |exact Hcascade]; [|by eauto].
  intros c' state t1 t2 Ht1 Hc' Hb. simpl in Hb.
  case_decide; inv_res; eauto.
Qed.

Lemma replyLoop_stable (I : Path -> Prop) (cb : client -> Path -> output) s s' :
  removalStable I -> I s ->
  forRange (fun c state s =>
      if decide (state = clientStateWaitingDescribe)
      then s ← removeClient c s; Ok (emit (cb c s) s)
      else Ok s) s = Ok s' ->
  I s'.
Proof.
  intros [Hrem Hemit Hseq _] Hs Hrun.
  eapply (forRange_inv I); [| |exact Hrun]; [|by auto].
  intros c state t t' Ht Hc Hb. simpl in Hb.
  case_decide; inv_res; eauto.
Qed.

Lemma replyLoop_noneWaiting (cb : client -> Path -> output) s s' :
  forRange (fun c state s =>
      if decide (state = clientStateWaitingDescribe)
      then s ← removeClient c s; Ok (emit (cb c s) s)
      else Ok s) s = Ok s' ->
  noneWaiting s'.
Proof.
  intros Hrun. eapply forRange_noneWaiting; [|exact Hrun].
  intros c state t t' Hc Hb. simpl in Hb. case_decide; inv_res.
  - split.
    + eapply evolves_trans; [|apply evolves_emit].
      eapply removeClient_evolves; eauto.
    + simpl. erewrite removeClient_marks; eauto.
  - split; [apply evolves_refl|congruence].
Qed.

Lemma replyLoop_evolves (cb : client -> Path -> output) s s' :
  forRange (fun c state s =>
      if decide (state = clientStateWaitingDescribe)
      then s ← removeClient c s; Ok (emit (cb c s) s)
      else Ok s) s = Ok s' ->
  evolves s s'.
Proof.
  intros Hrun. eapply forRange_evolves; [|exact Hrun].
  intros c state t t' Hc Hb. simpl in Hb. case_decide; inv_res.
  - eapply evolves_trans; [|apply evolves_emit].
    eapply removeClient_evolves; eauto.
  - apply evolves_refl.
Qed.

Lemma onSourceSetNotReady_stable (I : Path -> Prop) s s' :
  removalStable I -> I (set_sourceState sourceStateNotReady s) ->
  onSourceSetNotReady s = Ok s' -> I s'.
Proof.
  intros [Hrem Hemit Hseq _] Hs Hrun.
  unfold onSourceSetNotReady, onSourceSetNotReadyWith in Hrun.
  eapply (forRange_inv I); [| |exact Hrun]; [|by auto].
  intros c state t t' Ht Hc Hb. simpl in Hb.
  case_decide; [discriminate|]. case_decide; inv_res; eauto.
Qed.

Lemma onSourceSetNotReady_noneWaiting s s' :
  onSourceSetNotReady s = Ok s' -> noneWaiting s'.
Proof.
  apply onSourceSetNotReadyWith_noneWaiting.
  intros. eapply removeClient_evolves; eauto.
Qed.

Lemma onSourceSetNotReady_evolves s s' :
  onSourceSetNotReady s = Ok s' -> evolves s s'.
Proof.
  apply onSourceSetNotReadyWith_evolves.
  intros. eapply removeClient_evolves; eauto.
Qed.

(** *** The invariants are stable *)

Lemma hasClients_ext s s' : clients s' = clients s -> hasClients s' = hasClients s.
Proof. unfold hasClients. by intros ->. Qed.

Lemma inv_sourceClose_ext s s' :
  sourceCloseTimerStarted s' = sourceCloseTimerStarted s ->
  source s' = source s -> clients s' = clients s ->
  sourceState s' = sourceState s ->
  inv_sourceClose s -> inv_sourceClose s'.
Proof.
  unfold inv_sourceClose. intros -> -> Hc ->. by rewrite (hasClients_ext _ _ Hc).
Qed.

Lemma scheduleSourceClose_inv s :
  inv_sourceClose s -> inv_sourceClose (scheduleSourceClose s).
Proof.
  unfold scheduleSourceClose. intros Hinv.
  destruct (negb hasExternalSource || negb (SourceOnDemand conf)
            || bool_decide (source s = sourceNil)) eqn:E1; [done|].
  destruct (sourceCloseTimerStarted s
            || bool_decide (sourceState s = sourceStateWaitingDescribe)
            || hasClients s) eqn:E2; [done|].
  apply orb_false_iff in E1 as [E1 E1c]. apply orb_false_iff in E1 as [E1a E1b].
  apply orb_false_iff in E2 as [E2 E2c]. apply orb_false_iff in E2 as [E2a E2b].
  apply negb_false_iff in E1a, E1b.
  apply bool_decide_eq_false in E1c, E2b.
  intros _. repeat split; done.
Qed.

Lemma scheduleAll_inv_sourceClose s :
  inv_sourceClose s -> inv_sourceClose (scheduleAll s).
Proof.
  intros Hinv. apply scheduleSourceClose_inv in Hinv. revert Hinv.
  apply inv_sourceClose_ext; unfold scheduleAll; sched_frame.
Qed.

Lemma stable_inv_waiting : removalStable inv_waiting.
Proof.
  constructor.
  - intros c s s' Hinv Hrun. eapply removeClientFuel_inv_waiting; eauto.
  - done.
  - done.
  - intros s Hinv c Hc. autorewrite with sched in *. eauto.
Qed.

Lemma stable_inv_publisher : removalStable inv_publisher.
Proof.
  constructor.
  - intros c s s' Hinv Hrun. eapply removeClientFuel_inv_publisher; eauto.
  - done.
  - done.
  - intros s Hinv c st Hc Hp. autorewrite with sched in *. eauto.
Qed.

Lemma removeClientFuel_inv_source fuel c s s' :
  inv_source s -> removeClientFuel fuel c s = Ok s' -> inv_source s'.
Proof.
  intros Hinv Hrun x Hx.
  destruct (removeClientFuel_source _ _ _ _ _ Hrun Hx) as (Hs & _ & Hc).
  rewrite Hc. auto.
Qed.

Lemma stable_inv_source : removalStable inv_source.
Proof.
  constructor.
  - intros c s s' Hinv Hrun. eapply removeClientFuel_inv_source; eauto.
  - done.
  - done.
  - intros s Hinv c Hc. autorewrite with sched in *. eauto.
Qed.

Lemma evolves_inv_external s s' : evolves s s' -> inv_external s -> inv_external s'.
Proof.
  intros He Hinv Hext. destruct (ev_source _ _ He) as [->| ->]; auto.
Qed.

Lemma removeClientFuel_inv_timer fuel c s s' :
  inv_timer s -> removeClientFuel fuel c s = Ok s' -> inv_timer s'.
Proof.
  apply removeClientFuel_preserves; clear; unfold inv_timer.
  - intros c s [He Hc]. split; [done|]. intros Hst. simpl in *.
    destruct (Hc Hst) as (? & ? & ? & Hcl & ?). repeat split; try done.
    apply hasClients_false. rewrite hasClients_false in Hcl.
    intros x st Hx. simpl in Hx. destruct (decide (x = c)) as [->|Hne].
    + rewrite lookup_insert_eq in Hx. congruence.
    + rewrite lookup_insert_ne in Hx by done. eauto.
  - intros c n s [He Hc]. split; [done|]. revert Hc. by apply inv_sourceClose_ext.
  - intros n s [He Hc]. split; [done|]. intros Hst. simpl in *.
    destruct (Hc Hst) as (? & ? & ? & Hcl & ?). repeat split; try done.
  - intros n s [He Hc]. split; [done|]. revert Hc. by apply inv_sourceClose_ext.
  - intros c s [He Hc]. split; [done|]. revert Hc. by apply inv_sourceClose_ext.
  - intros c s [He Hc] Hsrc _. split.
    + intros _. by left.
    + intros Hst. simpl in *. exfalso.
      destruct (Hc Hst) as (Hext & _). destruct (He Hext) as [E|E];
        rewrite Hsrc in E; discriminate.
  - intros s [He Hc]. split.
    + intros Hext. autorewrite with sched. auto.
    + by apply scheduleAll_inv_sourceClose.
Qed.

Lemma stable_inv_timer : removalStable inv_timer.
Proof.
  constructor.
  - intros c s s' Hinv Hrun. eapply removeClientFuel_inv_timer; eauto.
  - intros o s [He Hc]. split; [done|]. revert Hc. by apply inv_sourceClose_ext.
  - intros n s [He Hc]. split; [done|]. revert Hc. by apply inv_sourceClose_ext.
  - intros s [He Hc]. split.
    + intros Hext. autorewrite with sched. auto.
    + by apply scheduleAll_inv_sourceClose.
Qed.

Lemma evolves_inv_sdp s s' : evolves s s' -> inv_sdp s -> inv_sdp s'.
Proof.
  intros He Hinv Hpre. rewrite (ev_sourceSdp _ _ He). apply Hinv.
  destruct Hpre as [Hr|(c & st & Hc & Hp)].
  - left. destruct (ev_sourceState _ _ He) as [E|E]; congruence.
  - right. exists c, st. split; [|done].
    destruct (evolves_lookup_Some _ _ _ _ He Hc) as [?|[-> _]]; [done|].
    destruct Hp; discriminate.
Qed.

Lemma inv_sdp_mark c s :
  inv_sdp s -> inv_sdp (set_clients (<[c := clientStatePreRemove]> (clients s)) s).
Proof.
  intros Hinv Hpre. simpl in *. apply Hinv.
  destruct Hpre as [Hr|(x & st & Hx & Hp)]; [by left|right].
  exists x, st. split; [|done]. destruct (decide (x = c)) as [->|Hne].
  - rewrite lookup_insert_eq in Hx. destruct Hp; congruence.
  - by rewrite lookup_insert_ne in Hx.
Qed.

Lemma stable_inv_sdp : removalStable inv_sdp.
Proof.
  constructor.
  - intros c s s' Hinv Hrun. apply removeClientFuel_evolves in Hrun.
    eapply evolves_inv_sdp; [exact Hrun|]. by apply inv_sdp_mark.
  - done.
  - done.
  - intros s. apply evolves_inv_sdp, evolves_scheduleAll.
Qed.

Ltac inv_split :=
  constructor;
  [ unfold inv_waiting | unfold inv_publisher | unfold inv_source
  | unfold inv_external | unfold inv_sourceClose | unfold inv_sdp ];
  simpl.

(** The invariant only reads five fields. *)
Lemma Inv_ext s s' :
  clients s' = clients s -> source s' = source s ->
  sourceState s' = sourceState s -> sourceSdp s' = sourceSdp s ->
  sourceCloseTimerStarted s' = sourceCloseTimerStarted s ->
  Inv s -> Inv s'.
Proof.
  intros Hc Hs Hst Hsdp Ht [H1 H2 H3 H4 H5 H6]. constructor.
  - intros c. rewrite Hc, Hst. apply H1.
  - intros c st. rewrite Hc, Hs. apply H2.
  - intros c. rewrite Hc, Hs. apply H3.
  - intros Hext. rewrite Hs. auto.
  - revert H5. by apply inv_sourceClose_ext.
  - unfold inv_sdp. rewrite Hc, Hst, Hsdp. apply H6.
Qed.

Lemma stable_Inv : removalStable Inv.
Proof.
  constructor.
  - intros c s s' [H1 H2 H3 H4 H5 H6] Hrun. constructor.
    + eapply (rs_remove _ stable_inv_waiting); eauto.
    + eapply (rs_remove _ stable_inv_publisher); eauto.
    + eapply (rs_remove _ stable_inv_source); eauto.
    + eapply (rs_remove _ stable_inv_timer c s s'); [by split|done].
    + eapply (rs_remove _ stable_inv_timer c s s'); [by split|done].
    + eapply (rs_remove _ stable_inv_sdp); eauto.
  - intros o s. by apply Inv_ext.
  - intros n s. by apply Inv_ext.
  - intros s [H1 H2 H3 H4 H5 H6]. constructor.
    + by apply (rs_schedule _ stable_inv_waiting).
    + by apply (rs_schedule _ stable_inv_publisher).
    + by apply (rs_schedule _ stable_inv_source).
    + apply (rs_schedule _ stable_inv_timer s). by split.
    + apply (rs_schedule _ stable_inv_timer s). by split.
    + by apply (rs_schedule _ stable_inv_sdp).
Qed.

Lemma Inv_InvCore s : Inv s -> InvCore s.
Proof. intros [H1 H2 H3 H4 H5 H6]. constructor; [done|done|by split]. Qed.

Lemma InvCore_ext s s' :
  clients s' = clients s -> source s' = source s ->
  sourceCloseTimerStarted s' = sourceCloseTimerStarted s ->
  (sourceCloseTimerStarted s = true ->
   sourceState s <> sourceStateWaitingDescribe ->
   sourceState s' <> sourceStateWaitingDescribe) ->
  InvCore s -> InvCore s'.
Proof.
  intros Hc Hs Ht Hst [H2 H3 [H4 H5]]. constructor; [| |split].
  - intros c st. rewrite Hc, Hs. apply H2.
  - intros c. rewrite Hc, Hs. apply H3.
  - intros Hext. rewrite Hs. auto.
  - intros Hstart. rewrite Ht in Hstart. destruct (H5 Hstart) as (?&?&?&?&?).
    rewrite Hs, (hasClients_ext _ _ Hc). repeat split; auto.
Qed.

Lemma stable_InvCore : removalStable InvCore.
Proof.
  constructor.
  - intros c s s' [H2 H3 H4] Hrun. constructor.
    + eapply (rs_remove _ stable_inv_publisher); eauto.
    + eapply (rs_remove _ stable_inv_source); eauto.
    + eapply (rs_remove _ stable_inv_timer); eauto.
  - intros o s. by apply InvCore_ext.
  - intros n s. by apply InvCore_ext.
  - intros s [H2 H3 H4]. constructor.
    + by apply (rs_schedule _ stable_inv_publisher).
    + by apply (rs_schedule _ stable_inv_source).
    + by apply (rs_schedule _ stable_inv_timer).
Qed.

Lemma Inv_intro s :
  inv_waiting s -> InvCore s -> inv_sdp s -> Inv s.
Proof. intros H1 [H2 H3 [H4 H5]] H6. by constructor. Qed.

(** *** The handlers keep the invariant *)

Lemma onSourceSetReady_Inv s s' :
  InvCore s -> sourceSdp s <> None -> onSourceSetReady s = Ok s' -> Inv s'.
Proof.
  intros Hcore Hsdp Hrun. unfold onSourceSetReady in Hrun. inv_res.
  match goal with H : forRange _ ?s0 = Ok _ |- _ =>
    assert (Hcore0 : InvCore s0); [|
    pose proof (replyLoop_stable _ _ _ _ stable_InvCore Hcore0 H) as Hcoret;
    pose proof (replyLoop_noneWaiting _ _ _ H) as Hnone;
    pose proof (replyLoop_evolves _ _ _ H) as Hev ]
  end.
  { revert Hcore.
    apply InvCore_ext; try (case_decide; done); intros _ _; simpl; discriminate. }
  apply Inv_intro.
  - apply (rs_schedule _ stable_inv_waiting). by apply noneWaiting_inv_waiting.
  - by apply (rs_schedule _ stable_InvCore).
  - intros _. autorewrite with sched. rewrite (ev_sourceSdp _ _ Hev).
    case_decide; done.
Qed.

Lemma onSourceSetNotReady_Inv s s' :
  Inv s -> onSourceSetNotReady s = Ok s' -> Inv s'.
Proof.
  intros Hinv Hrun. apply Inv_intro.
  - apply noneWaiting_inv_waiting. by eapply onSourceSetNotReady_noneWaiting.
  - eapply (onSourceSetNotReady_stable InvCore); [apply stable_InvCore| |exact Hrun].
    apply Inv_InvCore in Hinv. revert Hinv.
    apply InvCore_ext; try done; intros _ _; simpl; discriminate.
  - eapply evolves_inv_sdp; [by eapply onSourceSetNotReady_evolves|].
    by destruct Hinv.
Qed.

Lemma addClient_lookup c state s s' :
  addClient c state s = Ok s' ->
  clients s !! c = None /\ clients s' = <[c := state]> (clients s) /\
  source s' = source s /\ sourceState s' = sourceState s /\
  sourceSdp s' = sourceSdp s /\
  sourceCloseTimerStarted s' = sourceCloseTimerStarted s /\
  trace s' = trace s.
Proof.
  unfold addClient. destruct (clients s !! c) eqn:E; [discriminate|].
  intros Hrun. inv_res. by repeat split.
Qed.

Lemma addClient_Inv c state s s' :
  Inv s -> sourceCloseTimerStarted s = false ->
  state = clientStatePreRemove \/ state = clientStatePrePlay \/
  (state = clientStateWaitingDescribe /\
   sourceState s = sourceStateWaitingDescribe) ->
  addClient c state s = Ok s' -> Inv s'.
Proof.
  intros [H1 H2 H3 H4 H5 H6] Hoff Hstate Hrun.
  destruct (addClient_lookup _ _ _ _ Hrun) as (Hc & Hcl & Hs & Hst & Hsdp & Ht & _).
  assert (Hold : forall x st, clients s' !! x = Some st ->
            (x = c /\ st = state) \/ (x <> c /\ clients s !! x = Some st)).
  { intros x st. rewrite Hcl. destruct (decide (x = c)) as [->|Hne].
    - rewrite lookup_insert_eq. intros [= <-]. by left.
    - rewrite lookup_insert_ne by done. by right. }
  assert (Hnp : ~ isPublisher state).
  { intros [Hp|Hp]; destruct Hstate as [?|[?|[? _]]]; congruence. }
  constructor.
  - intros x Hx. rewrite Hst. destruct (Hold _ _ Hx) as [[-> Hw]|[_ Hx']]; [|eauto].
    destruct Hstate as [?|[?|[_ ?]]]; congruence.
  - intros x st Hx Hp. rewrite Hs.
    destruct (Hold _ _ Hx) as [[-> ->]|[_ Hx']]; [done|eauto].
  - intros x Hx. rewrite Hs in Hx. destruct (H3 x Hx) as (st & Hst' & Hp).
    exists st. split; [|done]. rewrite Hcl, lookup_insert_ne; [done|congruence].
  - intros Hext. rewrite Hs. auto.
  - intros Hstart. congruence.
  - intros Hpre. rewrite Hsdp. apply H6. rewrite Hst in Hpre.
    destruct Hpre as [?|(x & st & Hx & Hp)]; [by left|right].
    destruct (Hold _ _ Hx) as [[-> ->]|[_ Hx']]; [done|eauto].
Qed.

Lemma preventSourceClose_Inv s :
  Inv s ->
  Inv (preventSourceClose s) /\
  sourceCloseTimerStarted (preventSourceClose s) = false.
Proof.
  intros Hinv. unfold preventSourceClose.
  destruct (sourceCloseTimerStarted s) eqn:E; [|done].
  split; [|done]. destruct Hinv as [H1 H2 H3 H4 H5 H6]. by constructor.
Qed.

Lemma preventRunOnDemandClose_Inv s :
  Inv s /\ sourceCloseTimerStarted s = false ->
  Inv (preventRunOnDemandClose s) /\
  sourceCloseTimerStarted (preventRunOnDemandClose s) = false.
Proof.
  intros [Hinv Hoff]. unfold preventRunOnDemandClose.
  destruct (runOnDemandCloseTimerStarted s); [|done].
  split; [|done]. revert Hinv. by apply Inv_ext.
Qed.

Lemma Inv_waitingDescribe s timer :
  Inv s -> sourceCloseTimerStarted s = false ->
  Inv (set_sourceState sourceStateWaitingDescribe (set_describeTimer timer s)).
Proof.
  intros [H1 H2 H3 H4 H5 H6] Hoff. constructor; try done.
  - intros ?. simpl in *. congruence.
  - intros [?|?]; [done|]. apply H6. by right.
Qed.

Lemma startExternalSource_Inv s :
  Inv s -> source s = sourceNil -> Inv (startExternalSource s).
Proof.
  intros [H1 H2 H3 H4 H5 H6] Hnil.
  assert (Hnp : forall x st, clients s !! x = Some st -> ~ isPublisher st).
  { intros x st Hx Hp. specialize (H2 x st Hx Hp). congruence. }
  assert (Hoff : sourceCloseTimerStarted s = false).
  { destruct (sourceCloseTimerStarted s) eqn:E; [|done].
    by destruct (H5 E) as (_ & _ & ? & _). }
  unfold startExternalSource.
  repeat case_match; try (by constructor);
    (constructor; simpl;
     [ done
     | intros x st Hx Hp; by destruct (Hnp x st Hx)
     | discriminate
     | intros _; by right
     | intros Hs; simpl in Hs; congruence
     | exact H6 ]).
Qed.

Lemma startExternalSource_frame s :
  clients (startExternalSource s) = clients s /\
  sourceState (startExternalSource s) = sourceState s /\
  sourceCloseTimerStarted (startExternalSource s) = sourceCloseTimerStarted s /\
  onDemandCmd (startExternalSource s) = onDemandCmd s /\
  sourceSdp (startExternalSource s) = sourceSdp s /\
  trace (startExternalSource s) = trace s.
Proof. unfold startExternalSource. by repeat case_match. Qed.

Lemma startOnDemandSource_Inv s :
  Inv s /\ sourceCloseTimerStarted s = false ->
  Inv (startOnDemandSource s) /\
  sourceCloseTimerStarted (startOnDemandSource s) = false.
Proof.
  intros [Hinv Hoff]. unfold startOnDemandSource.
  destruct (hasExternalSource && bool_decide (source s = sourceNil)) eqn:E;
    [|done].
  apply andb_true_iff in E as [Hext Hnil]. apply bool_decide_eq_true in Hnil.
  pose proof (startExternalSource_Inv s Hinv Hnil) as Hstart.
  destruct (startExternalSource_frame s) as (_ & _ & Hoffs & _).
  rewrite Hoff in Hoffs.
  case_decide; [|done]. split; [|done]. by apply Inv_waitingDescribe.
Qed.

Lemma startOnDemandCmd_Inv s :
  Inv s /\ sourceCloseTimerStarted s = false ->
  Inv (startOnDemandCmd s) /\
  sourceCloseTimerStarted (startOnDemandCmd s) = false.
Proof.
  intros [Hinv Hoff]. unfold startOnDemandCmd.
  match goal with |- Inv (if ?b then _ else _) /\ _ => destruct b; [|done] end.
  case_decide.
  - split; [|done]. apply Inv_waitingDescribe; [|done].
    revert Hinv. by apply Inv_ext.
  - split; [|done]. revert Hinv. by apply Inv_ext.
Qed.

Lemma onClientDescribe_Inv c s s' :
  Inv s -> onClientDescribe c s = Ok s' -> Inv s'.
Proof.
  intros Hinv Hrun. unfold onClientDescribe in Hrun.
  pose proof (startOnDemandCmd_Inv _ (startOnDemandSource_Inv _
    (preventRunOnDemandClose_Inv _ (preventSourceClose_Inv _ Hinv)))) as H4.
  cbv zeta in Hrun.
  set (s4 := startOnDemandCmd _) in *. clearbody s4. destruct H4 as [Hinv4 Hoff4].
  assert (Himm : forall cb,
            (s ← addClient c clientStatePreRemove s4;
             s ← removeClient c s; Ok (emit (cb s) s)) = Ok s' -> Inv s').
  { intros cb Hb. inv_res. apply (rs_emit _ stable_Inv).
    eapply (rs_remove _ stable_Inv); [|eassumption].
    by eapply (addClient_Inv c clientStatePreRemove s4); [| |left|]. }
  case_decide.
  - by apply (Himm (fun s => OnPathDescribeData c None (SourceRedirect conf) None)).
  - destruct (sourceState s4) eqn:Est.
    + by apply (Himm (fun s => OnPathDescribeData c None "" (Some errNoOnePublishing))).
    + by eapply (addClient_Inv c clientStateWaitingDescribe s4); [| |right; right|].
    + by apply (Himm (fun s => OnPathDescribeData c (sourceSdp s) "" None)).
Qed.

Lemma onClientSetupPlay_Inv c trackId s err s' :
  Inv s -> onClientSetupPlay c trackId s = Ok (err, s') -> Inv s'.
Proof.
  intros Hinv Hrun. unfold onClientSetupPlay in Hrun.
  case_decide; [by inv_res|]. case_decide; [by inv_res|].
  destruct (clients s !! c) eqn:Hc; [by inv_res|].
  cbv zeta in Hrun. inv_res.
  destruct (preventRunOnDemandClose_Inv _ (preventSourceClose_Inv _ Hinv))
    as [Hinv2 Hoff2].
  match goal with H : addClient _ _ _ = Ok _ |- _ =>
    by eapply (addClient_Inv _ _ _ _ Hinv2 Hoff2); [right; left|exact H] end.
Qed.

Lemma onClientPlay_Inv c s : Inv s -> Inv (onClientPlay c s).
Proof.
  intros Hinv. unfold onClientPlay.
  destruct (clients s !! c) as [state|] eqn:Hc; [|done].
  case_decide as Hst; [done|]. try apply dec_stable in Hst. subst state.
  destruct Hinv as [H1 H2 H3 H4 H5 H6].
  assert (Hold : forall x st,
            <[c := clientStatePlay]> (clients s) !! x = Some st ->
            (x = c /\ st = clientStatePlay) \/ (x <> c /\ clients s !! x = Some st)).
  { intros x st. destruct (decide (x = c)) as [->|Hne].
    - rewrite lookup_insert_eq. intros [= <-]. by left.
    - rewrite lookup_insert_ne by done. by right. }
  assert (Hoff : sourceCloseTimerStarted s = false).
  { destruct (sourceCloseTimerStarted s) eqn:E; [|done].
    destruct (H5 E) as (_ & _ & _ & Hcl & _).
    rewrite hasClients_false in Hcl. by specialize (Hcl _ _ Hc). }
  inv_split.
  - intros x Hx. destruct (Hold _ _ Hx) as [[_ ?]|[_ ?]]; [done|eauto].
  - intros x st Hx Hp. destruct (Hold _ _ Hx) as [[_ ->]|[_ ?]]; [|eauto].
    destruct Hp; discriminate.
  - intros x Hx. destruct (H3 x Hx) as (st & Hst & Hp). exists st. split; [|done].
    rewrite lookup_insert_ne; [done|]. intros <-. rewrite Hc in Hst.
    injection Hst as <-. destruct Hp; discriminate.
  - exact H4.
  - intros Hs. simpl in Hs. congruence.
  - intros Hpre. simpl in *. apply H6.
    destruct Hpre as [?|(x & st & Hx & Hp)]; [by left|right].
    destruct (Hold _ _ Hx) as [[_ ->]|[_ ?]]; [|eauto].
    destruct Hp; discriminate.
Qed.

Lemma onClientAnnounce_Inv c tracks s err s' :
  Inv s -> onClientAnnounce c tracks s = Ok (err, s') -> Inv s'.
Proof.
  intros Hinv Hrun. unfold onClientAnnounce in Hrun.
  destruct (clients s !! c) eqn:Hc; [by inv_res|].
  destruct (bool_decide (source s <> sourceNil) || hasExternalSource) eqn:E;
    [by inv_res|].
  apply orb_false_iff in E as [Hnil Hext].
  apply bool_decide_eq_false in Hnil. try apply dec_stable in Hnil.
  cbv zeta in Hrun. inv_res.
  match goal with H : addClient _ _ _ = Ok _ |- _ =>
    destruct (addClient_lookup _ _ _ _ H) as (_ & Hcl & Hs & Hst & Hsdp & Ht & _)
  end.
  destruct Hinv as [H1 H2 H3 H4 H5 H6].
  assert (Hold : forall x st, clients t !! x = Some st ->
            (x = c /\ st = clientStatePreRecord) \/
            (x <> c /\ clients s !! x = Some st)).
  { intros x st. rewrite Hcl. destruct (decide (x = c)) as [->|Hne].
    - rewrite lookup_insert_eq. intros [= <-]. by left.
    - rewrite lookup_insert_ne by done. by right. }
  inv_split.
  - intros x Hx. rewrite Hst. destruct (Hold _ _ Hx) as [[_ ?]|[_ ?]]; [done|eauto].
  - intros x st Hx Hp. destruct (Hold _ _ Hx) as [[-> _]|[_ Hx']]; [done|].
    specialize (H2 _ _ Hx' Hp). congruence.
  - intros x [= <-]. exists clientStatePreRecord. split; [|by left].
    rewrite Hcl. apply lookup_insert_eq.
  - intros ?. congruence.
  - intros Hs'. simpl in Hs'. rewrite Ht in Hs'.
    destruct (H5 Hs') as (? & _). congruence.
  - done.
Qed.

Lemma onClientRecord_Inv c s s' :
  Inv s -> onClientRecord c s = Ok s' -> Inv s'.
Proof.
  intros Hinv Hrun. unfold onClientRecord in Hrun.
  destruct (clients s !! c) as [state|] eqn:Hc; [|by inv_res].
  case_decide as Hst; [by inv_res|]. try apply dec_stable in Hst. subst state.
  cbv zeta in Hrun. revert Hrun. apply onSourceSetReady_Inv.
  - destruct Hinv as [H1 H2 H3 H4 H5 H6].
    assert (Hold : forall x st,
              <[c := clientStateRecord]> (clients s) !! x = Some st ->
              (x = c /\ st = clientStateRecord) \/
              (x <> c /\ clients s !! x = Some st)).
    { intros x st. destruct (decide (x = c)) as [->|Hne].
      - rewrite lookup_insert_eq. intros [= <-]. by left.
      - rewrite lookup_insert_ne by done. by right. }
    assert (Hsrc : source s = sourceClient c) by (eapply H2; [exact Hc|by left]).
    constructor; [| |split].
    + intros x st Hx Hp. simpl in *.
      destruct (Hold _ _ Hx) as [[-> _]|[_ ?]]; [done|eauto].
    + intros x Hx. simpl in *. rewrite Hsrc in Hx. injection Hx as <-.
      exists clientStateRecord. split; [apply lookup_insert_eq|by right].
    + exact H4.
    + intros Hs. simpl in Hs. exfalso.
      destruct (H5 Hs) as (_ & _ & _ & Hcl & _).
      rewrite hasClients_false in Hcl. by specialize (Hcl _ _ Hc).
  - simpl. destruct Hinv as [_ _ _ _ _ H6]. apply H6. right.
    exists c, clientStatePreRecord. split; [done|by left].
Qed.

Lemma deleteClient_Inv c s :
  Inv s -> clients s !! c = Some clientStatePreRemove ->
  Inv (set_clients (delete c (clients s)) s).
Proof.
  intros [H1 H2 H3 H4 H5 H6] Hc.
  assert (Hold : forall x st, delete c (clients s) !! x = Some st ->
            x <> c /\ clients s !! x = Some st).
  { intros x st. destruct (decide (x = c)) as [->|Hne].
    - rewrite lookup_delete_eq. discriminate.
    - rewrite lookup_delete_ne by done. done. }
  inv_split.
  - intros x Hx. destruct (Hold _ _ Hx). eauto.
  - intros x st Hx Hp. destruct (Hold _ _ Hx). eauto.
  - intros x Hx. destruct (H3 x Hx) as (st & Hst & Hp). exists st. split; [|done].
    rewrite lookup_delete_ne; [done|]. intros <-. rewrite Hc in Hst.
    injection Hst as <-. destruct Hp; discriminate.
  - exact H4.
  - intros Hs. simpl in Hs. destruct (H5 Hs) as (? & ? & ? & Hcl & ?).
    repeat split; try done. apply hasClients_false.
    rewrite hasClients_false in Hcl. intros x st Hx. simpl in Hx.
    destruct (Hold _ _ Hx). eauto.
  - intros Hpre. simpl in *. apply H6.
    destruct Hpre as [?|(x & st & Hx & Hp)]; [by left|right].
    destruct (Hold _ _ Hx). eauto.
Qed.

(** [teardown] leaves the fields of the invariant alone. *)
Lemma teardown_frame s s' :
  teardown s = Ok s' ->
  clients s' = clients s /\ source s' = source s /\
  sourceState s' = sourceState s /\ sourceSdp s' = sourceSdp s /\
  sourceCloseTimerStarted s' = sourceCloseTimerStarted s /\
  sourceTrackCount s' = sourceTrackCount s.
Proof.
  unfold teardown. intros Hrun. cbv zeta in Hrun. inv_res.
  match goal with H : forRange _ ?s0 = Ok _ |- _ =>
    remember s0 as u eqn:Hu; rename H into Hloop
  end.
  assert (H0 : clients u = clients s /\ source u = source s /\
               sourceState u = sourceState s /\ sourceSdp u = sourceSdp s /\
               sourceCloseTimerStarted u = sourceCloseTimerStarted s /\
               sourceTrackCount u = sourceTrackCount s).
  { subst u. by repeat case_match. }
  clear Hu. simpl.
  eapply (forRange_inv (fun u =>
            clients u = clients s /\ source u = source s /\
            sourceState u = sourceState s /\ sourceSdp u = sourceSdp s /\
            sourceCloseTimerStarted u = sourceCloseTimerStarted s /\
            sourceTrackCount u = sourceTrackCount s)); [| |exact Hloop].
  - intros c state v v' Hv Hc Hb. simpl in Hb.
    case_decide; inv_res; [|done]. by destruct state.
  - done.
Qed.

Lemma teardown_Inv s s' : Inv s -> teardown s = Ok s' -> Inv s'.
Proof.
  intros Hinv Hrun.
  destruct (teardown_frame _ _ Hrun) as (? & ? & ? & ? & ? & _).
  revert Hinv. by apply Inv_ext.
Qed.

Lemma handle_Inv ev s s' : Inv s -> handle ev s = Ok s' -> Inv s'.
Proof.
  intros Hinv Hrun. destruct ev; simpl in Hrun.
  - (* describe timer *)
    inv_res.
    match goal with H : forRange _ ?s0 = Ok _ |- _ =>
      assert (Hinv0 : Inv s0) by (revert Hinv; by apply Inv_ext);
      pose proof (replyLoop_stable _ _ _ _ stable_Inv Hinv0 H) as Hinvt;
      pose proof (replyLoop_noneWaiting _ _ _ H) as Hnone
    end.
    apply (rs_schedule _ stable_Inv).
    destruct Hinvt as [H1 H2 H3 H4 H5 H6]. constructor; try done.
    + by apply noneWaiting_inv_waiting.
    + intros Hs. simpl in Hs. destruct (H5 Hs) as (?&?&?&?&?). done.
    + intros [?|?]; [done|]. apply H6. by right.
  - (* source close timer *)
    destruct (isSourceExternal (source s)) eqn:Hext; [|discriminate]. inv_res.
    destruct Hinv as [H1 H2 H3 H4 H5 H6].
    assert (Hnp : forall x st, clients s !! x = Some st -> ~ isPublisher st).
    { intros x st Hx Hp. specialize (H2 x st Hx Hp). rewrite H2 in Hext. done. }
    constructor.
    + intros x Hx. autorewrite with sched in *. simpl in *. eauto.
    + intros x st Hx Hp. autorewrite with sched in *. simpl in *.
      by destruct (Hnp x st Hx).
    + intros x Hx. autorewrite with sched in Hx. discriminate.
    + intros _. autorewrite with sched. by left.
    + intros Hs. autorewrite with sched in Hs. discriminate.
    + unfold inv_sdp. autorewrite with sched. exact H6.
  - (* run on demand close timer *)
    destruct (onDemandCmd s); [|discriminate]. inv_res.
    revert Hinv. apply Inv_ext; by autorewrite with sched.
  - (* close timer *)
    eapply teardown_Inv; [|exact Hrun]. revert Hinv. by apply Inv_ext.
  - (* source set ready *)
    revert Hrun. apply onSourceSetReady_Inv; [|done].
    apply Inv_InvCore in Hinv. revert Hinv. by apply InvCore_ext.
  - by eapply onSourceSetNotReady_Inv.
  - (* describe *)
    destruct (clients s !! c) eqn:Hc.
    + inv_res. revert Hinv. by apply Inv_ext.
    + eapply onClientDescribe_Inv; [|exact Hrun]. revert Hinv. by apply Inv_ext.
  - (* setup play *)
    inv_res. destruct t as [err t]. inv_res. apply (rs_emit _ stable_Inv).
    by eapply onClientSetupPlay_Inv.
  - inv_res. apply (rs_emit _ stable_Inv). by apply onClientPlay_Inv.
  - inv_res. destruct t as [err t]. inv_res. apply (rs_emit _ stable_Inv).
    by eapply onClientAnnounce_Inv.
  - inv_res. apply (rs_emit _ stable_Inv). by eapply onClientRecord_Inv.
  - (* remove *)
    destruct (clients s !! c) as [state|] eqn:Hc.
    + inv_res. apply (rs_emit _ stable_Inv).
      match goal with |- Inv (set_clientsWg _ ?u) =>
        cut (Inv u); [by apply Inv_ext|] end.
      apply deleteClient_Inv.
      * case_decide; inv_res; [|done]. by eapply (rs_remove _ stable_Inv).
      * case_decide as Hst; inv_res.
        -- by eapply removeClient_marks.
        -- try apply dec_stable in Hst. by subst.
    + inv_res. revert Hinv. by apply Inv_ext.
  - by eapply teardown_Inv.
Qed.

Lemma redirect_not_external :
  Source conf = "redirect" -> hasExternalSource = false.
Proof. unfold hasExternalSource. by intros ->. Qed.

Lemma start_Inv : Inv start.
Proof.
  assert (H0 : Inv New).
  { unfold New. inv_split; try done.
    - intros _. by left.
    - intros [?|(c & st & Hc & _)]; [done|]. by rewrite lookup_empty in Hc. }
  unfold start. cbv zeta.
  match goal with |- Inv (if _ then _ else ?s0) =>
    assert (Hs0 : Inv s0); [|remember s0 as u eqn:Hu; clear Hu]
  end.
  - case_decide as Hred.
    + destruct H0 as [H1 H2 H3 H4 H5 H6]. constructor; try done.
      intros Hext. rewrite redirect_not_external in Hext; done.
    + destruct (hasExternalSource && negb (SourceOnDemand conf)); [|done].
      by apply startExternalSource_Inv.
  - case_decide; [|done]. revert Hs0. by apply Inv_ext.
Qed.

Lemma step_Inv ev s s' : Inv s -> step s ev = Ok s' -> Inv s'.
Proof.
  unfold step. intros Hinv Hrun. destruct (ready s ev).
  - by eapply handle_Inv.
  - by inv_res.
Qed.

Lemma runFrom_Inv evs s s' : Inv s -> runFrom s evs = Ok s' -> Inv s'.
Proof.
  revert s. induction evs as [|ev evs IH]; intros s Hinv Hrun; simpl in Hrun.
  - by inv_res.
  - inv_res. eauto using step_Inv.
Qed.

Lemma reachable_Inv s : reachable s -> Inv s.
Proof. intros [evs Hrun]. eapply runFrom_Inv; [apply start_Inv|exact Hrun]. Qed.

(** *** Removing a client that is neither the source nor recording *)

Lemma removeClient_waiting c s :
  clients s !! c = Some clientStateWaitingDescribe ->
  source s <> sourceClient c ->
  removeClient c s =
  Ok (scheduleAll (set_clients (<[c := clientStatePreRemove]> (clients s)) s)).
Proof.
  intros Hc Hsrc. unfold removeClient. simpl. rewrite Hc. simpl.
  case_decide; [done|]. done.
Qed.

Lemma removeClient_preRemove c s :
  clients s !! c = Some clientStatePreRemove ->
  source s <> sourceClient c ->
  removeClient c s =
  Ok (scheduleAll (set_clients (<[c := clientStatePreRemove]> (clients s)) s)).
Proof.
  intros Hc Hsrc. unfold removeClient. simpl. rewrite Hc. simpl.
  case_decide; [done|]. done.
Qed.

Lemma scheduleAll_waiting s :
  sourceState s = sourceStateWaitingDescribe ->
  sourceCloseTimerStarted (scheduleAll s) = sourceCloseTimerStarted s /\
  sourceCloseTimer (scheduleAll s) = sourceCloseTimer s /\
  runOnDemandCloseTimerStarted (scheduleAll s) = runOnDemandCloseTimerStarted s /\
  runOnDemandCloseTimer (scheduleAll s) = runOnDemandCloseTimer s.
Proof.
  intros Hw.
  assert (H1 : scheduleSourceClose s = s).
  { unfold scheduleSourceClose. rewrite (bool_decide_eq_true_2 _ Hw).
    rewrite orb_true_r. simpl. by case_match. }
  assert (H2 : scheduleRunOnDemandClose s = s).
  { unfold scheduleRunOnDemandClose. rewrite (bool_decide_eq_true_2 _ Hw).
    rewrite orb_true_r. simpl. by case_match. }
  unfold scheduleAll. rewrite H1, H2. unfold scheduleClose. by case_match.
Qed.

Lemma replyLoop_rangeClients (cb : client -> Path -> output) ks s :
  NoDup ks ->
  (forall c, c ∈ ks -> clients s !! c = Some clientStateWaitingDescribe ->
     source s <> sourceClient c) ->
  (forall c t, sourceSdp t = sourceSdp s -> cb c t = cb c s) ->
  exists s',
    rangeClients (fun c state s =>
        if decide (state = clientStateWaitingDescribe)
        then s ← removeClient c s; Ok (emit (cb c s) s)
        else Ok s) ks s = Ok s' /\
    replied (fun c => cb c s) ks s s'.
Proof.
  revert s. induction ks as [|c ks IH]; intros s Hnodup Hsrc Hcb.
  { exists s. split; [done|]. constructor; try done.
    simpl. by rewrite app_nil_r. }
  apply NoDup_cons in Hnodup as [Hnotin Hnodup]. simpl.
  destruct (decide (clients s !! c = Some clientStateWaitingDescribe)) as [Hw|Hnw].
  - (* the client waits: it is removed and answered *)
    rewrite Hw. simpl.
    rewrite (removeClient_waiting c s Hw) by (apply Hsrc; [left|done]). simpl.
    set (t := emit _ (scheduleAll _)).
    assert (Hclt : forall x, x <> c -> clients t !! x = clients s !! x).
    { intros x Hx. subst t. simpl. autorewrite with sched. simpl.
      by rewrite lookup_insert_ne. }
    destruct (IH t Hnodup) as (s' & Hrun & Hrep).
    { intros x Hin Hx. subst t. simpl. autorewrite with sched. simpl.
      assert (x <> c) by (intros ->; done). rewrite Hclt in Hx by done.
      apply Hsrc; [by right|done]. }
    { intros x u Hu. subst t. simpl in *. autorewrite with sched in *. simpl in *.
      rewrite (Hcb x u Hu). symmetry. apply Hcb. simpl.
      by autorewrite with sched. }
    exists s'. split; [exact Hrun|].
    destruct Hrep as [Rc Rt Rs Rst Rsdp Rtc Rdt Rr Rcr Rcp Rod].
    assert (Hwk : waitingKeys t ks = waitingKeys s ks).
    { unfold waitingKeys. apply filter_ext_in. intros x Hin.
      rewrite Hclt; [done|]. intros ->. apply Hnotin. by apply list_elem_of_In. }
    assert (Hcbt : forall x, cb x t = cb x s).
    { intros x. apply Hcb. subst t. simpl. by autorewrite with sched. }
    constructor.
    + intros x. rewrite Rc. destruct (decide (x = c)) as [->|Hne].
      * rewrite decide_False by (intros [? _]; done).
        rewrite decide_True by (split; [left|done]).
        subst t. simpl. autorewrite with sched. simpl. apply lookup_insert_eq.
      * rewrite Hclt by done.
        destruct (decide (x ∈ ks /\ clients s !! x = Some clientStateWaitingDescribe))
          as [[Hin Hx]|Hno].
        -- rewrite decide_True; [done|]. split; [by right|done].
        -- rewrite decide_False; [done|]. intros [Hin Hx]. apply Hno.
           split; [|done]. apply elem_of_cons in Hin as [?|?]; done.
    + assert (Htr : trace t = trace s ++ [cb c s]).
      { subst t. simpl. autorewrite with sched. simpl. do 2 f_equal.
        apply Hcb. by autorewrite with sched. }
      rewrite Rt, Hwk, Htr, <- app_assoc. unfold waitingKeys at 2. simpl.
      rewrite (bool_decide_eq_true_2 _ Hw). simpl. do 2 f_equal.
      apply map_ext. intros x. apply Hcbt.
    + rewrite Rs. subst t. simpl. by autorewrite with sched.
    + rewrite Rst. subst t. simpl. by autorewrite with sched.
    + rewrite Rsdp. subst t. simpl. by autorewrite with sched.
    + rewrite Rtc. subst t. simpl. by autorewrite with sched.
    + rewrite Rdt. subst t. simpl. by autorewrite with sched.
    + rewrite Rr. subst t. simpl. by autorewrite with sched.
    + rewrite Rcr. subst t. simpl. by autorewrite with sched.
    + rewrite Rcp. subst t. simpl. by autorewrite with sched.
    + intros Hws.
      assert (Hwt : sourceState t = sourceStateWaitingDescribe).
      { subst t. simpl. by autorewrite with sched. }
      destruct (Rod Hwt) as (-> & -> & -> & ->). subst t. simpl.
      destruct (scheduleAll_waiting
                  (set_clients (<[c := clientStatePreRemove]> (clients s)) s) Hws)
        as (E1 & E2 & E3 & E4).
      by rewrite E1, E2, E3, E4.
  - (* any other entry is skipped *)
    assert (Hskip : rangeClients (fun c state s =>
                if decide (state = clientStateWaitingDescribe)
                then s ← removeClient c s; Ok (emit (cb c s) s)
                else Ok s) (c :: ks) s =
              rangeClients (fun c state s =>
                if decide (state = clientStateWaitingDescribe)
                then s ← removeClient c s; Ok (emit (cb c s) s)
                else Ok s) ks s).
    { simpl. destruct (clients s !! c) as [st|] eqn:Hc; [|done].
      rewrite decide_False; [done|]. intros ->. done. }
    simpl in Hskip. rewrite Hskip.
    destruct (IH s Hnodup) as (s' & Hrun & Hrep).
    { intros x Hin Hx. apply Hsrc; [by right|done]. }
    { done. }
    exists s'. split; [exact Hrun|].
    destruct Hrep as [Rc Rt Rs Rst Rsdp Rtc Rdt Rr Rcr Rcp Rod].
    constructor; try done.
    + intros x. rewrite Rc.
      destruct (decide (x ∈ ks /\ clients s !! x = Some clientStateWaitingDescribe))
        as [[Hin Hx]|Hno].
      * rewrite decide_True; [done|]. split; [by right|done].
      * rewrite decide_False; [done|]. intros [Hin Hx]. apply Hno.
        split; [|done]. apply elem_of_cons in Hin as [->|?]; done.
    + rewrite Rt. unfold waitingKeys. simpl.
      by rewrite (bool_decide_eq_false_2 _ Hnw).
Qed.

Lemma replied_rangeSeq cb n s s' :
  replied cb (rangeKeys s) (set_rangeSeq n s) s' ->
  replied cb (rangeKeys s) s s'.
Proof. intros [? ? ? ? ? ? ? ? ? ? ?]. by constructor. Qed.

Lemma replyLoop_forRange (cb : client -> Path -> output) s :
  inv_source s ->
  (forall c t, sourceSdp t = sourceSdp s -> cb c t = cb c s) ->
  exists s',
    forRange (fun c state s =>
        if decide (state = clientStateWaitingDescribe)
        then s ← removeClient c s; Ok (emit (cb c s) s)
        else Ok s) s = Ok s' /\
    replied (fun c => cb c s) (rangeKeys s) s s'.
Proof.
  intros Hsrc Hcb. unfold forRange.
  destruct (replyLoop_rangeClients cb (rangeKeys s)
              (set_rangeSeq (S (rangeSeq s)) s)) as (s' & Hrun & Hrep).
  - apply rangeKeys_NoDup.
  - intros c _ Hc Hs. simpl in *. destruct (Hsrc c Hs) as (st & Hst & Hp).
    rewrite Hc in Hst. injection Hst as <-. destruct Hp; discriminate.
  - intros c t Ht. simpl in Ht. rewrite (Hcb c t Ht). symmetry. by apply Hcb.
  - exists s'. split; [exact Hrun|].
    destruct Hrep as [? Rt ? ? ? ? ? ? ? ? ?]. constructor; try done.
    rewrite Rt. simpl. f_equal. apply map_ext. intros c. by apply Hcb.
Qed.

(** Every waiting client of [s] is a key of the loop, once. *)
Lemma waitingKeys_elem s c :
  c ∈ waitingKeys s (rangeKeys s) <->
  clients s !! c = Some clientStateWaitingDescribe.
Proof.
  unfold waitingKeys. rewrite list_elem_of_In, filter_In, <- list_elem_of_In.
  rewrite rangeKeys_elem, bool_decide_eq_true. split; [by intros [_ ?]|].
  intros H. split; [|done]. rewrite H. eauto.
Qed.

Lemma waitingKeys_NoDup s : NoDup (waitingKeys s (rangeKeys s)).
Proof.
  unfold waitingKeys. apply NoDup_ListNoDup, List.NoDup_filter, NoDup_ListNoDup.
  apply rangeKeys_NoDup.
Qed.

Lemma describeDataFor_app c tr1 tr2 :
  describeDataFor c (tr1 ++ tr2) = describeDataFor c tr1 ++ describeDataFor c tr2.
Proof. apply List.filter_app. Qed.

Lemma describeDataFor_map c (cb : client -> output) ks :
  (forall x, isDescribeDataFor c (cb x) = bool_decide (x = c)) ->
  NoDup ks ->
  describeDataFor c (map cb ks) = if decide (c ∈ ks) then [cb c] else [].
Proof.
  intros Hcb. induction ks as [|k ks IH]; intros Hnodup.
  { rewrite decide_False; [done|]. apply not_elem_of_nil. }
  apply NoDup_cons in Hnodup as [Hnotin Hnodup].
  change (describeDataFor c (map cb (k :: ks)))
    with (if isDescribeDataFor c (cb k)
          then cb k :: describeDataFor c (map cb ks)
          else describeDataFor c (map cb ks)).
  rewrite Hcb, (IH Hnodup).
  destruct (decide (k = c)) as [->|Hne].
  - rewrite bool_decide_eq_true_2 by done.
    rewrite decide_False by done. rewrite decide_True; [done|left].
  - rewrite bool_decide_eq_false_2 by done.
    destruct (decide (c ∈ ks)) as [Hin|Hno].
    + rewrite decide_True; [done|by right].
    + rewrite decide_False; [done|]. intros Hin.
      apply elem_of_cons in Hin as [?|?]; congruence.
Qed.

(** ** Properties of the path *)

Lemma describeDataFor_waiting c (cb : client -> output) s :
  (forall x, isDescribeDataFor c (cb x) = bool_decide (x = c)) ->
  describeDataFor c (map cb (waitingKeys s (rangeKeys s))) =
  if decide (clients s !! c = Some clientStateWaitingDescribe)
  then [cb c] else [].
Proof.
  intros Hcb. rewrite (describeDataFor_map c cb _ Hcb (waitingKeys_NoDup s)).
  destruct (decide (clients s !! c = Some clientStateWaitingDescribe)) as [H|H].
  - rewrite decide_True; [done|]. by apply waitingKeys_elem.
  - rewrite decide_False; [done|]. by rewrite waitingKeys_elem.
Qed.

(** C7: when the describe timer fires, every client in [WaitingDescribe] is
    moved to [PreRemove] and gets exactly one describe callback, which
    carries the error "publisher of path '<name>' has timed out"; no other
    client is touched or called; afterwards the source state is [NotReady].
    The removals run first, on an unchanged source state (so the on-demand
    close timers stay as they are while the path is waiting), and the reset
    and the three schedule checks are applied to the state they leave. *)
Theorem C7_describe_timer_fires s :
  reachable s -> ready s EvDescribeTimer = true ->
  exists s' mid new,
    step s EvDescribeTimer = Ok s' /\
    sourceState s' = sourceStateNotReady /\
    (forall c, clients s !! c = Some clientStateWaitingDescribe ->
       clients s' !! c = Some clientStatePreRemove) /\
    (forall c, clients s !! c <> Some clientStateWaitingDescribe ->
       clients s' !! c = clients s !! c) /\
    trace s' = trace s ++ new /\
    (forall c,
       describeDataFor c new =
       if decide (clients s !! c = Some clientStateWaitingDescribe)
       then [OnPathDescribeData c None ""
               (Some ("publisher of path '" +:+ name +:+ "' has timed out"))]
       else []) /\
    s' = scheduleAll (set_sourceState sourceStateNotReady mid) /\
    clients mid = clients s' /\ trace mid = trace s' /\
    sourceState mid = sourceState s /\
    (sourceState s = sourceStateWaitingDescribe ->
     sourceCloseTimerStarted mid = sourceCloseTimerStarted s /\
     runOnDemandCloseTimerStarted mid = runOnDemandCloseTimerStarted s).
Proof.
  intros Hreach Hready. unfold step. rewrite Hready. simpl.
  apply reachable_Inv in Hreach. destruct Hreach as [_ _ Hsrc _ _ _].
  set (s0 := set_describeTimer timerEmpty s).
  destruct (replyLoop_forRange
              (fun c _ => OnPathDescribeData c None "" (Some errTimedOut)) s0)
    as (mid & Hloop & Hrep); [exact Hsrc|done|].
  destruct Hrep as [Rc Rt Rs Rst Rsdp Rtc Rdt Rr Rcr Rcp Rod].
  exists (scheduleAll (set_sourceState sourceStateNotReady mid)), mid,
    (map (fun c => OnPathDescribeData c None "" (Some errTimedOut))
       (waitingKeys s (rangeKeys s))).
  split; [by rewrite Hloop|].
  assert (Hks : forall c, clients s !! c = Some clientStateWaitingDescribe ->
            c ∈ rangeKeys s0).
  { intros c Hc. apply rangeKeys_elem. simpl. rewrite Hc. eauto. }
  repeat split; autorewrite with sched; simpl; try done.
  - intros c Hc. rewrite Rc. simpl. rewrite decide_True; [done|]. auto.
  - intros c Hc. rewrite Rc. simpl. rewrite decide_False; [done|]. by intros [_ ?].
  - intros c. by apply describeDataFor_waiting.
  - match goal with H : sourceState s = _ |- _ =>
      by destruct (Rod H) as (? & _ & ? & _) end.
  - match goal with H : sourceState s = _ |- _ =>
      by destruct (Rod H) as (? & _ & ? & _) end.
Qed.

Lemma sourceSetReadyEntry_inv_source s s0 :
  Inv s -> sourceSetReadyEntry s s0 -> inv_source s0.
Proof.
  intros [_ H2 H3 _ _ _] [(tracks & ->)|(c & Hc & ->)]; [exact H3|].
  intros x Hx. simpl in *. destruct (H3 x Hx) as (st & Hst & Hp).
  destruct (decide (x = c)) as [->|Hne].
  - exists clientStateRecord. split; [apply lookup_insert_eq|by right].
  - exists st. split; [by rewrite lookup_insert_ne|done].
Qed.

(** C8: when the SourceSetReady transition runs (on the signal of the
    source or on Record), the describe timer is stopped if the source state
    was [WaitingDescribe] and is left alone otherwise, the source state
    becomes [Ready], and every client that was in [WaitingDescribe] is moved
    to [PreRemove] and gets exactly one [OnPathDescribeData] with the stored
    SDP, an empty redirect URL and no error; no client waits afterwards and
    no other client is called. *)
Theorem C8_source_set_ready s s0 :
  reachable s -> sourceSetReadyEntry s s0 ->
  exists s' new,
    onSourceSetReady s0 = Ok s' /\
    sourceState s' = sourceStateReady /\
    (sourceState s0 = sourceStateWaitingDescribe ->
       describeTimer s' = timerEmpty) /\
    (sourceState s0 <> sourceStateWaitingDescribe ->
       describeTimer s' = describeTimer s0) /\
    (forall c, clients s0 !! c = Some clientStateWaitingDescribe ->
       clients s' !! c = Some clientStatePreRemove) /\
    (forall c, clients s0 !! c <> Some clientStateWaitingDescribe ->
       clients s' !! c = clients s0 !! c) /\
    (forall c, clients s' !! c <> Some clientStateWaitingDescribe) /\
    trace s' = trace s0 ++ new /\
    (forall c,
       describeDataFor c new =
       if decide (clients s0 !! c = Some clientStateWaitingDescribe)
       then [OnPathDescribeData c (sourceSdp s0) "" None]
       else []).
Proof.
  intros Hreach Hentry. apply reachable_Inv in Hreach.
  pose proof (sourceSetReadyEntry_inv_source s s0 Hreach Hentry) as Hsrc.
  clear Hreach Hentry s. unfold onSourceSetReady. cbv zeta.
  set (s1 := set_sourceState sourceStateReady _).
  assert (H1 : clients s1 = clients s0 /\ source s1 = source s0 /\
               sourceSdp s1 = sourceSdp s0 /\ trace s1 = trace s0 /\
               sourceState s1 = sourceStateReady /\
               describeTimer s1 =
               if decide (sourceState s0 = sourceStateWaitingDescribe)
               then timerEmpty else describeTimer s0).
  { subst s1. by case_decide. }
  clearbody s1. destruct H1 as (Hcl & Hs & Hsdp & Htr & Hst & Hdt).
  destruct (replyLoop_forRange
              (fun c t => OnPathDescribeData c (sourceSdp t) "" None) s1)
    as (mid & Hloop & Hrep).
  { intros x Hx. rewrite Hcl. apply Hsrc. by rewrite <- Hs. }
  { intros c t Ht. by rewrite Ht. }
  destruct Hrep as [Rc Rt Rs Rst Rsdp Rtc Rdt Rr Rcr Rcp Rod].
  assert (Hkeys : rangeKeys s1 = rangeKeys s0 \/ True) by (by right).
  exists (scheduleAll mid),
    (map (fun c => OnPathDescribeData c (sourceSdp s0) "" None)
       (waitingKeys s1 (rangeKeys s1))).
  split; [by rewrite Hloop|].
  assert (Hwait : forall c,
            clients mid !! c =
            if decide (clients s0 !! c = Some clientStateWaitingDescribe)
            then Some clientStatePreRemove else clients s0 !! c).
  { intros c. rewrite Rc, Hcl.
    destruct (decide (clients s0 !! c = Some clientStateWaitingDescribe)) as [H|H].
    - rewrite decide_True; [done|]. split; [|done].
      apply rangeKeys_elem. rewrite Hcl, H. eauto.
    - rewrite decide_False; [done|]. by intros [_ ?]. }
  repeat split; autorewrite with sched.
  - by rewrite Rst.
  - intros Hw. rewrite Rdt, Hdt. by rewrite decide_True.
  - intros Hw. rewrite Rdt, Hdt. by rewrite decide_False.
  - intros c Hc. rewrite Hwait. by rewrite decide_True.
  - intros c Hc. rewrite Hwait. by rewrite decide_False.
  - intros c. rewrite Hwait.
    destruct (decide (clients s0 !! c = Some clientStateWaitingDescribe));
      [discriminate|done].
  - rewrite Rt, Htr, Hsdp. done.
  - intros c. rewrite (describeDataFor_waiting c _ s1) by done. by rewrite Hcl.
Qed.

(** *** The source close timer and its flag *)

Lemma inv_pending_ext s s' :
  sourceCloseTimer s' = sourceCloseTimer s ->
  sourceCloseTimerStarted s' = sourceCloseTimerStarted s ->
  inv_pending s -> inv_pending s'.
Proof. unfold inv_pending. by intros -> ->. Qed.

Lemma scheduleAll_inv_pending s : inv_pending s -> inv_pending (scheduleAll s).
Proof.
  intros H.
  assert (H1 : inv_pending (scheduleSourceClose s)).
  { unfold scheduleSourceClose. by repeat case_match. }
  revert H1. apply inv_pending_ext; unfold scheduleAll; sched_frame.
Qed.

Lemma stable_inv_pending : removalStable inv_pending.
Proof.
  constructor.
  - intros c s s'. apply removeClientFuel_preserves; clear; try done.
    intros s. apply scheduleAll_inv_pending.
  - done.
  - done.
  - apply scheduleAll_inv_pending.
Qed.

Lemma addClient_timer c state s s' :
  addClient c state s = Ok s' ->
  sourceCloseTimer s' = sourceCloseTimer s /\
  sourceCloseTimerStarted s' = sourceCloseTimerStarted s.
Proof.
  unfold addClient. destruct (clients s !! c); [discriminate|].
  intros Hrun. by inv_res.
Qed.

Lemma addClient_inv_pending c state s s' :
  inv_pending s -> addClient c state s = Ok s' -> inv_pending s'.
Proof.
  intros H Hrun. destruct (addClient_timer _ _ _ _ Hrun). revert H.
  by apply inv_pending_ext.
Qed.

Lemma preventSourceClose_inv_pending s :
  inv_pending s -> inv_pending (preventSourceClose s).
Proof. unfold preventSourceClose. by case_match. Qed.

Lemma preventRunOnDemandClose_inv_pending s :
  inv_pending s -> inv_pending (preventRunOnDemandClose s).
Proof. unfold preventRunOnDemandClose. by case_match. Qed.

Lemma startOnDemandSource_inv_pending s :
  inv_pending s -> inv_pending (startOnDemandSource s).
Proof.
  unfold startOnDemandSource, startExternalSource. by repeat case_match.
Qed.

Lemma startOnDemandCmd_inv_pending s :
  inv_pending s -> inv_pending (startOnDemandCmd s).
Proof. unfold startOnDemandCmd. by repeat case_match. Qed.

Lemma onSourceSetReady_inv_pending s s' :
  inv_pending s -> onSourceSetReady s = Ok s' -> inv_pending s'.
Proof.
  intros H Hrun. unfold onSourceSetReady in Hrun. cbv zeta in Hrun. inv_res.
  apply scheduleAll_inv_pending.
  match goal with Hs : forRange _ _ = Ok _ |- _ =>
    refine (replyLoop_stable inv_pending _ _ _ stable_inv_pending _ Hs) end.
  by case_decide.
Qed.

Lemma teardown_sourceCloseTimer s s' :
  teardown s = Ok s' -> sourceCloseTimer s' = timerEmpty.
Proof.
  unfold teardown. intros Hrun. cbv zeta in Hrun. inv_res.
  match goal with H : forRange _ ?s0 = Ok _ |- _ =>
    remember s0 as u eqn:Hu; rename H into Hloop
  end.
  assert (H0 : sourceCloseTimer u = timerEmpty).
  { subst u. by repeat case_match. }
  clear Hu. simpl.
  eapply (forRange_inv (fun u => sourceCloseTimer u = timerEmpty));
    [| |exact Hloop]; [|done].
  intros c state v v' Hv Hc Hb. simpl in Hb.
  case_decide; inv_res; [|done]. by destruct state.
Qed.

Lemma handle_inv_pending ev s s' :
  inv_pending s -> handle ev s = Ok s' -> inv_pending s'.
Proof.
  intros H Hrun. destruct ev; simpl in Hrun.
  - inv_res. apply scheduleAll_inv_pending.
    match goal with |- inv_pending (set_sourceState _ ?u) =>
      cut (inv_pending u); [by apply inv_pending_ext|] end.
    match goal with Hs : forRange _ _ = Ok _ |- _ =>
      refine (replyLoop_stable inv_pending _ _ _ stable_inv_pending _ Hs) end.
    done.
  - destruct (isSourceExternal (source s)); [|discriminate]. inv_res.
    intros Hp. exfalso. revert Hp. unfold scheduleClose. by case_match.
  - destruct (onDemandCmd s); [|discriminate]. inv_res.
    revert H. apply inv_pending_ext; unfold scheduleClose; by case_match.
  - intros Hp. rewrite (teardown_sourceCloseTimer _ _ Hrun) in Hp. done.
  - eapply onSourceSetReady_inv_pending; [|exact Hrun]. done.
  - eapply (onSourceSetNotReady_stable inv_pending);
      [apply stable_inv_pending| |exact Hrun]. done.
  - destruct (clients s !! c); [by inv_res|].
    unfold onClientDescribe in Hrun. cbv zeta in Hrun.
    assert (H4 : inv_pending
              (startOnDemandCmd (startOnDemandSource (preventRunOnDemandClose
                 (preventSourceClose (emit (DescribeRes c None) s)))))).
    { apply startOnDemandCmd_inv_pending, startOnDemandSource_inv_pending,
        preventRunOnDemandClose_inv_pending, preventSourceClose_inv_pending.
      done. }
    set (s4 := startOnDemandCmd _) in *. clearbody s4.
    assert (Himm : forall cb,
              (s ← addClient c clientStatePreRemove s4;
               s ← removeClient c s; Ok (emit (cb s) s)) = Ok s' ->
              inv_pending s').
    { intros cb Hb. inv_res. apply (rs_emit _ stable_inv_pending).
      eapply (rs_remove _ stable_inv_pending); [|eassumption].
      by eapply addClient_inv_pending. }
    case_decide.
    + by apply (Himm (fun s => OnPathDescribeData c None (SourceRedirect conf) None)).
    + destruct (sourceState s4).
      * by apply (Himm (fun s => OnPathDescribeData c None "" (Some errNoOnePublishing))).
      * by eapply addClient_inv_pending.
      * by apply (Himm (fun s => OnPathDescribeData c (sourceSdp s) "" None)).
  - inv_res. destruct t as [err t]. inv_res. apply (rs_emit _ stable_inv_pending).
    match goal with Hs : onClientSetupPlay _ _ _ = _ |- _ =>
      unfold onClientSetupPlay in Hs; cbv zeta in Hs;
      repeat case_decide; inv_res; try done;
      destruct (clients s !! c); inv_res; try done
    end.
    eapply addClient_inv_pending; [|eassumption].
    by apply preventRunOnDemandClose_inv_pending, preventSourceClose_inv_pending.
  - inv_res. apply (rs_emit _ stable_inv_pending). unfold onClientPlay.
    by repeat case_match.
  - inv_res. destruct t as [err t]. inv_res. apply (rs_emit _ stable_inv_pending).
    match goal with Hs : onClientAnnounce _ _ _ = _ |- _ =>
      unfold onClientAnnounce in Hs; cbv zeta in Hs;
      destruct (clients s !! c); inv_res; try done;
      destruct (bool_decide (source s <> sourceNil) || hasExternalSource);
      inv_res; try done
    end.
    match goal with |- inv_pending (set_sourceSdp _ (set_sourceTrackCount _ (set_source _ ?u))) =>
      cut (inv_pending u); [by apply inv_pending_ext|] end.
    by eapply addClient_inv_pending.
  - inv_res. apply (rs_emit _ stable_inv_pending).
    match goal with Hs : onClientRecord _ _ = _ |- _ =>
      unfold onClientRecord in Hs; cbv zeta in Hs;
      destruct (clients s !! c); inv_res; try done;
      case_decide; inv_res; try done
    end.
    eapply onSourceSetReady_inv_pending; [|eassumption]. done.
  - destruct (clients s !! c); [|by inv_res]. inv_res.
    apply (rs_emit _ stable_inv_pending).
    match goal with |- inv_pending (set_clientsWg _ (set_clients _ ?u)) =>
      cut (inv_pending u); [by apply inv_pending_ext|] end.
    case_decide; inv_res; [|done]. by eapply (rs_remove _ stable_inv_pending).
  - intros Hp. rewrite (teardown_sourceCloseTimer _ _ Hrun) in Hp. done.
Qed.

Lemma start_inv_pending : inv_pending start.
Proof.
  unfold start, startExternalSource. cbv zeta. by repeat case_match.
Qed.

Lemma reachable_inv_pending s : reachable s -> inv_pending s.
Proof.
  intros [evs Hrun]. unfold run in Hrun.
  pose proof start_inv_pending as H0. revert H0 Hrun. generalize start.
  induction evs as [|ev evs IH]; intros u Hu Hrun; simpl in Hrun.
  - by inv_res.
  - inv_res. eapply IH; [|eassumption].
    match goal with Hs : step _ _ = Ok _ |- _ =>
      unfold step in Hs; destruct (ready u ev); inv_res; [|done];
      by eapply handle_inv_pending
    end.
Qed.

(** C4: in every reachable state at most one client is in [PreRecord] or
    [Record], and a client in one of these states is the source of the
    path. *)
Theorem C4_single_publisher s :
  reachable s ->
  (forall c1 c2 st1 st2,
     clients s !! c1 = Some st1 -> isPublisher st1 ->
     clients s !! c2 = Some st2 -> isPublisher st2 -> c1 = c2) /\
  (forall c st,
     clients s !! c = Some st ->
     st = clientStatePreRecord \/ st = clientStateRecord ->
     source s = sourceClient c).
Proof.
  intros Hreach. apply reachable_Inv in Hreach. destruct Hreach as [_ H2 _ _ _ _].
  split; [|exact H2].
  intros c1 c2 st1 st2 Hc1 Hp1 Hc2 Hp2.
  pose proof (H2 _ _ Hc1 Hp1) as E1. pose proof (H2 _ _ Hc2 Hp2) as E2. congruence.
Qed.

(** C9: in every reachable state the source close timer is armed (its flag
    is set, or the timer itself is still to tick) only if the path has an
    external source, [SourceOnDemand] is set, the source exists, every
    attached client is in [PreRemove], and the source state is not
    [WaitingDescribe].  A Describe or a SetupPlay that attaches a new client
    outside [PreRemove] leaves the timer disarmed. *)
Theorem C9_source_close_timer s :
  reachable s ->
  (sourceCloseTimerStarted s = true \/
   timerIsPending (sourceCloseTimer s) = true ->
   hasExternalSource = true /\ SourceOnDemand conf = true /\
   source s <> sourceNil /\
   (forall c state, clients s !! c = Some state -> state = clientStatePreRemove) /\
   sourceState s <> sourceStateWaitingDescribe) /\
  (forall c s',
     clients s !! c = None ->
     step s (EvClientDescribe c) = Ok s' \/
     (exists trackId, step s (EvClientSetupPlay c trackId) = Ok s') ->
     (exists state, clients s' !! c = Some state /\ state <> clientStatePreRemove) ->
     sourceCloseTimerStarted s' = false /\
     timerIsPending (sourceCloseTimer s') = false).
Proof.
  intros Hreach.
  assert (Hmain : forall u, reachable u ->
            sourceCloseTimerStarted u = true \/
            timerIsPending (sourceCloseTimer u) = true ->
            hasExternalSource = true /\ SourceOnDemand conf = true /\
            source u <> sourceNil /\
            (forall c state, clients u !! c = Some state ->
               state = clientStatePreRemove) /\
            sourceState u <> sourceStateWaitingDescribe).
  { intros u Hu Harmed.
    assert (Hst : sourceCloseTimerStarted u = true).
    { destruct Harmed as [?|Hp]; [done|]. by apply (reachable_inv_pending u Hu). }
    apply reachable_Inv in Hu. destruct Hu as [_ _ _ _ H5 _].
    destruct (H5 Hst) as (? & ? & ? & Hcl & ?).
    rewrite hasClients_false in Hcl. auto. }
  split; [by apply Hmain|].
  intros c s' Hc Hstep (state & Hc' & Hne).
  assert (Hreach' : reachable s').
  { destruct Hreach as [evs Hrun]. unfold reachable, run in *.
    assert (Happ : forall ev, step s ev = Ok s' -> runFrom start (evs ++ [ev]) = Ok s').
    { intros ev Hev. revert Hrun. generalize start.
      induction evs as [|e evs IH]; intros u Hu; simpl in *.
      - inv_res. by rewrite Hev.
      - inv_res. match goal with H : step u e = _ |- _ => rewrite H end.
        simpl. eauto. }
    destruct Hstep as [Hd|[trackId Hp]]; eauto. }
  assert (Hoff : sourceCloseTimerStarted s' = false).
  { destruct (sourceCloseTimerStarted s') eqn:E; [|done]. exfalso.
    destruct (Hmain s' Hreach' (or_introl E)) as (_ & _ & _ & Hcl & _).
    apply Hne. eauto. }
  split; [done|].
  destruct (timerIsPending (sourceCloseTimer s')) eqn:E; [|done].
  apply (reachable_inv_pending s' Hreach') in E. congruence.
Qed.

(** C6: SetupPlay fails with "no one is publishing to path '<name>'" when
    the source state is not [Ready], and with "track N does not exist" when
    the path is ready and the track index is at least the track count; either
    way the method returns the state it was given, so the client is not added
    and the turn of the loop only emits the reply. *)
Theorem C6_setup_play_errors c trackId s :
  sourceState s <> sourceStateReady \/ trackId >= sourceTrackCount s ->
  exists err,
    err = (if decide (sourceState s <> sourceStateReady)
           then "no one is publishing to path '" +:+ name +:+ "'"
           else "track " +:+ pretty trackId +:+ " does not exist") /\
    onClientSetupPlay c trackId s = Ok (Some err, s) /\
    handle (EvClientSetupPlay c trackId) s = Ok (emit (SetupPlayRes c (Some err)) s) /\
    clients (emit (SetupPlayRes c (Some err)) s) !! c = clients s !! c.
Proof.
  intros Hfail. eexists. split; [reflexivity|].
  assert (Hm : onClientSetupPlay c trackId s =
               Ok (Some (if decide (sourceState s <> sourceStateReady)
                         then "no one is publishing to path '" +:+ name +:+ "'"
                         else "track " +:+ pretty trackId +:+ " does not exist"), s)).
  { unfold onClientSetupPlay.
    destruct (decide (sourceState s <> sourceStateReady)) as [Hn|Hr]; [done|].
    destruct Hfail as [?|Hge]; [done|]. by rewrite decide_True. }
  split; [exact Hm|]. split; [|done]. simpl. by rewrite Hm.
Qed.

(** C5, as the code has it: Announce returns "already subscribed" if the
    client is attached; otherwise it returns "someone is already publishing
    to path '<name>'" if and only if a source is present or the path has an
    external source, and this is the only case in which that error is given;
    otherwise the client is added as [PreRecord] and becomes the source, the
    track count and the SDP are stored, and the source state is left as it
    was. *)
Theorem C5_announce c tracks s :
  (is_Some (clients s !! c) ->
     onClientAnnounce c tracks s = Ok (Some "already subscribed", s)) /\
  (clients s !! c = None ->
     ((source s <> sourceNil \/ hasExternalSource = true) <->
      onClientAnnounce c tracks s = Ok (Some ("someone is already publishing to path '" +:+ name +:+ "'"), s))) /\
  ((exists s', onClientAnnounce c tracks s = Ok (Some ("someone is already publishing to path '" +:+ name +:+ "'"), s')) ->
     clients s !! c = None /\
     (source s <> sourceNil \/ hasExternalSource = true)) /\
  (clients s !! c = None -> source s = sourceNil -> hasExternalSource = false ->
     exists s',
       onClientAnnounce c tracks s = Ok (None, s') /\
       clients s' = <[c := clientStatePreRecord]> (clients s) /\
       source s' = sourceClient c /\
       sourceTrackCount s' = Z.of_nat (length tracks) /\
       sourceSdp s' = Some (tracksWrite tracks) /\
       sourceState s' = sourceState s).
Proof.
  assert (Hpub :
            clients s !! c = None ->
            source s <> sourceNil \/ hasExternalSource = true ->
            onClientAnnounce c tracks s = Ok (Some ("someone is already publishing to path '" +:+ name +:+ "'"), s)).
  { intros Hc Hp. unfold onClientAnnounce. rewrite Hc.
    destruct Hp as [Hp|Hp].
    - by rewrite (bool_decide_eq_true_2 _ Hp).
    - by rewrite Hp, orb_true_r. }
  assert (Hok : clients s !! c = None -> source s = sourceNil ->
            hasExternalSource = false ->
            onClientAnnounce c tracks s =
            Ok (None,
                set_sourceSdp (Some (tracksWrite tracks))
                  (set_sourceTrackCount (Z.of_nat (length tracks))
                     (set_source (sourceClient c)
                        (set_clientsWg (clientsWg s + 1)
                           (set_clients (<[c := clientStatePreRecord]> (clients s)) s)))))).
  { intros Hc Hnil Hext. unfold onClientAnnounce, addClient. rewrite Hc, Hext.
    rewrite bool_decide_eq_false_2 by (intros ?; done). done. }
  split; [|split; [|split]].
  - intros [st Hst]. unfold onClientAnnounce. by rewrite Hst.
  - intros Hc. split; [by apply Hpub|].
    intros Hrun. destruct (decide (source s = sourceNil)) as [Hnil|?]; [|by left].
    destruct (decide (hasExternalSource = true)) as [Hext|Hext]; [by right|].
      apply not_true_is_false in Hext.
    rewrite (Hok Hc Hnil Hext) in Hrun. discriminate.
  - intros [s' Hrun]. destruct (decide (clients s !! c = None)) as [Hc|Hc].
    2: { destruct (clients s !! c) as [st|] eqn:Hst; [|done].
         unfold onClientAnnounce in Hrun. rewrite Hst in Hrun. discriminate. }
    + split; [done|].
      destruct (decide (source s = sourceNil)) as [Hnil|?]; [|by left].
      destruct (decide (hasExternalSource = true)) as [Hext|Hext]; [by right|].
      apply not_true_is_false in Hext.
      rewrite (Hok Hc Hnil Hext) in Hrun. discriminate.
  - intros Hc Hnil Hext. eexists. split; [by apply Hok|]. done.
Qed.

(** *** The stored description and the track count *)




















(** *** Single turns of the loop *)

(** The fields the opening blocks of [onClientDescribe] never write. *)
Lemma preventSourceClose_frame s :
  untouched (preventSourceClose s) = untouched s.
Proof. unfold preventSourceClose. by case_match. Qed.

Lemma preventRunOnDemandClose_frame s :
  untouched (preventRunOnDemandClose s) = untouched s.
Proof. unfold preventRunOnDemandClose. by case_match. Qed.

Lemma startOnDemandSource_frame s :
  untouched (startOnDemandSource s) = untouched s.
Proof.
  unfold startOnDemandSource, startExternalSource. cbv zeta. by repeat case_match.
Qed.

Lemma startOnDemandCmd_frame s : untouched (startOnDemandCmd s) = untouched s.
Proof. unfold startOnDemandCmd. cbv zeta. by repeat case_match. Qed.

Lemma describePrelude_frame s :
  clients (describePrelude s) = clients s /\
  sourceSdp (describePrelude s) = sourceSdp s /\
  sourceTrackCount (describePrelude s) = sourceTrackCount s /\
  countReaders (describePrelude s) = countReaders s /\
  countPublishers (describePrelude s) = countPublishers s /\
  readers (describePrelude s) = readers s /\
  closed (describePrelude s) = closed s /\
  clientsWg (describePrelude s) = clientsWg s.
Proof.
  assert (H : untouched (describePrelude s) = untouched s).
  { unfold describePrelude.
    by rewrite startOnDemandCmd_frame, startOnDemandSource_frame,
      preventRunOnDemandClose_frame, preventSourceClose_frame. }
  unfold untouched in H. by simplify_eq.
Qed.

Lemma describePrelude_source s x :
  source (describePrelude s) = sourceClient x -> source s = sourceClient x.
Proof.
  unfold describePrelude.
  set (u := preventRunOnDemandClose (preventSourceClose s)).
  assert (Hu : source u = source s).
  { subst u. unfold preventRunOnDemandClose, preventSourceClose.
    by repeat case_match. }
  clearbody u. rewrite <- Hu.
  assert (Hv : source (startOnDemandSource u) = sourceClient x ->
               source u = sourceClient x).
  { unfold startOnDemandSource, startExternalSource. cbv zeta.
    repeat case_match; simpl; done. }
  intros H. apply Hv. revert H. generalize (startOnDemandSource u). intros v.
  unfold startOnDemandCmd. cbv zeta. repeat case_match; simpl; done.
Qed.

(** With a source in place and no on-demand command to start, the opening
    blocks only stop the two idle timers. *)
Lemma describePrelude_idle s :
  source s <> sourceNil ->
  RunOnDemand conf = "" \/ onDemandCmd s <> None ->
  source (describePrelude s) = source s /\
  sourceState (describePrelude s) = sourceState s /\
  trace (describePrelude s) = trace s.
Proof.
  intros Hsrc Hcmd.
  set (u := preventRunOnDemandClose (preventSourceClose s)).
  assert (Hu : source u = source s /\ sourceState u = sourceState s /\
               trace u = trace s /\ onDemandCmd u = onDemandCmd s).
  { subst u. unfold preventRunOnDemandClose, preventSourceClose.
    by repeat case_match. }
  destruct Hu as (Hus & Hust & Hut & Huc).
  assert (H1 : startOnDemandSource u = u).
  { unfold startOnDemandSource. rewrite Hus.
    rewrite (bool_decide_eq_false_2 _ Hsrc). by rewrite andb_false_r. }
  assert (H2 : startOnDemandCmd u = u).
  { unfold startOnDemandCmd. rewrite Huc. destruct Hcmd as [Hc|Hc].
    - rewrite bool_decide_eq_false_2; [done|]. intros Hne. by apply Hne.
    - rewrite (bool_decide_eq_false_2 _ Hc). by rewrite andb_false_r. }
  unfold describePrelude. fold u. by rewrite H1, H2.
Qed.

(** A Describe that is answered at once: the client is added and removed in
    one go, which leaves its entry behind in [PreRemove], and the callback is
    the last thing the turn does. *)
Lemma onClientDescribe_immediate c s :
  inv_source s -> clients s !! c = None ->
  source (describePrelude s) = sourceRedirect \/
  sourceState (describePrelude s) <> sourceStateWaitingDescribe ->
  exists s' cb,
    onClientDescribe c s = Ok s' /\
    clients s' = <[c := clientStatePreRemove]> (clients s) /\
    trace s' = trace (describePrelude s) ++ [cb] /\
    cb = (if decide (source (describePrelude s) = sourceRedirect)
          then OnPathDescribeData c None (SourceRedirect conf) None
          else match sourceState (describePrelude s) with
               | sourceStateReady =>
                   OnPathDescribeData c (sourceSdp s) "" None
               | _ =>
                   OnPathDescribeData c None ""
                     (Some ("no one is publishing to path '" +:+ name +:+ "'"))
               end) /\
    source s' = source (describePrelude s) /\
    sourceState s' = sourceState (describePrelude s) /\
    sourceSdp s' = sourceSdp s /\
    sourceTrackCount s' = sourceTrackCount s /\
    countReaders s' = countReaders s /\
    readers s' = readers s /\
    closed s' = closed s.
Proof.
  intros Hsrc Hc Himm.
  destruct (describePrelude_frame s) as (Hcl & Hsdp & Htc & Hcr & _ & Hrd & Hclo & _).
  pose proof (describePrelude_source s c) as Hps.
  unfold onClientDescribe. cbv zeta. fold (describePrelude s).
  set (d := describePrelude s) in *. clearbody d.
  assert (Hcd : clients d !! c = None) by (by rewrite Hcl).
  assert (Hnc : source d <> sourceClient c).
  { intros E. destruct (Hsrc c (Hps E)) as (st & Hst & _). congruence. }
  set (U := scheduleAll
              (set_clients (<[c := clientStatePreRemove]>
                              (<[c := clientStatePreRemove]> (clients d)))
                 (set_clientsWg (clientsWg d + 1)
                    (set_clients (<[c := clientStatePreRemove]> (clients d)) d)))).
  assert (Hgo : forall cb,
            (s ← addClient c clientStatePreRemove d;
             s ← removeClient c s; Ok (emit (cb s) s)) = Ok (emit (cb U) U)).
  { intros cb. unfold addClient. rewrite Hcd. simpl.
    rewrite removeClient_preRemove; [done| |done]. simpl. apply lookup_insert_eq. }
  assert (Hfacts : forall o,
            clients (emit o U) = <[c := clientStatePreRemove]> (clients s) /\
            trace (emit o U) = trace d ++ [o] /\
            source (emit o U) = source d /\
            sourceState (emit o U) = sourceState d /\
            sourceSdp (emit o U) = sourceSdp s /\
            sourceTrackCount (emit o U) = sourceTrackCount s /\
            countReaders (emit o U) = countReaders s /\
            readers (emit o U) = readers s /\ closed (emit o U) = closed s).
  { intros o. subst U. simpl. autorewrite with sched. simpl.
    rewrite insert_insert_eq, Hcl. done. }
  assert (HsdpU : sourceSdp U = sourceSdp s).
  { subst U. autorewrite with sched. done. }
  destruct (decide (source d = sourceRedirect)) as [Hred|Hred].
  - exists (emit (OnPathDescribeData c None (SourceRedirect conf) None) U),
      (OnPathDescribeData c None (SourceRedirect conf) None).
    split; [apply (Hgo (fun _ => OnPathDescribeData c None (SourceRedirect conf) None))|].
    destruct (Hfacts (OnPathDescribeData c None (SourceRedirect conf) None))
      as (? & ? & ? & ? & ? & ? & ? & ? & ?).
    repeat split; done.
  - destruct Himm as [?|Hnw]; [done|].
    destruct (sourceState d) eqn:Est; [|done|].
    + exists (emit (OnPathDescribeData c None "" (Some errNoOnePublishing)) U),
        (OnPathDescribeData c None "" (Some errNoOnePublishing)).
      split; [apply (Hgo (fun _ => OnPathDescribeData c None ""
                                     (Some errNoOnePublishing)))|].
      destruct (Hfacts (OnPathDescribeData c None "" (Some errNoOnePublishing)))
        as (? & ? & ? & ? & ? & ? & ? & ? & ?).
      repeat split; try done; congruence.
    + exists (emit (OnPathDescribeData c (sourceSdp s) "" None) U),
        (OnPathDescribeData c (sourceSdp s) "" None).
      split.
      { rewrite (Hgo (fun s => OnPathDescribeData c (sourceSdp s) "" None)).
        by rewrite HsdpU. }
      destruct (Hfacts (OnPathDescribeData c (sourceSdp s) "" None))
        as (? & ? & ? & ? & ? & ? & ? & ? & ?).
      repeat split; try done; congruence.
Qed.

Lemma stable_staysPreRemove y : removalStable (staysPreRemove y).
Proof.
  constructor.
  - intros c s s' H Hrun. apply removeClientFuel_evolves in Hrun.
    eapply evolves_lookup_PreRemove; [exact Hrun|]. simpl.
    destruct (decide (y = c)) as [->|Hne].
    + apply lookup_insert_eq.
    + by rewrite lookup_insert_ne.
  - done.
  - done.
  - intros s H. unfold staysPreRemove. by autorewrite with sched.
Qed.

Lemma staysPreRemove_ext y s s' :
  clients s' = clients s -> staysPreRemove y s -> staysPreRemove y s'.
Proof. unfold staysPreRemove. by intros ->. Qed.

Lemma addClient_staysPreRemove y c state s s' :
  staysPreRemove y s -> addClient c state s = Ok s' -> staysPreRemove y s'.
Proof.
  unfold addClient, staysPreRemove. intros H Hrun.
  destruct (clients s !! c) eqn:Hc; [discriminate|]. inv_res. simpl.
  rewrite lookup_insert_ne; [done|]. congruence.
Qed.

Lemma onSourceSetReady_staysPreRemove y s s' :
  staysPreRemove y s -> onSourceSetReady s = Ok s' -> staysPreRemove y s'.
Proof.
  intros H Hrun. unfold onSourceSetReady in Hrun. cbv zeta in Hrun. inv_res.
  apply (rs_schedule _ (stable_staysPreRemove y)).
  match goal with Hs : forRange _ _ = Ok _ |- _ =>
    refine (replyLoop_stable _ _ _ _ (stable_staysPreRemove y) _ Hs) end.
  by case_decide.
Qed.

Lemma handle_staysPreRemove y ev s s' :
  ev <> EvClientRemove y ->
  staysPreRemove y s -> handle ev s = Ok s' -> staysPreRemove y s'.
Proof.
  intros Hev H Hrun. pose proof (stable_staysPreRemove y) as Hst.
  destruct ev; simpl in Hrun.
  - inv_res. apply (rs_schedule _ Hst).
    match goal with |- staysPreRemove y (set_sourceState _ ?u) =>
      cut (staysPreRemove y u); [by apply staysPreRemove_ext|] end.
    match goal with Hs : forRange _ _ = Ok _ |- _ =>
      refine (replyLoop_stable _ _ _ _ Hst _ Hs) end.
    done.
  - destruct (isSourceExternal (source s)); [|discriminate]. inv_res.
    revert H. apply staysPreRemove_ext; by autorewrite with sched.
  - destruct (onDemandCmd s); [|discriminate]. inv_res.
    revert H. apply staysPreRemove_ext; by autorewrite with sched.
  - destruct (teardown_frame _ _ Hrun) as (Hcl & _).
    revert H. by apply staysPreRemove_ext.
  - eapply onSourceSetReady_staysPreRemove; [|exact Hrun]. done.
  - eapply (onSourceSetNotReady_stable _ _ _ Hst); [|exact Hrun]. done.
  - destruct (clients s !! c); [by inv_res|].
    unfold onClientDescribe in Hrun. cbv zeta in Hrun.
    fold (describePrelude (emit (DescribeRes c None) s)) in Hrun.
    assert (H4 : staysPreRemove y (describePrelude (emit (DescribeRes c None) s))).
    { destruct (describePrelude_frame (emit (DescribeRes c None) s)) as (Hcl & _).
      revert H. by apply staysPreRemove_ext. }
    set (s4 := describePrelude _) in *. clearbody s4.
    assert (Himm : forall cb,
              (s ← addClient c clientStatePreRemove s4;
               s ← removeClient c s; Ok (emit (cb s) s)) = Ok s' ->
              staysPreRemove y s').
    { intros cb Hb. inv_res. apply (rs_emit _ Hst).
      eapply (rs_remove _ Hst); [|eassumption].
      by eapply addClient_staysPreRemove. }
    case_decide.
    + by apply (Himm (fun s => OnPathDescribeData c None (SourceRedirect conf) None)).
    + destruct (sourceState s4).
      * by apply (Himm (fun s => OnPathDescribeData c None "" (Some errNoOnePublishing))).
      * by eapply addClient_staysPreRemove.
      * by apply (Himm (fun s => OnPathDescribeData c (sourceSdp s) "" None)).
  - inv_res. destruct t as [err t]. inv_res. apply (rs_emit _ Hst).
    match goal with Hs : onClientSetupPlay _ _ _ = _ |- _ =>
      unfold onClientSetupPlay in Hs; cbv zeta in Hs;
      repeat case_decide; inv_res; try done;
      destruct (clients s !! c); inv_res; try done
    end.
    eapply addClient_staysPreRemove; [|eassumption].
    revert H. apply staysPreRemove_ext.
    unfold preventRunOnDemandClose, preventSourceClose. by repeat case_match.
  - inv_res. apply (rs_emit _ Hst). unfold onClientPlay, staysPreRemove in *.
    destruct (clients s !! c) as [st|] eqn:Hc; [|done].
    case_decide as Hne; [done|]. simpl.
    rewrite lookup_insert_ne; [done|]. intros ->. congruence.
  - inv_res. destruct t as [err t]. inv_res. apply (rs_emit _ Hst).
    match goal with Hs : onClientAnnounce _ _ _ = _ |- _ =>
      unfold onClientAnnounce in Hs; cbv zeta in Hs;
      destruct (clients s !! c); inv_res; try done;
      destruct (bool_decide (source s <> sourceNil) || hasExternalSource);
      inv_res; try done
    end.
    match goal with |- staysPreRemove y (set_sourceSdp _ (set_sourceTrackCount _ (set_source _ ?u))) =>
      cut (staysPreRemove y u); [by apply staysPreRemove_ext|] end.
    by eapply addClient_staysPreRemove.
  - inv_res. apply (rs_emit _ Hst).
    match goal with Hs : onClientRecord _ _ = _ |- _ =>
      unfold onClientRecord in Hs; cbv zeta in Hs;
      destruct (clients s !! c) as [st|] eqn:Hc; inv_res; try done;
      case_decide as Hne; inv_res; try done
    end.
    eapply onSourceSetReady_staysPreRemove; [|eassumption].
    unfold staysPreRemove in *. simpl.
    rewrite lookup_insert_ne; [done|]. intros ->. congruence.
  - assert (c <> y) by congruence.
    destruct (clients s !! c); [|by inv_res]. inv_res.
    apply (rs_emit _ Hst).
    match goal with |- staysPreRemove y (set_clientsWg _ (set_clients _ ?u)) =>
      assert (Hu : staysPreRemove y u)
    end.
    { case_decide; inv_res; [|done]. by eapply (rs_remove _ Hst). }
    unfold staysPreRemove in *. simpl. by rewrite lookup_delete_ne.
  - destruct (teardown_frame _ _ Hrun) as (Hcl & _).
    revert H. by apply staysPreRemove_ext.
Qed.

Lemma runFrom_staysPreRemove y evs s s' :
  EvClientRemove y ∉ evs ->
  staysPreRemove y s -> runFrom s evs = Ok s' -> staysPreRemove y s'.
Proof.
  revert s. induction evs as [|ev evs IH]; intros s Hev H Hrun; simpl in Hrun.
  - by inv_res.
  - inv_res. apply not_elem_of_cons in Hev as [Hne Hev].
    eapply (IH t); [done| |done].
    match goal with Hs : step _ _ = Ok _ |- _ =>
      unfold step in Hs; destruct (ready s ev); inv_res; [|done];
      eapply handle_staysPreRemove; [| |eassumption]; [congruence|done]
    end.
Qed.

(** The source and the source state the opening blocks leave depend on the
    five fields of [dispatchView] only, so not on the trace. *)
Lemma preventSourceClose_view s s' :
  dispatchView s = dispatchView s' ->
  dispatchView (preventSourceClose s) = dispatchView (preventSourceClose s').
Proof.
  unfold dispatchView, preventSourceClose. intros H. simplify_eq.
  repeat case_match; simpl in *; congruence.
Qed.

Lemma preventRunOnDemandClose_view s s' :
  dispatchView s = dispatchView s' ->
  dispatchView (preventRunOnDemandClose s) =
  dispatchView (preventRunOnDemandClose s').
Proof.
  unfold dispatchView, preventRunOnDemandClose. intros H. simplify_eq.
  repeat case_match; simpl in *; congruence.
Qed.

Lemma startOnDemandSource_view s s' :
  dispatchView s = dispatchView s' ->
  dispatchView (startOnDemandSource s) = dispatchView (startOnDemandSource s').
Proof.
  unfold dispatchView, startOnDemandSource, startExternalSource. cbv zeta.
  intros H. injection H as H1 H2 H3 H4 H5. rewrite H1.
  destruct (hasExternalSource && bool_decide (source s' = sourceNil)).
  - destruct (String.prefix "rtsp://" (Source conf)),
      (String.prefix "rtmp://" (Source conf)); simpl; rewrite ?H1, ?H2;
      repeat case_decide; simpl; congruence.
  - congruence.
Qed.

Lemma startOnDemandCmd_view s s' :
  dispatchView s = dispatchView s' ->
  dispatchView (startOnDemandCmd s) = dispatchView (startOnDemandCmd s').
Proof.
  unfold dispatchView, startOnDemandCmd. cbv zeta.
  intros H. injection H as H1 H2 H3 H4 H5. rewrite H5.
  destruct (bool_decide (RunOnDemand conf <> "")
            && bool_decide (onDemandCmd s' = None)).
  - simpl. rewrite H2. repeat case_decide; simpl; congruence.
  - congruence.
Qed.

Lemma describePrelude_emit o s :
  source (describePrelude (emit o s)) = source (describePrelude s) /\
  sourceState (describePrelude (emit o s)) = sourceState (describePrelude s).
Proof.
  assert (H : dispatchView (describePrelude (emit o s)) =
              dispatchView (describePrelude s)).
  { unfold describePrelude.
    by apply startOnDemandCmd_view, startOnDemandSource_view,
      preventRunOnDemandClose_view, preventSourceClose_view. }
  unfold dispatchView in H. by simplify_eq.
Qed.

(** C10: a Describe of a client that is not attached, answered at once (the
    source is the redirect stub, or the source state the handler dispatches
    on is [Ready] or [NotReady]), ends with the describe callback and leaves
    the client in the map in [PreRemove].  The entry stays, whatever else the
    path handles, until the ClientRemove of this client; as long as it is
    there a second Describe and an Announce of the same client are answered
    "already subscribed". *)
Theorem C10_describe_leaves_preRemove s c :
  reachable s -> closed s = false -> clients s !! c = None ->
  source (describePrelude s) = sourceRedirect \/
  sourceState (describePrelude s) = sourceStateReady \/
  sourceState (describePrelude s) = sourceStateNotReady ->
  exists s1 sdp url err,
    step s (EvClientDescribe c) = Ok s1 /\
    last (trace s1) = Some (OnPathDescribeData c sdp url err) /\
    clients s1 !! c = Some clientStatePreRemove /\
    forall evs s2,
      EvClientRemove c ∉ evs -> runFrom s1 evs = Ok s2 ->
      clients s2 !! c = Some clientStatePreRemove /\
      handle (EvClientDescribe c) s2 =
        Ok (emit (DescribeRes c (Some "already subscribed")) s2) /\
      forall tracks,
        handle (EvClientAnnounce c tracks) s2 =
          Ok (emit (AnnounceRes c (Some "already subscribed")) s2).
Proof.
  intros Hreach Hopen Hc Himm. apply reachable_Inv in Hreach.
  destruct Hreach as [_ _ Hsrc _ _ _].
  destruct (describePrelude_emit (DescribeRes c None) s) as [Es Est].
  destruct (onClientDescribe_immediate c (emit (DescribeRes c None) s))
    as (s1 & cb & Hrun & Hcl & Htr & Hcb & _); [exact Hsrc|exact Hc| |].
  { rewrite Es, Est. destruct Himm as [?|[->| ->]]; [by left|by right|by right]. }
  assert (Hshape : exists sdp url err, cb = OnPathDescribeData c sdp url err).
  { rewrite Hcb. repeat case_match; eauto. }
  destruct Hshape as (sdp & url & err & ->).
  exists s1, sdp, url, err.
  assert (Hs1 : clients s1 !! c = Some clientStatePreRemove).
  { rewrite Hcl. simpl. apply lookup_insert_eq. }
  split; [|split; [|split; [exact Hs1|]]].
  - unfold step, ready. rewrite Hopen. simpl. by rewrite Hc.
  - rewrite Htr. apply last_snoc.
  - intros evs s2 Hev Hrun2.
    pose proof (runFrom_staysPreRemove c evs s1 s2 Hev Hs1 Hrun2) as H2.
    unfold staysPreRemove in H2. split; [exact H2|]. split.
    + simpl. by rewrite H2.
    + intros tracks. simpl. unfold onClientAnnounce. by rewrite H2.
Qed.

(** C1, as the code has it: on a path whose source state is [Ready], with a
    publisher [x] in [Record] as source, a track count above 0 and no
    on-demand command left to start, a client [y] that is not attached and
    issues Describe, ClientRemove, SetupPlay of track 0 and Play ends in state
    [Play], in the readers map, with the reader counter one higher (1 when
    it was 0); the Describe was answered with the stored SDP. *)
Theorem C1_describe_remove_setup_play s x y :
  closed s = false ->
  sourceState s = sourceStateReady ->
  source s = sourceClient x ->
  clients s !! x = Some clientStateRecord ->
  clients s !! y = None ->
  0 < sourceTrackCount s ->
  RunOnDemand conf = "" \/ onDemandCmd s <> None ->
  exists s',
    runFrom s [EvClientDescribe y; EvClientRemove y;
               EvClientSetupPlay y 0; EvClientPlay y] = Ok s' /\
    countReaders s' = countReaders s + 1 /\
    clients s' !! y = Some clientStatePlay /\
    y ∈ readers s' /\
    OnPathDescribeData y (sourceSdp s) "" None ∈ trace s'.
Proof.
  intros Hopen Hready Hsrc Hx Hy Hcount Hcmd.
  assert (Hxy : x <> y) by congruence.
  (* Describe *)
  destruct (describePrelude_idle (emit (DescribeRes y None) s))
    as (Hds & Hdst & Hdtr); [simpl; congruence|done|].
  simpl in Hds, Hdst, Hdtr.
  destruct (onClientDescribe_immediate y (emit (DescribeRes y None) s))
    as (s1 & cb & Hrun1 & Hcl1 & Htr1 & Hcb1 & Hs1 & Hst1 & Hsdp1 & Htc1 & Hcr1
        & Hrd1 & Hclo1).
  { intros z Hz. simpl in *. rewrite Hsrc in Hz. injection Hz as <-.
    exists clientStateRecord. split; [done|by right]. }
  { exact Hy. }
  { right. rewrite Hdst, Hready. discriminate. }
  rewrite Hds in Hs1. rewrite Hdst, Hready in Hst1. simpl in *.
  rewrite decide_False in Hcb1 by (rewrite Hds, Hsrc; discriminate).
  rewrite Hdst, Hready in Hcb1.
  assert (Hstep1 : step s (EvClientDescribe y) = Ok s1).
  { unfold step, ready. rewrite Hopen. simpl. by rewrite Hy. }
  (* ClientRemove *)
  set (s2 := emit (RemoveRes y)
               (set_clientsWg (clientsWg s1 - 1)
                  (set_clients (delete y (clients s1)) s1))).
  assert (Hstep2 : step s1 (EvClientRemove y) = Ok s2).
  { unfold step, ready. rewrite Hclo1, Hopen. simpl.
    assert (E : clients s1 !! y = Some clientStatePreRemove)
      by (rewrite Hcl1; apply lookup_insert_eq).
    by rewrite E. }
  assert (Hs2 : clients s2 !! y = None /\ closed s2 = false /\
                sourceState s2 = sourceStateReady /\
                sourceTrackCount s2 = sourceTrackCount s /\
                countReaders s2 = countReaders s /\
                trace s2 = trace s1 ++ [RemoveRes y]).
  { subst s2. simpl. rewrite lookup_delete_eq. repeat split; congruence. }
  clearbody s2. destruct Hs2 as (Hy2 & Hclo2 & Hst2 & Htc2 & Hcr2 & Htr2).
  (* SetupPlay *)
  set (d2 := preventRunOnDemandClose (preventSourceClose s2)).
  assert (Hd2 : clients d2 = clients s2 /\ countReaders d2 = countReaders s2 /\
                closed d2 = closed s2 /\ trace d2 = trace s2).
  { subst d2. unfold preventRunOnDemandClose, preventSourceClose.
    by repeat case_match. }
  destruct Hd2 as (Hd2c & Hd2r & Hd2cl & Hd2t).
  set (s3 := emit (SetupPlayRes y None)
               (set_clientsWg (clientsWg d2 + 1)
                  (set_clients (<[y := clientStatePrePlay]> (clients d2)) d2))).
  assert (Hstep3 : step s2 (EvClientSetupPlay y 0) = Ok s3).
  { unfold step, ready. rewrite Hclo2. simpl.
    unfold onClientSetupPlay. rewrite Hst2.
    rewrite decide_False by (intros Hn; by apply Hn).
    rewrite Htc2. rewrite decide_False by lia.
    rewrite Hy2. cbv zeta. fold d2. unfold addClient.
    assert (E : clients d2 !! y = None) by (rewrite Hd2c; exact Hy2).
    by rewrite E. }
  assert (Hs3 : clients s3 !! y = Some clientStatePrePlay /\ closed s3 = false /\
                countReaders s3 = countReaders s /\
                trace s3 = trace s2 ++ [SetupPlayRes y None]).
  { subst s3. simpl. rewrite lookup_insert_eq. repeat split; congruence. }
  clearbody s3. destruct Hs3 as (Hy3 & Hclo3 & Hcr3 & Htr3).
  (* Play *)
  exists (emit (PlayRes y) (onClientPlay y s3)). split.
  { simpl. rewrite Hstep1. simpl. rewrite Hstep2. simpl. rewrite Hstep3. simpl.
    unfold step, ready. by rewrite Hclo3. }
  unfold onClientPlay. rewrite Hy3. simpl.
  split; [lia|split; [apply lookup_insert_eq|split]].
  - apply elem_of_union_l. by apply elem_of_singleton.
  - rewrite Htr3, Htr2, Htr1, Hcb1.
    rewrite !elem_of_app. left. left. left. right. apply list_elem_of_singleton. done.
Qed.

(** ** The fuel of [removeClient] is enough *)

Lemma alive_mark c cl :
  alive (<[c := clientStatePreRemove]> cl) = delete c (alive cl).
Proof.
  unfold alive. rewrite map_filter_insert_False by (intros H; by apply H).
  apply map_filter_delete.
Qed.

Lemma size_delete_le c (m : gmap client clientState) :
  (size (delete c m) <= size m)%nat.
Proof. apply map_subseteq_size, delete_subseteq. Qed.

Lemma size_delete_alive c state cl :
  cl !! c = Some state -> state <> clientStatePreRemove ->
  S (size (delete c (alive cl))) = size (alive cl).
Proof.
  intros Hc Hst.
  assert (H : alive cl !! c = Some state) by (by apply map_lookup_filter_Some).
  rewrite <- (insert_id _ _ _ H) at 2. rewrite <- insert_delete_eq.
  rewrite map_size_insert_None; [done|apply lookup_delete_eq].
Qed.

Lemma live_le_size s : (live s <= size (clients s))%nat.
Proof. apply map_subseteq_size, map_filter_subseteq. Qed.

Lemma live_scheduleAll s : live (scheduleAll s) = live s.
Proof. unfold live. by rewrite scheduleAll_clients. Qed.

Lemma settles_mono b b' r : settles b r -> (b <= b')%nat -> settles b' r.
Proof. destruct r; simpl; [lia|done|done]. Qed.

Lemma settles_bind b (r : result Path) (k : Path -> result Path) :
  settles b r ->
  (forall u, (live u <= b)%nat -> settles b (k u)) ->
  settles b (r ≫= k).
Proof. destruct r; simpl; [auto|done|done]. Qed.

Lemma rangeClients_settles b body ks s :
  (forall c state u, clients u !! c = Some state -> (live u <= b)%nat ->
     settles b (body c state u)) ->
  (live s <= b)%nat -> settles b (rangeClients body ks s).
Proof.
  intros Hbody. revert s. induction ks as [|c ks IH]; intros s Hs; simpl; [done|].
  destruct (clients s !! c) as [state|] eqn:Hc; [|by apply IH].
  apply settles_bind; [by apply Hbody|exact IH].
Qed.

Lemma removeClientFuel_settles fuel : forall c s,
  (size (delete c (alive (clients s))) < fuel)%nat ->
  settles (size (delete c (alive (clients s)))) (removeClientFuel fuel c s).
Proof.
  induction fuel as [|fuel IH]; intros c s Hfuel; [lia|].
  set (b := size (delete c (alive (clients s)))) in *.
  assert (Hnested : forall oc state u,
            clients u !! oc = Some state -> state <> clientStatePreRemove ->
            (live u <= b)%nat -> settles b (removeClientFuel fuel oc u)).
  { intros oc state u Hoc Hst Hu.
    pose proof (size_delete_alive oc state (clients u) Hoc Hst) as E.
    unfold live in Hu. eapply settles_mono; [apply IH|]; lia. }
  clear IH. simpl removeClientFuel.
  set (s1 := set_clients (<[c := clientStatePreRemove]> (clients s)) s).
  assert (H1 : (live s1 <= b)%nat).
  { unfold live, s1. simpl. by rewrite alive_mark. }
  clearbody s1. clearbody b.
  apply settles_bind.
  { destruct (default clientStateWaitingDescribe (clients s !! c)); try exact H1.
    unfold onSourceSetNotReadyWith, forRange.
    apply rangeClients_settles; [|exact H1].
    intros oc state u Hoc Hu. repeat case_decide; simpl; try done.
    apply settles_bind; [eapply Hnested; [done|tauto|done]|done]. }
  intros u Hu. apply settles_bind.
  { case_decide; [|exact Hu]. unfold forRange.
    apply rangeClients_settles; [|exact Hu].
    intros oc state v Hoc Hv. case_decide; simpl; try done.
    apply settles_bind; [eapply Hnested; [done|tauto|done]|done]. }
  intros v Hv. simpl. by rewrite live_scheduleAll.
Qed.

Lemma removeClient_settles c s : settles (live s) (removeClient c s).
Proof.
  unfold removeClient.
  pose proof (size_delete_le c (alive (clients s))) as H1.
  pose proof (live_le_size s) as H2. unfold live in *.
  eapply settles_mono; [apply removeClientFuel_settles|]; lia.
Qed.

Lemma removeClient_returns c s : removeClient c s <> OutOfFuel.
Proof.
  pose proof (removeClient_settles c s) as H. intros E. by rewrite E in H.
Qed.

Lemma bind_returns {A B} (r : result A) (k : A -> result B) :
  r <> OutOfFuel -> (forall a, k a <> OutOfFuel) -> r ≫= k <> OutOfFuel.
Proof. destruct r; simpl; auto. Qed.

Lemma rangeClients_returns body ks s :
  (forall c state u, body c state u <> OutOfFuel) ->
  rangeClients body ks s <> OutOfFuel.
Proof.
  intros Hbody. revert s. induction ks as [|c ks IH]; intros s; simpl; [done|].
  destruct (clients s !! c); [|done]. by apply bind_returns.
Qed.

Lemma addClient_returns c state s : addClient c state s <> OutOfFuel.
Proof. unfold addClient. by case_match. Qed.

Ltac returns :=
  repeat first
    [ apply removeClient_returns
    | apply addClient_returns
    | apply bind_returns
    | apply rangeClients_returns
    | progress intros
    | discriminate
    | case_decide
    | case_match ].

Lemma onSourceSetReady_returns s : onSourceSetReady s <> OutOfFuel.
Proof. unfold onSourceSetReady, forRange. cbv zeta. returns. Qed.

Lemma onSourceSetNotReady_returns s : onSourceSetNotReady s <> OutOfFuel.
Proof. unfold onSourceSetNotReady, onSourceSetNotReadyWith, forRange. returns. Qed.

Lemma teardown_returns s : teardown s <> OutOfFuel.
Proof. unfold teardown, forRange. cbv zeta. returns. Qed.

Lemma handle_returns ev s : handle ev s <> OutOfFuel.
Proof.
  destruct ev; simpl.
  - unfold forRange. returns.
  - returns.
  - returns.
  - apply teardown_returns.
  - apply onSourceSetReady_returns.
  - apply onSourceSetNotReady_returns.
  - case_match; [done|]. unfold onClientDescribe. cbv zeta. returns.
  - unfold onClientSetupPlay. returns.
  - done.
  - unfold onClientAnnounce. returns.
  - unfold onClientRecord. apply bind_returns; [|done].
    repeat case_match; try done. apply onSourceSetReady_returns.
  - returns.
  - apply teardown_returns.
Qed.

(** The fuel never runs out: a turn of the loop, and a run of any length,
    returns a state or panics, in every state and on every event. *)
Theorem run_never_out_of_fuel :
  (forall c s, removeClient c s <> OutOfFuel) /\
  (forall s ev, step s ev <> OutOfFuel) /\
  (forall s evs, runFrom s evs <> OutOfFuel) /\
  (forall evs, run evs <> OutOfFuel).
Proof.
  assert (Hstep : forall s ev, step s ev <> OutOfFuel).
  { intros s ev. unfold step. case_match; [apply handle_returns|done]. }
  assert (Hrun : forall evs s, runFrom s evs <> OutOfFuel).
  { induction evs as [|ev evs IH]; intros s; simpl; [done|].
    apply bind_returns; [apply Hstep|apply IH]. }
  split; [apply removeClient_returns|]. split; [exact Hstep|].
  split; [intros s evs; apply Hrun|intros evs; apply Hrun].
Qed.

(** In every reachable state a client that waits for the description finds
    the source state [WaitingDescribe]. *)
Theorem waiting_client_source_state s c :
  reachable s -> clients s !! c = Some clientStateWaitingDescribe ->
  sourceState s = sourceStateWaitingDescribe.
Proof.
  intros Hreach Hc. apply reachable_Inv in Hreach.
  destruct Hreach as [H1 _ _ _ _ _]. by apply (H1 c).
Qed.

(** *** The wait group, the readers map and the two counters *)

Lemma scheduleClose_clientsWg s : clientsWg (scheduleClose s) = clientsWg s.
Proof. sched_frame. Qed.
Lemma scheduleClose_readers s : readers (scheduleClose s) = readers s.
Proof. sched_frame. Qed.
Lemma scheduleClose_countReaders s :
  countReaders (scheduleClose s) = countReaders s.
Proof. sched_frame. Qed.
Lemma scheduleClose_countPublishers s :
  countPublishers (scheduleClose s) = countPublishers s.
Proof. sched_frame. Qed.
Lemma scheduleClose_trace s : trace (scheduleClose s) = trace s.
Proof. sched_frame. Qed.
Lemma scheduleClose_onDemandCmd s : onDemandCmd (scheduleClose s) = onDemandCmd s.
Proof. sched_frame. Qed.

#[local] Hint Rewrite scheduleClose_clientsWg scheduleClose_readers
  scheduleClose_countReaders scheduleClose_countPublishers scheduleClose_trace
  scheduleClose_onDemandCmd : sched.

Lemma inState_lookup state cl c x :
  inState state cl !! c = Some x <-> cl !! c = Some x /\ x = state.
Proof. unfold inState. by rewrite map_lookup_filter_Some. Qed.

Lemma inState_lookup_None state cl c :
  cl !! c <> Some state -> inState state cl !! c = None.
Proof.
  intros Hc. destruct (inState state cl !! c) as [x|] eqn:E; [|done].
  apply inState_lookup in E as [E ->]. done.
Qed.

Lemma inState_insert_ne state state' c cl :
  state' <> state ->
  inState state (<[c := state']> cl) = delete c (inState state cl).
Proof.
  intros Hne. unfold inState. rewrite map_filter_insert_False by done.
  apply map_filter_delete.
Qed.

Lemma inState_insert_eq state c cl :
  inState state (<[c := state]> cl) = <[c := state]> (inState state cl).
Proof. unfold inState. by rewrite map_filter_insert_True. Qed.

Lemma inState_delete state c cl :
  inState state (delete c cl) = delete c (inState state cl).
Proof. apply map_filter_delete. Qed.

Lemma inState_delete_id state c cl :
  cl !! c <> Some state -> delete c (inState state cl) = inState state cl.
Proof. intros Hc. apply delete_id. by apply inState_lookup_None. Qed.

Lemma inState_size_delete state c cl :
  cl !! c = Some state ->
  Z.of_nat (size (delete c (inState state cl))) =
  Z.of_nat (size (inState state cl)) - 1.
Proof.
  intros Hc.
  assert (H : inState state cl !! c = Some state) by (by apply inState_lookup).
  rewrite <- (insert_id _ _ _ H) at 2. rewrite <- insert_delete_eq.
  rewrite map_size_insert_None by apply lookup_delete_eq. lia.
Qed.

Lemma inState_size_insert state c cl :
  cl !! c <> Some state ->
  Z.of_nat (size (<[c := state]> (inState state cl))) =
  Z.of_nat (size (inState state cl)) + 1.
Proof.
  intros Hc. rewrite map_size_insert_None by (by apply inState_lookup_None). lia.
Qed.

Lemma tally_ext s s' :
  clients s' = clients s -> readers s' = readers s ->
  countReaders s' = countReaders s -> countPublishers s' = countPublishers s ->
  tally s -> tally s'.
Proof. intros E1 E2 E3 E4 [H1 H2 H3]. constructor; congruence. Qed.

(** An entry that is neither in [Play] nor in [Record] can be written,
    added or deleted without a change of the books. *)
Lemma tally_insert_other c state s :
  state <> clientStatePlay -> state <> clientStateRecord ->
  clients s !! c <> Some clientStatePlay ->
  clients s !! c <> Some clientStateRecord ->
  tally s -> tally (set_clients (<[c := state]> (clients s)) s).
Proof.
  intros Hp Hr Hcp Hcr [H1 H2 H3]. constructor; simpl.
  - rewrite inState_insert_ne by done. by rewrite inState_delete_id.
  - rewrite inState_insert_ne by done. by rewrite inState_delete_id.
  - rewrite inState_insert_ne by done. by rewrite inState_delete_id.
Qed.

Lemma tally_delete_other c s :
  clients s !! c <> Some clientStatePlay ->
  clients s !! c <> Some clientStateRecord ->
  tally s -> tally (set_clients (delete c (clients s)) s).
Proof.
  intros Hcp Hcr [H1 H2 H3]. constructor; simpl.
  - rewrite inState_delete. by rewrite inState_delete_id.
  - rewrite inState_delete. by rewrite inState_delete_id.
  - rewrite inState_delete. by rewrite inState_delete_id.
Qed.

(** The three ways [removeClient] opens. *)
Lemma tally_mark_play c s :
  clients s !! c = Some clientStatePlay -> tally s ->
  tally (set_readers (readers s ∖ {[c]})
           (set_countReaders (countReaders s - 1)
              (set_clients (<[c := clientStatePreRemove]> (clients s)) s))).
Proof.
  intros Hc [H1 H2 H3]. constructor; simpl.
  - rewrite inState_insert_ne by done. rewrite dom_delete_L. by rewrite H1.
  - rewrite inState_insert_ne by done. rewrite inState_size_delete by done. lia.
  - rewrite inState_insert_ne by done. rewrite inState_delete_id; [done|].
    by rewrite Hc.
Qed.

Lemma tally_mark_record c s :
  clients s !! c = Some clientStateRecord -> tally s ->
  tally (set_countPublishers (countPublishers s - 1)
           (set_clients (<[c := clientStatePreRemove]> (clients s)) s)).
Proof.
  intros Hc [H1 H2 H3]. constructor; simpl.
  - rewrite inState_insert_ne by done. rewrite inState_delete_id; [done|].
    by rewrite Hc.
  - rewrite inState_insert_ne by done. rewrite inState_delete_id; [done|].
    by rewrite Hc.
  - rewrite inState_insert_ne by done. rewrite inState_size_delete by done. lia.
Qed.

Lemma tally_mark_other c s :
  clients s !! c <> Some clientStatePlay ->
  clients s !! c <> Some clientStateRecord ->
  tally s -> tally (set_clients (<[c := clientStatePreRemove]> (clients s)) s).
Proof. by apply tally_insert_other. Qed.

Lemma tally_scheduleAll s : tally s -> tally (scheduleAll s).
Proof. apply tally_ext; by autorewrite with sched. Qed.

Lemma removeClientFuel_tally fuel : forall c s s',
  tally s -> removeClientFuel fuel c s = Ok s' -> tally s'.
Proof.
  induction fuel as [|fuel IH]; intros c s s' Ht Hrun; [discriminate|].
  simpl in Hrun. inv_res. apply tally_scheduleAll.
  assert (H1 : tally t).
  { clear Hstep0.
    destruct (clients s !! c) as [state|] eqn:Hc; simpl in *.
    - destruct state; inv_res;
        try (apply tally_mark_other; [by rewrite Hc|by rewrite Hc|done]).
      + by apply tally_mark_play.
      + match goal with H : onSourceSetNotReadyWith _ _ = Ok _ |- _ =>
          unfold onSourceSetNotReadyWith in H; revert H end.
        apply forRange_inv.
        * intros oc state v v' Hv _ Hbody. repeat case_decide; inv_res; try done.
          eapply tally_ext; [| | | |by eapply IH]; done.
        * eapply tally_ext; [| | | |by apply (tally_mark_record c s)]; done.
    - inv_res. apply tally_mark_other; [by rewrite Hc|by rewrite Hc|done]. }
  case_decide; inv_res; [|done].
  match goal with H : forRange _ _ = Ok _ |- _ => revert H end.
  apply forRange_inv.
  - intros oc state v v' Hv _ Hbody. case_decide; inv_res; [|done].
    eapply tally_ext; [| | | |by eapply IH]; done.
  - revert H1. by apply tally_ext.
Qed.

Lemma stable_tally : removalStable tally.
Proof.
  constructor.
  - intros c s s' Hs. by apply removeClientFuel_tally.
  - intros o s. by apply tally_ext.
  - intros n s. by apply tally_ext.
  - apply tally_scheduleAll.
Qed.

Lemma evolves_dom s s' : evolves s s' -> dom (clients s') = dom (clients s).
Proof.
  intros H. apply set_eq. intros x.
  rewrite !elem_of_dom, <- !not_eq_None_Some.
  by rewrite (evolves_lookup_None s s' x H).
Qed.

Lemma wgCounts_ext s s' :
  clients s' = clients s -> clientsWg s' = clientsWg s ->
  wgCounts s -> wgCounts s'.
Proof. unfold wgCounts. congruence. Qed.

Lemma evolves_wgCounts s s' : evolves s s' -> wgCounts s -> wgCounts s'.
Proof.
  unfold wgCounts. intros H Hw. rewrite (ev_clientsWg _ _ H), Hw.
  by rewrite <- (size_dom (D:=gset client) (clients s')), (evolves_dom _ _ H),
    size_dom.
Qed.

(** What the handlers that keep the loop running keep. *)
Lemma replyLoop_books (cb : client -> Path -> output) s s' :
  wgCounts s -> tally s ->
  forRange (fun c state s =>
      if decide (state = clientStateWaitingDescribe)
      then s ← removeClient c s; Ok (emit (cb c s) s)
      else Ok s) s = Ok s' ->
  wgCounts s' /\ tally s' /\ closed s' = closed s.
Proof.
  intros Hw Ht Hrun. pose proof (replyLoop_evolves _ _ _ Hrun) as Hev.
  split; [by eapply evolves_wgCounts|]. split; [|by destruct Hev].
  by refine (replyLoop_stable tally _ _ _ stable_tally _ Hrun).
Qed.

Lemma onSourceSetReady_books s s' :
  wgCounts s -> tally s -> onSourceSetReady s = Ok s' ->
  wgCounts s' /\ tally s' /\ closed s' = closed s.
Proof.
  intros Hw Ht Hrun. unfold onSourceSetReady in Hrun. cbv zeta in Hrun. inv_res.
  match goal with H : forRange _ ?s0 = Ok _ |- _ =>
    destruct (replyLoop_books
                (fun c s => OnPathDescribeData c (sourceSdp s) "" None) s0 t)
      as (Hw' & Ht' & Hcl'); [| |exact H|]
  end.
  - revert Hw. apply wgCounts_ext; by case_decide.
  - revert Ht. apply tally_ext; by case_decide.
  - split; [|split].
    + revert Hw'. apply wgCounts_ext; by autorewrite with sched.
    + by apply tally_scheduleAll.
    + autorewrite with sched. rewrite Hcl'. by case_decide.
Qed.

Lemma onSourceSetNotReady_books s s' :
  wgCounts s -> tally s -> onSourceSetNotReady s = Ok s' ->
  wgCounts s' /\ tally s' /\ closed s' = closed s.
Proof.
  intros Hw Ht Hrun. pose proof (onSourceSetNotReady_evolves _ _ Hrun) as Hev.
  split; [by eapply evolves_wgCounts|]. split; [|by destruct Hev].
  refine (onSourceSetNotReady_stable tally _ _ stable_tally _ Hrun).
  revert Ht. by apply tally_ext.
Qed.

Lemma addClient_books c state s s' :
  state <> clientStatePlay -> state <> clientStateRecord ->
  wgCounts s -> tally s -> addClient c state s = Ok s' ->
  wgCounts s' /\ tally s' /\ closed s' = closed s /\
  clients s' !! c = Some state.
Proof.
  intros Hp Hr Hw Ht Hrun. unfold addClient in Hrun.
  destruct (clients s !! c) eqn:Hc; [discriminate|]. inv_res.
  split; [|split; [|split]].
  - unfold wgCounts in *. simpl. rewrite map_size_insert_None by done. lia.
  - eapply tally_ext; [| | | |apply (tally_insert_other c state s)]; try done.
    all: by rewrite Hc.
  - done.
  - simpl. apply lookup_insert_eq.
Qed.

Lemma removeClient_books c state s s' :
  clients s !! c = Some state ->
  wgCounts s -> tally s -> removeClient c s = Ok s' ->
  wgCounts s' /\ tally s' /\ closed s' = closed s.
Proof.
  intros Hc Hw Ht Hrun. pose proof (removeClient_evolves _ _ _ _ Hc Hrun) as Hev.
  split; [by eapply evolves_wgCounts|]. split; [|by destruct Hev].
  by eapply (rs_remove _ stable_tally).
Qed.

Lemma onClientDescribe_books c s s' :
  wgCounts s -> tally s -> onClientDescribe c s = Ok s' ->
  wgCounts s' /\ tally s' /\ closed s' = closed s.
Proof.
  intros Hw Ht Hrun.
  destruct (describePrelude_frame s) as (E1 & _ & _ & E2 & E3 & E4 & E5 & E6).
  unfold onClientDescribe in Hrun. cbv zeta in Hrun. fold (describePrelude s) in Hrun.
  set (d := describePrelude s) in *. clearbody d.
  assert (Hwd : wgCounts d) by (revert Hw; by apply wgCounts_ext).
  assert (Htd : tally d) by (revert Ht; by apply tally_ext).
  assert (Hadd : forall state u,
            state <> clientStatePlay -> state <> clientStateRecord ->
            addClient c state d = Ok u ->
            wgCounts u /\ tally u /\ closed u = closed d /\
            clients u !! c = Some state).
  { intros state u Hp Hr H. by eapply addClient_books. }
  assert (Hgo : forall (cb : Path -> output) u,
            (s ← addClient c clientStatePreRemove d;
             s ← removeClient c s; Ok (emit (cb s) s)) = Ok u ->
            wgCounts u /\ tally u /\ closed u = closed s).
  { clear Hrun. intros cb u H. inv_res.
    apply Hadd in Hstep as (Hw1 & Ht1 & Hc1 & Hl1); [|done|done].
    destruct (removeClient_books _ _ _ _ Hl1 Hw1 Ht1 Hstep0) as (Hw2 & Ht2 & Hc2).
    split; [|split];
      [by apply (wgCounts_ext t0)|by apply (tally_ext t0)|simpl; congruence]. }
  case_decide;
    [by apply (Hgo (fun _ => OnPathDescribeData c None (SourceRedirect conf) None))|].
  destruct (sourceState d);
    [by apply (Hgo (fun _ => OnPathDescribeData c None "" (Some errNoOnePublishing)))
    |
    |by apply (Hgo (fun u => OnPathDescribeData c (sourceSdp u) "" None))].
  apply Hadd in Hrun as (Hw1 & Ht1 & Hc1 & _); [|done|done].
  split; [|split]; [done|done|congruence].
Qed.

Lemma prevent_frame s :
  untouched (preventRunOnDemandClose (preventSourceClose s)) = untouched s.
Proof. by rewrite preventRunOnDemandClose_frame, preventSourceClose_frame. Qed.

Lemma onClientSetupPlay_books c trackId s err s' :
  wgCounts s -> tally s -> onClientSetupPlay c trackId s = Ok (err, s') ->
  wgCounts s' /\ tally s' /\ closed s' = closed s.
Proof.
  intros Hw Ht Hrun. unfold onClientSetupPlay in Hrun.
  repeat case_decide; inv_res; try done.
  destruct (clients s !! c) eqn:Hc; inv_res; [done|].
  cbv zeta in Hstep.
  pose proof (prevent_frame s) as E. unfold untouched in E.
  set (d := preventRunOnDemandClose (preventSourceClose s)) in *. clearbody d.
  simplify_eq.
  match goal with H : addClient _ _ _ = Ok _ |- _ =>
    eapply addClient_books in H as (Hw1 & Ht1 & Hc1 & _); try done
  end.
  - split; [|split]; [done|done|congruence].
  - revert Hw. by apply wgCounts_ext.
  - revert Ht. by apply tally_ext.
Qed.

Lemma onClientPlay_books c s :
  wgCounts s -> tally s ->
  wgCounts (onClientPlay c s) /\ tally (onClientPlay c s) /\
  closed (onClientPlay c s) = closed s.
Proof.
  intros Hw Ht. unfold onClientPlay.
  destruct (clients s !! c) as [state|] eqn:Hc; [|done].
  case_decide as Hst; [done|]. try apply dec_stable in Hst. subst state.
  cbv zeta. split; [|split; [|done]].
  - unfold wgCounts in *. simpl. by rewrite map_size_insert_Some.
  - destruct Ht as [H1 H2 H3]. constructor; simpl.
    + rewrite inState_insert_eq, dom_insert_L. by rewrite H1.
    + rewrite inState_insert_eq, inState_size_insert by (by rewrite Hc). lia.
    + rewrite inState_insert_ne by done. rewrite inState_delete_id; [done|].
      by rewrite Hc.
Qed.

Lemma onClientAnnounce_books c tracks s err s' :
  wgCounts s -> tally s -> onClientAnnounce c tracks s = Ok (err, s') ->
  wgCounts s' /\ tally s' /\ closed s' = closed s.
Proof.
  intros Hw Ht Hrun. unfold onClientAnnounce in Hrun.
  destruct (clients s !! c) eqn:Hc; inv_res; [done|].
  case_match; inv_res; [done|]. cbv zeta in *. inv_res.
  match goal with H : addClient _ _ _ = Ok _ |- _ =>
    eapply addClient_books in H as (Hw1 & Ht1 & Hc1 & _); try done
  end.
  split; [|split]; [done| |done]. revert Ht1. by apply tally_ext.
Qed.

Lemma onClientRecord_books c s s' :
  wgCounts s -> tally s -> onClientRecord c s = Ok s' ->
  wgCounts s' /\ tally s' /\ closed s' = closed s.
Proof.
  intros Hw Ht Hrun. unfold onClientRecord in Hrun.
  destruct (clients s !! c) as [state|] eqn:Hc; inv_res; [|done].
  case_decide as Hst; inv_res; [done|]. try apply dec_stable in Hst. subst state.
  cbv zeta in Hrun.
  eapply onSourceSetReady_books in Hrun as (Hw1 & Ht1 & Hc1); [done| |].
  - unfold wgCounts in *. simpl. by rewrite map_size_insert_Some.
  - destruct Ht as [H1 H2 H3]. constructor; simpl.
    + rewrite inState_insert_ne by done. rewrite inState_delete_id; [done|].
      by rewrite Hc.
    + rewrite inState_insert_ne by done. rewrite inState_delete_id; [done|].
      by rewrite Hc.
    + rewrite inState_insert_eq, inState_size_insert by (by rewrite Hc). lia.
Qed.

Lemma deleteClient_books c s :
  clients s !! c = Some clientStatePreRemove ->
  wgCounts s -> tally s ->
  wgCounts (set_clientsWg (clientsWg s - 1) (set_clients (delete c (clients s)) s)) /\
  tally (set_clientsWg (clientsWg s - 1) (set_clients (delete c (clients s)) s)).
Proof.
  intros Hc Hw Ht. split.
  - unfold wgCounts in *. simpl. rewrite Hw.
    assert (size (clients s) <> 0%nat).
    { apply map_size_ne_0_lookup. eauto. }
    rewrite map_size_delete_Some by eauto. lia.
  - eapply tally_ext; [| | | |apply (tally_delete_other c s)]; try done.
    all: by rewrite Hc.
Qed.

Lemma books_frame s s' :
  booksView s' = booksView s ->
  wgCounts s /\ tally s /\ closed s = closed s ->
  wgCounts s' /\ tally s' /\ closed s' = closed s.
Proof.
  unfold booksView. intros E (Hw & Ht & _). simplify_eq.
  split; [by apply (wgCounts_ext s)|]. split; [by apply (tally_ext s)|done].
Qed.

Ltac books_frame :=
  apply books_frame;
  [unfold booksView; simpl; autorewrite with sched; try reflexivity|done].

Lemma books_trans s1 s2 s3 :
  wgCounts s2 /\ tally s2 /\ closed s2 = closed s1 ->
  (wgCounts s2 -> tally s2 -> wgCounts s3 /\ tally s3 /\ closed s3 = closed s2) ->
  wgCounts s3 /\ tally s3 /\ closed s3 = closed s1.
Proof. intros (Hw & Ht & Hc) H. destruct (H Hw Ht) as (?&?&?). by rewrite <- Hc. Qed.

Lemma handle_books ev s s' :
  ev <> EvCloseTimer -> ev <> EvTerminate ->
  wgCounts s -> tally s -> handle ev s = Ok s' ->
  wgCounts s' /\ tally s' /\ closed s' = closed s.
Proof.
  intros Hn1 Hn2 Hw Ht Hrun. destruct ev; simpl in Hrun; try done.
  - (* describe timer *)
    inv_res.
    match goal with H : forRange _ ?s0 = Ok _ |- _ =>
      apply (books_trans s s0); [by books_frame|intros Hw0 Ht0];
      apply (books_trans s0 t);
        [exact (replyLoop_books
                  (fun c _ => OnPathDescribeData c None "" (Some errTimedOut))
                  s0 t Hw0 Ht0 H)|intros Hw1 Ht1]
    end.
    by books_frame.
  - (* source close timer *)
    case_match; inv_res. by books_frame.
  - (* run on demand close timer *)
    case_match; inv_res. by books_frame.
  - (* source set ready *)
    apply (books_trans s (OnSourceSetReady tracks s)); [by books_frame|].
    intros Hw0 Ht0. by eapply onSourceSetReady_books.
  - by eapply onSourceSetNotReady_books.
  - (* describe *)
    destruct (clients s !! c) eqn:Hc.
    + inv_res. by books_frame.
    + apply (books_trans s (emit (DescribeRes c None) s)); [by books_frame|].
      intros Hw0 Ht0. by eapply onClientDescribe_books.
  - (* setup play *)
    inv_res. destruct t as [err t]. inv_res.
    apply (books_trans s t); [by eapply onClientSetupPlay_books|].
    intros Hw0 Ht0. by books_frame.
  - inv_res.
    apply (books_trans s (onClientPlay c s)); [by apply onClientPlay_books|].
    intros Hw0 Ht0. by books_frame.
  - inv_res. destruct t as [err t]. inv_res.
    apply (books_trans s t); [by eapply onClientAnnounce_books|].
    intros Hw0 Ht0. by books_frame.
  - inv_res.
    apply (books_trans s t); [by eapply onClientRecord_books|].
    intros Hw0 Ht0. by books_frame.
  - (* remove *)
    destruct (clients s !! c) as [state|] eqn:Hc; inv_res; [|by books_frame].
    assert (Ht0 : (wgCounts t /\ tally t /\ closed t = closed s) /\
                  clients t !! c = Some clientStatePreRemove).
    { case_decide as Hst; inv_res.
      - split; [by eapply removeClient_books|by eapply removeClient_marks].
      - try apply dec_stable in Hst. by subst. }
    destruct Ht0 as [Hb Hl1]. apply (books_trans s t); [done|].
    intros Hw1 Ht1. destruct (deleteClient_books c t Hl1 Hw1 Ht1) as [Hw2 Ht2].
    split; [|split]; [|by apply (tally_ext
      (set_clientsWg (clientsWg t - 1) (set_clients (delete c (clients t)) t)))|done].
    by apply (wgCounts_ext
      (set_clientsWg (clientsWg t - 1) (set_clients (delete c (clients t)) t))).
Qed.

(** *** The end of [run] *)

Lemma keysIn_elem state cl ks c :
  c ∈ keysIn state cl ks <-> cl !! c = Some state /\ c ∈ ks.
Proof. unfold keysIn. by rewrite list_elem_of_filter. Qed.

Lemma keysIn_set state cl ks :
  (forall c, c ∈ ks <-> is_Some (cl !! c)) ->
  list_to_set (keysIn state cl ks) = dom (inState state cl) :> gset client.
Proof.
  intros Hks. apply set_eq. intros c.
  rewrite elem_of_list_to_set, keysIn_elem, elem_of_dom. split.
  - intros [Hc _]. exists state. by apply inState_lookup.
  - intros [x Hx]. apply inState_lookup in Hx as [Hx ->].
    split; [done|]. apply Hks. eauto.
Qed.

Lemma keysIn_length state cl ks :
  NoDup ks -> (forall c, c ∈ ks <-> is_Some (cl !! c)) ->
  length (keysIn state cl ks) = size (inState state cl).
Proof.
  intros Hnd Hks.
  rewrite <- (size_dom (D:=gset client)), <- (keysIn_set state cl ks Hks).
  symmetry. apply size_list_to_set. by apply NoDup_filter.
Qed.

Lemma closeCallsFor_app c tr1 tr2 :
  closeCallsFor c (tr1 ++ tr2) = closeCallsFor c tr1 ++ closeCallsFor c tr2.
Proof. apply filter_app. Qed.

Lemma closeCallsFor_map c ks :
  NoDup ks ->
  closeCallsFor c (map OnPathClientClose ks) =
  if decide (c ∈ ks) then [OnPathClientClose c] else [].
Proof.
  unfold closeCallsFor. induction 1 as [|k ks Hk Hnd IH]; simpl.
  - done.
  - rewrite filter_cons. destruct (decide (k = c)) as [->|Hne].
    + rewrite decide_True by done. rewrite IH.
      rewrite decide_False by done. rewrite decide_True by apply list_elem_of_here.
      done.
    + rewrite decide_False by congruence. rewrite IH.
      destruct (decide (c ∈ ks)) as [Hin|Hnin].
      * rewrite decide_True; [done|]. by apply list_elem_of_further.
      * rewrite decide_False; [done|]. rewrite elem_of_cons. by intros [?|?].
Qed.

Lemma teardownLoop ks : forall u,
  exists u',
    rangeClients (fun c state s =>
        if decide (state <> clientStatePreRemove) then
          Ok (emit (OnPathClientClose c)
                match state with
                | clientStatePlay =>
                    set_readers (readers s ∖ {[c]})
                      (set_countReaders (countReaders s - 1) s)
                | clientStateRecord =>
                    set_countPublishers (countPublishers s - 1) s
                | _ => s
                end)
        else Ok s) ks u = Ok u' /\
    readers u' = readers u ∖ list_to_set (keysIn clientStatePlay (clients u) ks) /\
    countReaders u' =
      countReaders u - Z.of_nat (length (keysIn clientStatePlay (clients u) ks)) /\
    countPublishers u' =
      countPublishers u
      - Z.of_nat (length (keysIn clientStateRecord (clients u) ks)) /\
    trace u' = trace u ++ map OnPathClientClose (liveKeys (clients u) ks) /\
    teardownView u' = teardownView u.
Proof.
  induction ks as [|c ks IH]; intros u.
  - exists u. simpl. split; [done|]. split; [by rewrite difference_empty_L|].
    split; [lia|]. split; [lia|]. split; [by rewrite app_nil_r|done].
  - simpl. unfold keysIn, liveKeys in *. rewrite !filter_cons.
    destruct (clients u !! c) as [state|] eqn:Hc.
    + destruct (decide (state <> clientStatePreRemove)) as [Hst|Hst].
      * cbv zeta. simpl.
        match goal with |- context [rangeClients _ ks ?v] =>
          destruct (IH v) as (u' & Hrun & H1 & H2 & H3 & H4 & H5) end.
        exists u'. split; [exact Hrun|].
        rewrite (decide_True (P := is_Some (Some state) /\ _)) by (split; [eauto|congruence]).
        destruct state; simpl in *; try done;
          rewrite ?decide_True by done; rewrite ?decide_False by done;
          simpl; rewrite H1, H2, H3, H4, <- ?app_assoc; simpl.
        all: split; [first [done|by rewrite difference_difference_l_L]|]. all: split; [lia|]. all: split; [lia|done].
      * try apply dec_stable in Hst. subst state. simpl.
        destruct (IH u) as (u' & Hrun & H1 & H2 & H3 & H4 & H5).
        exists u'. split; [exact Hrun|].
        rewrite ?decide_False by (try done; intros [_ ?]; done). done.
    + destruct (IH u) as (u' & Hrun & H1 & H2 & H3 & H4 & H5).
      exists u'. split; [exact Hrun|].
      rewrite ?decide_False by (try done; intros [[? ?] _]; done). done.
Qed.

Lemma liveKeys_elem cl ks c :
  c ∈ liveKeys cl ks <->
  (is_Some (cl !! c) /\ cl !! c <> Some clientStatePreRemove) /\ c ∈ ks.
Proof. unfold liveKeys. by rewrite list_elem_of_filter. Qed.

(** The part of [run] after the loop stops the timers, closes the commands
    and the external source, gives back what the stats counters and the
    readers map hold for this path, and tells the parent once about every
    client that is not marked [PreRemove]; the map and the wait group are
    left as they are. *)
Lemma teardown_settles s :
  tally s ->
  exists s' new,
    teardown s = Ok s' /\ closed s' = true /\
    clients s' = clients s /\ clientsWg s' = clientsWg s /\
    settled s' /\
    (describeTimer s' = timerEmpty /\ sourceCloseTimer s' = timerEmpty /\
     runOnDemandCloseTimer s' = timerEmpty /\ closeTimer s' = timerEmpty) /\
    trace s' = trace s ++ new /\
    (forall c,
       closeCallsFor c new =
       if decide (is_Some (clients s !! c) /\
                  clients s !! c <> Some clientStatePreRemove)
       then [OnPathClientClose c] else []) /\
    (forall cmd, onInitCmd s = Some cmd -> CmdClose cmd ∈ new) /\
    (isSourceExternal (source s) = true -> SourceClose ∈ new) /\
    (forall cmd, onDemandCmd s = Some cmd -> CmdClose cmd ∈ new).
Proof.
  intros [Hr Hcr Hcp]. unfold teardown. cbv zeta. unfold forRange.
  match goal with |- context [rangeClients _ (rangeKeys ?u0) _] =>
    set (u := u0) end.
  assert (Hu : exists pre,
            trace u = trace s ++ pre /\ (forall c, closeCallsFor c pre = []) /\
            (forall cmd, onInitCmd s = Some cmd -> CmdClose cmd ∈ pre) /\
            (isSourceExternal (source s) = true -> SourceClose ∈ pre) /\
            (forall cmd, onDemandCmd s = Some cmd -> CmdClose cmd ∈ pre) /\
            clients u = clients s /\ clientsWg u = clientsWg s /\
            readers u = readers s /\ countReaders u = countReaders s /\
            countPublishers u = countPublishers s /\
            describeTimer u = timerEmpty /\ sourceCloseTimer u = timerEmpty /\
            runOnDemandCloseTimer u = timerEmpty /\ closeTimer u = timerEmpty).
  { subst u. unfold paLog. simpl.
    destruct (onInitCmd s) as [ci|]; simpl;
      destruct (isSourceExternal (source s)); simpl;
      destruct (onDemandCmd s) as [cd|]; simpl; eexists;
      (split; [rewrite <- ?app_assoc; simpl;
               first [reflexivity|symmetry; apply app_nil_r]|]);
      (split; [intros c; unfold closeCallsFor;
               by rewrite ?filter_cons, ?decide_False by done|]);
      repeat split; try done; intros; simplify_eq;
      rewrite ?elem_of_cons; auto 10. }
  destruct Hu as (pre & Htr & Hpre & Hi & Hx & Hd & Hcl & Hwg & Hrd & Hcr' & Hcp'
                  & Ht1 & Ht2 & Ht3 & Ht4).
  assert (Hkeys : forall c, c ∈ rangeKeys u <-> is_Some (clients s !! c)).
  { intros c. rewrite rangeKeys_elem. by rewrite Hcl. }
  pose proof (rangeKeys_NoDup u) as Hnd.
  clearbody u.
  destruct (teardownLoop (rangeKeys u) (set_rangeSeq (S (rangeSeq u)) u))
    as (u' & Hrun & H1 & H2 & H3 & H4 & H5).
  simpl in H1, H2, H3, H4, H5. rewrite Hcl in *.
  unfold teardownView in H5. simpl in H5. simplify_eq.
  exists (set_closed true u'),
    (pre ++ map OnPathClientClose (liveKeys (clients s) (rangeKeys u))).
  split; [by rewrite Hrun|]. split; [done|]. simpl.
  split; [congruence|]. split; [congruence|].
  split.
  { unfold settled. simpl. split; [|split].
    - rewrite H1, Hrd, Hr, (keysIn_set _ _ _ Hkeys). apply difference_diag_L.
    - rewrite H2, Hcr', Hcr, (keysIn_length _ _ _ Hnd Hkeys). lia.
    - rewrite H3, Hcp', Hcp, (keysIn_length _ _ _ Hnd Hkeys). lia. }
  split; [repeat split; congruence|].
  split; [rewrite H4, Htr; by rewrite app_assoc|].
  split.
  { intros c. rewrite closeCallsFor_app, Hpre. simpl.
    rewrite closeCallsFor_map by (by apply NoDup_filter).
    destruct (decide (c ∈ liveKeys (clients s) (rangeKeys u))) as [Hin|Hnin].
    - apply liveKeys_elem in Hin as [Hin _]. by rewrite decide_True.
    - rewrite decide_False; [done|]. intros [Hsome Hne]. apply Hnin.
      apply liveKeys_elem. split; [done|]. by apply Hkeys. }
  split; [|split].
  - intros cmd Hc. apply elem_of_app. left. eauto.
  - intros Hc. apply elem_of_app. left. eauto.
  - intros cmd Hc. apply elem_of_app. left. eauto.
Qed.

Lemma start_books : wgCounts start /\ tally start /\ closed start = false.
Proof.
  assert (H0 : wgCounts New /\ tally New /\ closed New = false).
  { split; [done|]. split; [|done]. constructor; simpl.
    - unfold inState. by rewrite map_filter_empty, dom_empty_L.
    - unfold inState. rewrite map_filter_empty, map_size_empty. simpl. lia.
    - unfold inState. rewrite map_filter_empty, map_size_empty. simpl. lia. }
  assert (H1 : booksView start = booksView New).
  { unfold start, startExternalSource, paLog, booksView.
    repeat case_match; reflexivity. }
  destruct H0 as (Hw & Ht & Hc). unfold booksView in H1. simplify_eq.
  split; [by apply (wgCounts_ext New)|]. split; [by apply (tally_ext New)|].
  congruence.
Qed.

Lemma ready_open s ev : ready s ev = true -> closed s = false.
Proof. unfold ready. by destruct (closed s). Qed.

Lemma teardown_Books s s' : Books s -> closed s = false -> teardown s = Ok s' -> Books s'.
Proof.
  intros [Hw Ho _] Hc Hrun.
  destruct (teardown_settles s (Ho Hc))
    as (u & new & Hu & Hcl & E1 & E2 & Hs & _).
  rewrite Hu in Hrun. inv_res. constructor.
  - by apply (wgCounts_ext s).
  - congruence.
  - done.
Qed.

Lemma step_Books ev s s' : Books s -> step s ev = Ok s' -> Books s'.
Proof.
  intros Hb Hrun. unfold step in Hrun.
  destruct (ready s ev) eqn:Hr; [|by inv_res].
  apply ready_open in Hr.
  assert (Hev : ev = EvCloseTimer \/ ev = EvTerminate \/
                (ev <> EvCloseTimer /\ ev <> EvTerminate))
    by (destruct ev; auto).
  destruct Hev as [->|[->|[Hn1 Hn2]]].
  { simpl in Hrun. eapply teardown_Books; [| |exact Hrun]; [|done].
    destruct Hb as [Hw Ho Hc]. constructor; simpl; [done| |congruence].
    intros _. by apply (tally_ext s), Ho. }
  { by eapply teardown_Books. }
  destruct Hb as [Hw Ho Hc].
  destruct (handle_books ev s s' Hn1 Hn2 Hw (Ho Hr) Hrun) as (Hw' & Ht' & Hc').
  constructor; [done|done|congruence].
Qed.

Lemma reachable_Books s : reachable s -> Books s.
Proof.
  intros [evs Hrun]. unfold run in Hrun.
  assert (H0 : Books start).
  { destruct start_books as (Hw & Ht & Hc). constructor; [done|done|congruence]. }
  revert H0 Hrun. generalize start. induction evs as [|ev evs IH]; intros u Hu Hrun.
  - simpl in Hrun. by inv_res.
  - simpl in Hrun. inv_res. eapply IH; [|done]. by eapply step_Books.
Qed.

Lemma size_le_1 (m : gmap client clientState) :
  (forall c1 c2, is_Some (m !! c1) -> is_Some (m !! c2) -> c1 = c2) ->
  (size m <= 1)%nat.
Proof.
  intros Huniq. destruct (decide (m = ∅)) as [->|Hne]; [by rewrite map_size_empty; lia|].
  apply map_choose in Hne as (i & x & Hi).
  assert (E : m = {[i := x]}).
  { apply map_eq. intros j. destruct (decide (i = j)) as [<-|Hij].
    - by rewrite lookup_singleton_eq.
    - rewrite lookup_singleton_ne by done.
      destruct (m !! j) eqn:Hj; [|done]. destruct Hij. apply Huniq; eauto. }
  rewrite E, map_size_singleton. lia.
Qed.

(** While the path runs, the wait group counts the entries of the client
    map: every [addClient] adds an entry and one unit, the clientRemove branch
    deletes an entry and gives one unit back, and nothing else changes the
    keys of the map or the counter. *)
Theorem wait_group_counts_clients s :
  reachable s -> clientsWg s = Z.of_nat (size (clients s)).
Proof. intros Hreach. by destruct (reachable_Books s Hreach). Qed.

(** While the loop of [run] is running, the readers map holds exactly the
    clients in state [Play], the reader counter stands above the value [New]
    received by their number, and the publisher counter stands above the
    value [New] received by the number of clients in state [Record], which
    is 0 or 1. *)
Theorem stats_count_clients s :
  reachable s -> closed s = false ->
  (forall c, c ∈ readers s <-> clients s !! c = Some clientStatePlay) /\
  countReaders s = CountReaders stats + Z.of_nat (size (readers s)) /\
  countPublishers s =
    CountPublishers stats
    + Z.of_nat (size (inState clientStateRecord (clients s))) /\
  0 <= countPublishers s - CountPublishers stats <= 1.
Proof.
  intros Hreach Hopen. destruct (reachable_Books s Hreach) as [_ Ho _].
  destruct (Ho Hopen) as [H1 H2 H3]. apply reachable_Inv in Hreach.
  destruct Hreach as [_ Hpub _ _ _ _].
  split; [|split; [|split]].
  - intros c. rewrite H1, elem_of_dom. split.
    + intros [x Hx]. by apply inState_lookup in Hx as [Hx ->].
    + intros Hc. exists clientStatePlay. by apply inState_lookup.
  - by rewrite H1, size_dom.
  - done.
  - rewrite H3.
    assert ((size (inState clientStateRecord (clients s)) <= 1)%nat); [|lia].
    apply size_le_1. intros c1 c2 [x1 Hx1] [x2 Hx2].
    apply inState_lookup in Hx1 as [Hx1 ->]. apply inState_lookup in Hx2 as [Hx2 ->].
    pose proof (Hpub _ _ Hx1 ltac:(by right)) as E1.
    pose proof (Hpub _ _ Hx2 ltac:(by right)) as E2. congruence.
Qed.

(** When the path is terminated, or its close timer fires, [run] leaves its
    loop without a panic: the timers are stopped, the commands and an external
    source are closed, the parent is told once about every client that is not
    marked [PreRemove], the readers map is emptied, the reader counter is
    lowered by the number of readers and the publisher counter by the number
    of clients in [Record]; the client map and the wait group are left for
    the clients to release. *)
Theorem terminate_settles_the_books s ev :
  reachable s -> ev = EvTerminate \/ ev = EvCloseTimer -> ready s ev = true ->
  exists s' new,
    step s ev = Ok s' /\ closed s' = true /\
    clients s' = clients s /\ clientsWg s' = clientsWg s /\
    readers s' = ∅ /\
    countReaders s' = countReaders s - Z.of_nat (size (readers s)) /\
    countPublishers s' =
      countPublishers s
      - Z.of_nat (size (inState clientStateRecord (clients s))) /\
    (describeTimer s' = timerEmpty /\ sourceCloseTimer s' = timerEmpty /\
     runOnDemandCloseTimer s' = timerEmpty /\ closeTimer s' = timerEmpty) /\
    trace s' = trace s ++ new /\
    (ev = EvCloseTimer -> head new = Some OnPathClose) /\
    (forall c,
       closeCallsFor c new =
       if decide (is_Some (clients s !! c) /\
                  clients s !! c <> Some clientStatePreRemove)
       then [OnPathClientClose c] else []) /\
    (forall cmd, onInitCmd s = Some cmd -> CmdClose cmd ∈ new) /\
    (isSourceExternal (source s) = true -> SourceClose ∈ new) /\
    (forall cmd, onDemandCmd s = Some cmd -> CmdClose cmd ∈ new).
Proof.
  intros Hreach Hev Hready. pose proof (ready_open _ _ Hready) as Hopen.
  destruct (reachable_Books s Hreach) as [_ Ho _]. specialize (Ho Hopen).
  assert (Hback : forall s',
            settled s' ->
            readers s' = ∅ /\
            countReaders s' = countReaders s - Z.of_nat (size (readers s)) /\
            countPublishers s' =
              countPublishers s
              - Z.of_nat (size (inState clientStateRecord (clients s)))).
  { intros s' (E1 & E2 & E3). destruct Ho as [T1 T2 T3].
    split; [done|]. rewrite E2, E3, T1, size_dom, T2, T3. lia. }
  unfold step. rewrite Hready. destruct Hev as [-> | ->]; simpl.
  - destruct (teardown_settles s Ho)
      as (s' & new & Hrun & H1 & H2 & H3 & Hset & H7 & H8 & H9 & H10).
    destruct (Hback s' Hset) as (H4 & H5 & H6).
    exists s', new. repeat (split; [done|]). done.
  - set (u := emit OnPathClose (set_closeTimer timerEmpty s)).
    assert (Hu : tally u) by (revert Ho; by apply tally_ext).
    destruct (teardown_settles u Hu)
      as (s' & new & Hrun & H1 & H2 & H3 & Hset & H7 & H8 & H9 & H10
          & H11 & H12).
    destruct (Hback s' Hset) as (H4 & H5 & H6).
    exists s', (OnPathClose :: new). simpl in *.
    repeat (split; [done|]).
    split; [by rewrite H8, <- app_assoc|]. split; [done|].
    split.
    { intros c. unfold closeCallsFor in *. rewrite filter_cons.
      rewrite decide_False by done. apply H9. }
    split; [|split].
    + intros cmd Hc. apply list_elem_of_further. eauto.
    + intros Hc. apply list_elem_of_further. eauto.
    + intros cmd Hc. apply list_elem_of_further. eauto.
Qed.

(** *** The close timer of the on-demand command *)

Lemma hasClientsNotSources_false s :
  hasClientsNotSources s = false <->
  forall x state, clients s !! x = Some state ->
    state = clientStatePreRemove \/ sourceClient x = source s.
Proof.
  unfold hasClientsNotSources. rewrite bool_decide_eq_false. unfold map_Exists.
  split.
  - intros H x state Hx. destruct (decide (state = clientStatePreRemove)); [by left|].
    destruct (decide (sourceClient x = source s)); [by right|].
    exfalso. apply H. eauto.
  - intros H (x & state & Hx & Hne & Hsrc). destruct (H x state Hx); done.
Qed.

Lemma inv_cmd_ext s s' : cmdView s' = cmdView s -> inv_cmd s -> inv_cmd s'.
Proof.
  unfold cmdView, inv_cmd, inv_cmdClose, inv_cmdPending. intros E [H1 H2].
  injection E as E1 E2 E3 E4 E5 E6. rewrite E1, E2, E3, E4, E5, E6. done.
Qed.

Ltac cmd_frame :=
  apply inv_cmd_ext; unfold cmdView; simpl; autorewrite with sched;
  try reflexivity.

Lemma cmdDisarmed_inv_cmd s : cmdDisarmed s -> inv_cmd s.
Proof. intros [H1 H2]. split; intros H; congruence. Qed.

Lemma cmdDisarmed_ext s s' :
  runOnDemandCloseTimerStarted s' = runOnDemandCloseTimerStarted s ->
  runOnDemandCloseTimer s' = runOnDemandCloseTimer s ->
  cmdDisarmed s -> cmdDisarmed s'.
Proof. unfold cmdDisarmed. intros -> ->. done. Qed.

Lemma scheduleAll_cmdView s :
  runOnDemandCloseTimerStarted s = true \/
  RunOnDemand conf = "" \/ onDemandCmd s = None \/
  sourceState s = sourceStateWaitingDescribe \/
  hasClientsNotSources s = true ->
  cmdView (scheduleAll s) = cmdView s.
Proof.
  intros H. unfold scheduleAll, scheduleClose, scheduleRunOnDemandClose,
    scheduleSourceClose, hasClientsNotSources in *.
  repeat case_match; simpl in *; try reflexivity; exfalso;
    repeat match goal with
    | H : _ || _ = false |- _ => apply orb_false_iff in H as [? ?]
    | H : bool_decide _ = false |- _ => apply bool_decide_eq_false in H
    end;
    destruct H as [H|[H|[H|[H|H]]]]; try congruence;
    apply bool_decide_eq_true in H; done.
Qed.

Lemma scheduleAll_inv_cmd s : inv_cmd s -> inv_cmd (scheduleAll s).
Proof.
  intros Hinv.
  destruct (decide (runOnDemandCloseTimerStarted s = true \/
                    RunOnDemand conf = "" \/ onDemandCmd s = None \/
                    sourceState s = sourceStateWaitingDescribe \/
                    hasClientsNotSources s = true)) as [H|H].
  { revert Hinv. apply inv_cmd_ext. by apply scheduleAll_cmdView. }
  assert (H1 : runOnDemandCloseTimerStarted s <> true) by tauto.
  assert (H2 : RunOnDemand conf <> "") by tauto.
  assert (H3 : onDemandCmd s <> None) by tauto.
  assert (H4 : sourceState s <> sourceStateWaitingDescribe) by tauto.
  assert (H5 : hasClientsNotSources s = false)
    by (apply not_true_is_false; tauto).
  clear H. rewrite hasClientsNotSources_false in H5.
  assert (E : clients (scheduleAll s) = clients s /\
              source (scheduleAll s) = source s /\
              sourceState (scheduleAll s) = sourceState s /\
              onDemandCmd (scheduleAll s) = onDemandCmd s)
    by (by autorewrite with sched).
  destruct E as (E1 & E2 & E3 & E4).
  split.
  - intros _. rewrite E1, E2, E3, E4. done.
  - intros _. unfold scheduleAll, scheduleClose, scheduleRunOnDemandClose,
      scheduleSourceClose. repeat case_match; simpl in *; try done;
      repeat match goal with
      | H : _ || _ = true |- _ => apply orb_true_iff in H as [H|H]
      | H : bool_decide _ = true |- _ => apply bool_decide_eq_true in H
      end; try done;
      match goal with H : hasClientsNotSources _ = true |- _ =>
        exfalso; apply not_false_iff_true in H; apply H;
        apply hasClientsNotSources_false; simpl; exact H5 end.
Qed.

Lemma inv_cmd_mark c s :
  inv_cmd s -> inv_cmd (set_clients (<[c := clientStatePreRemove]> (clients s)) s).
Proof.
  intros [H1 H2]. split; [|done]. intros Hst. simpl in *.
  destruct (H1 Hst) as (? & ? & Hcl & ?). repeat split; try done.
  intros x st Hx. destruct (decide (x = c)) as [->|Hne].
  - rewrite lookup_insert_eq in Hx. left. congruence.
  - rewrite lookup_insert_ne in Hx by done. eauto.
Qed.

Lemma removeClientFuel_inv_cmd fuel c s s' :
  inv_cmd s -> removeClientFuel fuel c s = Ok s' -> inv_cmd s'.
Proof.
  apply removeClientFuel_preserves; clear.
  - apply inv_cmd_mark.
  - intros c n s. by cmd_frame.
  - intros n s [H1 H2]. split; [|done]. intros Hst. simpl in *.
    destruct (H1 Hst) as (? & ? & ? & ?). done.
  - intros n s. by cmd_frame.
  - intros c s. by cmd_frame.
  - intros c s [H1 H2] Hsrc Hc. split; [|done]. intros Hst. simpl in *.
    destruct (H1 Hst) as (? & ? & Hcl & ?). repeat split; try done.
    intros x st Hx. left. destruct (Hcl x st Hx) as [?|E]; [done|].
    rewrite Hsrc in E. simplify_eq. congruence.
  - apply scheduleAll_inv_cmd.
Qed.

Lemma stable_inv_cmd : removalStable inv_cmd.
Proof.
  constructor.
  - intros c s s' Hinv Hrun. eapply removeClientFuel_inv_cmd; eauto.
  - intros o s. by cmd_frame.
  - intros n s. by cmd_frame.
  - apply scheduleAll_inv_cmd.
Qed.

Lemma inv_cmd_sourceState state s :
  state <> sourceStateWaitingDescribe ->
  inv_cmd s -> inv_cmd (set_sourceState state s).
Proof.
  intros Hne [H1 H2]. split; [|done]. intros Hst. simpl in *.
  destruct (H1 Hst) as (? & ? & ? & ?). done.
Qed.

Lemma onSourceSetReady_inv_cmd s s' :
  inv_cmd s -> onSourceSetReady s = Ok s' -> inv_cmd s'.
Proof.
  intros Hinv Hrun. unfold onSourceSetReady in Hrun. cbv zeta in Hrun. inv_res.
  apply scheduleAll_inv_cmd.
  match goal with Hs : forRange _ _ = Ok _ |- _ =>
    refine (replyLoop_stable inv_cmd _ _ _ stable_inv_cmd _ Hs) end.
  apply inv_cmd_sourceState; [done|]. revert Hinv. case_decide; [|done].
  by cmd_frame.
Qed.

Lemma teardown_cmdView s s' :
  teardown s = Ok s' ->
  runOnDemandCloseTimer s' = timerEmpty /\
  runOnDemandCloseTimerStarted s' = runOnDemandCloseTimerStarted s /\
  onDemandCmd s' = onDemandCmd s /\ clients s' = clients s /\
  source s' = source s /\ sourceState s' = sourceState s.
Proof.
  unfold teardown. intros Hrun. cbv zeta in Hrun. inv_res.
  match goal with H : forRange _ ?s0 = Ok _ |- _ =>
    remember s0 as u eqn:Hu; rename H into Hloop
  end.
  assert (H0 : runOnDemandCloseTimer u = timerEmpty /\
               runOnDemandCloseTimerStarted u = runOnDemandCloseTimerStarted s /\
               onDemandCmd u = onDemandCmd s /\ clients u = clients s /\
               source u = source s /\ sourceState u = sourceState s).
  { subst u. by repeat case_match. }
  clear Hu. simpl.
  eapply (forRange_inv (fun u =>
            runOnDemandCloseTimer u = timerEmpty /\
            runOnDemandCloseTimerStarted u = runOnDemandCloseTimerStarted s /\
            onDemandCmd u = onDemandCmd s /\ clients u = clients s /\
            source u = source s /\ sourceState u = sourceState s));
    [| |exact Hloop].
  - intros c state v v' Hv Hc Hb. simpl in Hb.
    case_decide; inv_res; [|done]. by destruct state.
  - done.
Qed.

Lemma teardown_inv_cmd s s' : inv_cmd s -> teardown s = Ok s' -> inv_cmd s'.
Proof.
  intros [H1 H2] Hrun.
  destruct (teardown_cmdView _ _ Hrun) as (E1 & E2 & E3 & E4 & E5 & E6).
  split.
  - unfold inv_cmdClose. rewrite E2, E3, E4, E5, E6. done.
  - intros Hp. rewrite E1 in Hp. done.
Qed.

Lemma prevent_cmdDisarmed s :
  inv_cmd s -> cmdDisarmed (preventRunOnDemandClose (preventSourceClose s)).
Proof.
  intros [H1 H2]. unfold preventRunOnDemandClose, preventSourceClose, cmdDisarmed.
  unfold inv_cmdPending in H2.
  repeat case_match; simpl in *; split; try done;
    destruct (timerIsPending (runOnDemandCloseTimer s)); try done;
    by rewrite H2 in *.
Qed.

Lemma describePrelude_cmdDisarmed s : inv_cmd s -> cmdDisarmed (describePrelude s).
Proof.
  intros Hinv. apply prevent_cmdDisarmed in Hinv. unfold describePrelude.
  revert Hinv. apply cmdDisarmed_ext;
    unfold startOnDemandCmd, startOnDemandSource, startExternalSource, paLog;
    by repeat case_match.
Qed.

Lemma addClient_cmdDisarmed c state s s' :
  cmdDisarmed s -> addClient c state s = Ok s' -> cmdDisarmed s'.
Proof.
  intros H Hrun. unfold addClient in Hrun. case_match; inv_res. done.
Qed.

Lemma handle_inv_cmd ev s s' :
  Inv s -> inv_cmd s -> handle ev s = Ok s' -> inv_cmd s'.
Proof.
  intros HI Hinv Hrun. destruct ev; simpl in Hrun.
  - (* describe timer *)
    inv_res. apply scheduleAll_inv_cmd. apply inv_cmd_sourceState; [done|].
    match goal with Hs : forRange _ _ = Ok _ |- _ =>
      refine (replyLoop_stable inv_cmd _ _ _ stable_inv_cmd _ Hs) end.
    revert Hinv. by cmd_frame.
  - (* source close timer *)
    destruct (isSourceExternal (source s)) eqn:Hext; [|discriminate]. inv_res.
    destruct Hinv as [H1 H2]. split.
    + intros Hst. autorewrite with sched in *. simpl in *.
      unfold scheduleClose in Hst.
      assert (Hst' : runOnDemandCloseTimerStarted s = true)
        by (revert Hst; by repeat case_match).
      destruct (H1 Hst') as (? & ? & Hcl & ?). repeat split; try done.
      intros x st Hx. left. destruct (Hcl x st Hx) as [?|E]; [done|].
      rewrite <- E in Hext. done.
    + unfold inv_cmdPending, scheduleClose in *. by repeat case_match.
  - (* run on demand close timer *)
    destruct (onDemandCmd s); [|discriminate]. inv_res.
    apply cmdDisarmed_inv_cmd. unfold cmdDisarmed, scheduleClose.
    by repeat case_match.
  - (* close timer *)
    eapply teardown_inv_cmd; [|exact Hrun]. revert Hinv. by cmd_frame.
  - (* source set ready *)
    eapply onSourceSetReady_inv_cmd; [|exact Hrun]. revert Hinv. by cmd_frame.
  - eapply (onSourceSetNotReady_stable inv_cmd);
      [apply stable_inv_cmd| |exact Hrun]. by apply inv_cmd_sourceState.
  - (* describe *)
    destruct (clients s !! c); [inv_res; revert Hinv; by cmd_frame|].
    unfold onClientDescribe in Hrun. cbv zeta in Hrun.
    fold (describePrelude (emit (DescribeRes c None) s)) in Hrun.
    assert (H4 : cmdDisarmed (describePrelude (emit (DescribeRes c None) s))).
    { apply describePrelude_cmdDisarmed. revert Hinv. by cmd_frame. }
    set (s4 := describePrelude _) in *. clearbody s4.
    assert (Himm : forall cb,
              (s ← addClient c clientStatePreRemove s4;
               s ← removeClient c s; Ok (emit (cb s) s)) = Ok s' ->
              inv_cmd s').
    { intros cb Hb. inv_res. apply (rs_emit _ stable_inv_cmd).
      eapply (rs_remove _ stable_inv_cmd); [|eassumption].
      apply cmdDisarmed_inv_cmd. by eapply addClient_cmdDisarmed. }
    case_decide.
    + by apply (Himm (fun s => OnPathDescribeData c None (SourceRedirect conf) None)).
    + destruct (sourceState s4).
      * by apply (Himm (fun s => OnPathDescribeData c None "" (Some errNoOnePublishing))).
      * apply cmdDisarmed_inv_cmd. by eapply addClient_cmdDisarmed.
      * by apply (Himm (fun s => OnPathDescribeData c (sourceSdp s) "" None)).
  - (* setup play *)
    inv_res. destruct t as [err t]. inv_res. apply (rs_emit _ stable_inv_cmd).
    match goal with Hs : onClientSetupPlay _ _ _ = _ |- _ =>
      unfold onClientSetupPlay in Hs; cbv zeta in Hs;
      repeat case_decide; inv_res; try done;
      destruct (clients s !! c); inv_res; try done
    end.
    apply cmdDisarmed_inv_cmd. eapply addClient_cmdDisarmed; [|eassumption].
    by apply prevent_cmdDisarmed.
  - (* play *)
    inv_res. apply (rs_emit _ stable_inv_cmd). unfold onClientPlay.
    destruct (clients s !! c) as [state|] eqn:Hc; [|done].
    case_decide as Hst; [done|]. try apply dec_stable in Hst. subst state.
    cbv zeta. destruct Hinv as [H1 H2]. split; [|done]. intros Hs. simpl in *.
    destruct (H1 Hs) as (? & ? & Hcl & ?). repeat split; try done.
    intros x st Hx. destruct (decide (x = c)) as [->|Hne].
    + right. by destruct (Hcl c _ Hc).
    + rewrite lookup_insert_ne in Hx by done. eauto.
  - (* announce *)
    inv_res. destruct t as [err t]. inv_res. apply (rs_emit _ stable_inv_cmd).
    match goal with Hs : onClientAnnounce _ _ _ = _ |- _ =>
      unfold onClientAnnounce in Hs; cbv zeta in Hs;
      destruct (clients s !! c) eqn:Hc; inv_res; try done;
      destruct (bool_decide (source s <> sourceNil) || hasExternalSource) eqn:Hb;
      inv_res; try done
    end.
    apply orb_false_iff in Hb as [Hb _]. apply bool_decide_eq_false in Hb.
    apply dec_stable in Hb.
    match goal with Ha : addClient _ _ _ = Ok _ |- _ =>
      unfold addClient in Ha; rewrite Hc in Ha; inv_res end.
    destruct Hinv as [H1 H2]. split; [|done]. intros Hs. simpl in *.
    destruct (H1 Hs) as (? & ? & Hcl & ?). repeat split; try done.
    intros x st Hx. destruct (decide (x = c)) as [->|Hne]; [by right|].
    rewrite lookup_insert_ne in Hx by done. left.
    destruct (Hcl x st Hx) as [?|E]; [done|]. rewrite Hb in E. done.
  - (* record *)
    inv_res. apply (rs_emit _ stable_inv_cmd).
    match goal with Hs : onClientRecord _ _ = _ |- _ =>
      unfold onClientRecord in Hs;
      destruct (clients s !! c) as [state|] eqn:Hc; inv_res; try done;
      case_decide as Hst; inv_res; try done;
      eapply onSourceSetReady_inv_cmd; [|exact Hs]
    end.
    try apply dec_stable in Hst. subst state.
    destruct Hinv as [H1 H2]. split; [|done]. intros Hs. simpl in *.
    destruct (H1 Hs) as (? & ? & Hcl & ?). repeat split; try done.
    intros x st Hx. destruct (decide (x = c)) as [->|Hne].
    + right. by destruct (Hcl c _ Hc).
    + rewrite lookup_insert_ne in Hx by done. eauto.
  - (* remove *)
    destruct (clients s !! c) as [state|] eqn:Hc;
      [|inv_res; revert Hinv; by cmd_frame].
    inv_res. apply (rs_emit _ stable_inv_cmd).
    assert (Ht : inv_cmd t).
    { case_decide; inv_res; [|done]. by eapply (rs_remove _ stable_inv_cmd). }
    destruct Ht as [H1 H2]. split; [|done]. intros Hs. simpl in *.
    destruct (H1 Hs) as (? & ? & Hcl & ?). repeat split; try done.
    intros x st Hx. apply lookup_delete_Some in Hx as [_ Hx]. eauto.
  - by eapply teardown_inv_cmd.
Qed.

Lemma start_inv_cmd : inv_cmd start.
Proof.
  apply cmdDisarmed_inv_cmd. unfold cmdDisarmed, start, startExternalSource, paLog.
  by repeat case_match.
Qed.

Lemma reachable_inv_cmd s : reachable s -> inv_cmd s.
Proof.
  intros [evs Hrun]. unfold run in Hrun.
  pose proof start_Inv as HI. pose proof start_inv_cmd as H0.
  revert HI H0 Hrun. generalize start.
  induction evs as [|ev evs IH]; intros u HI Hu Hrun.
  - simpl in Hrun. by inv_res.
  - simpl in Hrun. inv_res. eapply IH; [| |done].
    + by eapply step_Inv.
    + match goal with H : step _ _ = Ok _ |- _ =>
        unfold step in H; destruct (ready u ev); inv_res; [|done];
        by eapply handle_inv_cmd end.
Qed.

(** In every reachable state the close timer of the on-demand command is
    armed (its flag is set, or the timer itself is still to tick) only if
    [RunOnDemand] is set, the command is running, every attached client is
    marked [PreRemove] or is the source, and the source state is not
    [WaitingDescribe]; so it is never armed while a reader is attached. *)
Theorem on_demand_close_timer_armed s :
  reachable s ->
  (runOnDemandCloseTimerStarted s = true \/
   timerIsPending (runOnDemandCloseTimer s) = true ->
   RunOnDemand conf <> "" /\ onDemandCmd s <> None /\
   (forall c state, clients s !! c = Some state ->
      state = clientStatePreRemove \/ source s = sourceClient c) /\
   sourceState s <> sourceStateWaitingDescribe) /\
  (forall c state,
     clients s !! c = Some state ->
     state = clientStateWaitingDescribe \/ state = clientStatePrePlay \/
     state = clientStatePlay ->
     runOnDemandCloseTimerStarted s = false /\
     timerIsPending (runOnDemandCloseTimer s) = false).
Proof.
  intros Hreach. destruct (reachable_inv_cmd s Hreach) as [H1 H2].
  apply reachable_Inv in Hreach. destruct Hreach as [_ _ Hsrc _ _ _].
  assert (Hmain : runOnDemandCloseTimerStarted s = true \/
            timerIsPending (runOnDemandCloseTimer s) = true ->
            RunOnDemand conf <> "" /\ onDemandCmd s <> None /\
            (forall c state, clients s !! c = Some state ->
               state = clientStatePreRemove \/ source s = sourceClient c) /\
            sourceState s <> sourceStateWaitingDescribe).
  { intros Harmed.
    assert (Hst : runOnDemandCloseTimerStarted s = true)
      by (destruct Harmed; auto).
    destruct (H1 Hst) as (? & ? & Hcl & ?). repeat split; try done.
    intros c st Hc. destruct (Hcl c st Hc); auto. }
  split; [exact Hmain|].
  intros c state Hc Hst.
  destruct (runOnDemandCloseTimerStarted s) eqn:E1;
    destruct (timerIsPending (runOnDemandCloseTimer s)) eqn:E2; try done;
    exfalso;
    (destruct Hmain as (_ & _ & Hcl & _); [auto|]);
    (destruct (Hcl c state Hc) as [->|Es];
      [by destruct Hst as [?|[?|?]]|]);
    destruct (Hsrc c Es) as (st & Hst' & Hp); rewrite Hc in Hst';
    simplify_eq; by destruct Hst as [->|[->| ->]], Hp.
Qed.

(** *** Panics *)

Lemma bind_Panic {A B} (r : result A) (k : A -> result B) msg :
  r ≫= k = Panic msg <-> r = Panic msg \/ exists a, r = Ok a /\ k a = Panic msg.
Proof.
  destruct r as [a|m|]; simpl.
  - split; [intros H; right; eauto|].
    intros [H|(a' & Ha & Hk)]; [discriminate|congruence].
  - split; [intros H; left; congruence|].
    intros [H|(a' & Ha & Hk)]; [congruence|discriminate].
  - split; [discriminate|].
    intros [H|(a' & Ha & Hk)]; discriminate.
Qed.

Lemma rangeClients_panic (I : Path -> Prop) (Q : string -> Prop) body ks s msg :
  (forall c state t t',
     I t -> clients t !! c = Some state -> body c state t = Ok t' -> I t') ->
  (forall c state t m,
     I t -> clients t !! c = Some state -> body c state t = Panic m -> Q m) ->
  I s -> rangeClients body ks s = Panic msg -> Q msg.
Proof.
  intros Hok Hpanic. revert s.
  induction ks as [|c ks IH]; intros s Hs Hrun; simpl in Hrun; [discriminate|].
  destruct (clients s !! c) as [state|] eqn:Hc; [|eauto].
  apply bind_Panic in Hrun as [Hrun|(t & Ht & Hrun)]; eauto.
Qed.

Lemma forRange_panic (I : Path -> Prop) (Q : string -> Prop) body s msg :
  (forall c state t t',
     I t -> clients t !! c = Some state -> body c state t = Ok t' -> I t') ->
  (forall c state t m,
     I t -> clients t !! c = Some state -> body c state t = Panic m -> Q m) ->
  I (set_rangeSeq (S (rangeSeq s)) s) -> forRange body s = Panic msg -> Q msg.
Proof. unfold forRange. intros Hok Hpanic Hs Hrun. eapply rangeClients_panic; eauto. Qed.

(** The only panic [removeClient] can end in is the one of
    [onSourceSetNotReady]. *)
Lemma removeClientFuel_panic fuel : forall c s msg,
  removeClientFuel fuel c s = Panic msg -> msg = "not possible".
Proof.
  induction fuel as [|fuel IH]; intros c s msg Hrun; [discriminate|].
  simpl in Hrun.
  apply bind_Panic in Hrun as [Hrun|(t & Ht & Hrun)].
  - destruct (default clientStateWaitingDescribe (clients s !! c)); try discriminate.
    unfold onSourceSetNotReadyWith in Hrun. revert Hrun.
    apply (forRange_panic (fun _ => True) (fun m => m = "not possible")); [done| |done].
    intros oc state u m _ _ Hb. repeat case_decide; try discriminate.
    + by simplify_eq.
    + apply bind_Panic in Hb as [Hb|(a & _ & Hb)]; [eauto|discriminate].
  - apply bind_Panic in Hrun as [Hrun|(a & _ & Hrun)]; [|discriminate].
    case_decide; [|discriminate]. revert Hrun.
    apply (forRange_panic (fun _ => True) (fun m => m = "not possible")); [done| |done].
    intros oc state u m _ _ Hb. case_decide; try discriminate.
    apply bind_Panic in Hb as [Hb|(a & _ & Hb)]; [eauto|discriminate].
Qed.

Lemma removeClient_panic c s msg :
  removeClient c s = Panic msg -> msg = "not possible".
Proof. apply removeClientFuel_panic. Qed.

Lemma replyLoop_panic (cb : client -> Path -> output) s msg :
  forRange (fun c state s =>
      if decide (state = clientStateWaitingDescribe)
      then s ← removeClient c s; Ok (emit (cb c s) s)
      else Ok s) s = Panic msg ->
  msg = "not possible".
Proof.
  apply (forRange_panic (fun _ => True) (fun m => m = "not possible")); [done| |done].
  intros c state u m _ _ Hb. case_decide; [|discriminate].
  apply bind_Panic in Hb as [Hb|(a & _ & Hb)]; [|discriminate].
  by eapply removeClient_panic.
Qed.

Lemma onSourceSetReady_panic s msg :
  onSourceSetReady s = Panic msg -> msg = "not possible".
Proof.
  unfold onSourceSetReady. cbv zeta. intros Hrun.
  apply bind_Panic in Hrun as [Hrun|(a & _ & Hrun)]; [|discriminate].
  by eapply (replyLoop_panic
               (fun c s => OnPathDescribeData c (sourceSdp s) "" None)).
Qed.

Lemma onSourceSetNotReady_panic s msg :
  onSourceSetNotReady s = Panic msg -> msg = "not possible".
Proof.
  unfold onSourceSetNotReady, onSourceSetNotReadyWith.
  apply (forRange_panic (fun _ => True) (fun m => m = "not possible")); [done| |done].
  intros oc state u m _ _ Hb. repeat case_decide; try discriminate.
  - by simplify_eq.
  - apply bind_Panic in Hb as [Hb|(a & _ & Hb)]; [|discriminate].
    by eapply removeClient_panic.
Qed.

Lemma teardown_panic s msg : teardown s <> Panic msg.
Proof.
  unfold teardown. cbv zeta. intros Hrun.
  apply bind_Panic in Hrun as [Hrun|(a & _ & Hrun)]; [|discriminate].
  revert Hrun. apply (forRange_panic (fun _ => True) (fun _ => False)); [done| |done].
  intros c state u m _ _ Hb. by case_decide.
Qed.

Lemma addClient_panic c state s msg :
  clients s !! c = None -> addClient c state s <> Panic msg.
Proof. intros Hc. unfold addClient. by rewrite Hc. Qed.

Lemma addClient_absent c state s s' x :
  addClient c state s = Ok s' -> clients s' !! x = None -> clients s !! x = None.
Proof.
  unfold addClient. intros Hrun Hx. case_match; inv_res. simpl in Hx.
  by apply lookup_insert_None in Hx as [Hx _].
Qed.

Lemma onClientDescribe_panic c s msg :
  clients s !! c = None ->
  onClientDescribe c s = Panic msg -> msg = "not possible".
Proof.
  intros Hc Hrun. destruct (describePrelude_frame s) as (E1 & _).
  unfold onClientDescribe in Hrun. cbv zeta in Hrun.
  fold (describePrelude s) in Hrun.
  set (d := describePrelude s) in *. clearbody d. rewrite <- E1 in Hc.
  assert (Hgo : forall cb : Path -> output,
            (s ← addClient c clientStatePreRemove d;
             s ← removeClient c s; Ok (emit (cb s) s)) = Panic msg ->
            msg = "not possible").
  { clear Hrun. intros cb H.
    apply bind_Panic in H as [H|(a & _ & H)]; [by apply addClient_panic in H|].
    apply bind_Panic in H as [H|(b & _ & H)]; [|discriminate].
    by eapply removeClient_panic. }
  case_decide;
    [by apply (Hgo (fun _ => OnPathDescribeData c None (SourceRedirect conf) None))|].
  destruct (sourceState d);
    [by apply (Hgo (fun _ => OnPathDescribeData c None "" (Some errNoOnePublishing)))
    |by apply addClient_panic in Hrun
    |by apply (Hgo (fun u => OnPathDescribeData c (sourceSdp u) "" None))].
Qed.

Lemma sourceCloseTimer_external s :
  Inv s -> inv_pending s -> timerIsPending (sourceCloseTimer s) = true ->
  isSourceExternal (source s) = true.
Proof.
  intros [_ _ _ Hext Hsc _] Hp Ht. destruct (Hsc (Hp Ht)) as (He & _ & Hn & _).
  by destruct (Hext He).
Qed.

(** The panics of a turn of the loop: only the one of [onSourceSetNotReady]
    can happen.  [addClient] is only called for a client that is not in the
    map, the source close timer only ticks while the source is an external
    one, and the close timer of the command only ticks while the command
    runs. *)
Lemma step_panic ev s msg :
  Inv s -> inv_pending s -> inv_cmd s ->
  step s ev = Panic msg -> msg = "not possible".
Proof.
  intros HI Hp [Hc1 Hc2] Hrun. unfold step in Hrun.
  destruct (ready s ev) eqn:Hr; [|discriminate].
  unfold ready in Hr. apply andb_true_iff in Hr as [_ Hr].
  destruct ev; simpl in Hrun.
  - apply bind_Panic in Hrun as [Hrun|(a & _ & Hrun)]; [|discriminate].
    by eapply (replyLoop_panic
                 (fun c _ => OnPathDescribeData c None "" (Some errTimedOut))).
  - by rewrite (sourceCloseTimer_external s HI Hp Hr) in Hrun.
  - destruct (Hc1 (Hc2 Hr)) as (_ & Hcmd & _).
    by destruct (onDemandCmd s).
  - by apply teardown_panic in Hrun.
  - by eapply onSourceSetReady_panic.
  - by eapply onSourceSetNotReady_panic.
  - destruct (clients s !! c) eqn:Hc; [discriminate|].
    by eapply (onClientDescribe_panic c (emit (DescribeRes c None) s)).
  - apply bind_Panic in Hrun as [Hrun|([err a] & _ & Hrun)]; [|discriminate].
    unfold onClientSetupPlay in Hrun. repeat case_decide; try discriminate.
    destruct (clients s !! c) eqn:Hc; [discriminate|]. cbv zeta in Hrun.
    apply bind_Panic in Hrun as [Hrun|(a & _ & Hrun)]; [|discriminate].
    apply addClient_panic in Hrun; [done|].
    pose proof (prevent_frame s) as E. unfold untouched in E.
    injection E as E _. by rewrite E.
  - discriminate.
  - apply bind_Panic in Hrun as [Hrun|([err a] & _ & Hrun)]; [|discriminate].
    unfold onClientAnnounce in Hrun.
    destruct (clients s !! c) eqn:Hc; [discriminate|].
    case_match; [discriminate|].
    apply bind_Panic in Hrun as [Hrun|(a & _ & Hrun)]; [|discriminate].
    by apply addClient_panic in Hrun.
  - apply bind_Panic in Hrun as [Hrun|(a & _ & Hrun)]; [|discriminate].
    unfold onClientRecord in Hrun. repeat case_match; try discriminate.
    by eapply onSourceSetReady_panic.
  - destruct (clients s !! c) eqn:Hc; [|discriminate].
    apply bind_Panic in Hrun as [Hrun|(a & _ & Hrun)]; [|discriminate].
    case_decide; [|discriminate]. by eapply removeClient_panic.
  - by apply teardown_panic in Hrun.
Qed.

(** A run of the path never panics with "client already added", with a
    failed type assertion on the source or with a nil command: the only
    panic it can end in is the "not possible" of [onSourceSetNotReady]. *)
Theorem only_panic_is_not_possible evs msg :
  run evs = Panic msg -> msg = "not possible".
Proof.
  unfold run. pose proof start_Inv as HI. pose proof start_inv_pending as Hp.
  pose proof start_inv_cmd as Hc. revert HI Hp Hc. generalize start.
  induction evs as [|ev evs IH]; intros u HI Hp Hc Hrun; simpl in Hrun;
    [discriminate|].
  apply bind_Panic in Hrun as [Hrun|(a & Ha & Hrun)].
  - by eapply step_panic.
  - eapply (IH a); [| | |done].
    + by eapply step_Inv.
    + unfold step in Ha. destruct (ready u ev); inv_res; [|done].
      by eapply handle_inv_pending.
    + unfold step in Ha. destruct (ready u ev); inv_res; [|done].
      by eapply handle_inv_cmd.
Qed.

(** *** Runs that cannot panic *)

Lemma evolves_noPublisher s s' : evolves s s' -> noPublisher s -> noPublisher s'.
Proof.
  intros He H x st Hx Hp.
  destruct (evolves_lookup_Some _ _ _ _ He Hx) as [Hs|[-> _]].
  - by eapply H.
  - by destruct Hp.
Qed.

Lemma evolves_noneWaiting s s' : evolves s s' -> noneWaiting s -> noneWaiting s'.
Proof. intros He H x. eapply evolves_not_waiting; eauto. Qed.

Lemma evolves_calm s s' : evolves s s' -> calm s -> calm s'.
Proof.
  intros He [H|H]; [left; by eapply evolves_noneWaiting
                   |right; by eapply evolves_noPublisher].
Qed.

Lemma calm_ext s s' : clients s' = clients s -> calm s -> calm s'.
Proof. unfold calm, noneWaiting, noPublisher. by intros ->. Qed.

Lemma calm_mark c s :
  calm s -> calm (set_clients (<[c := clientStatePreRemove]> (clients s)) s).
Proof.
  intros [H|H]; [left|right].
  - intros x. simpl. destruct (decide (x = c)) as [->|Hne].
    + by rewrite lookup_insert_eq.
    + rewrite lookup_insert_ne by done. apply H.
  - intros x st. simpl. destruct (decide (x = c)) as [->|Hne].
    + rewrite lookup_insert_eq. intros [= <-] [?|?]; done.
    + rewrite lookup_insert_ne by done. apply H.
Qed.

Lemma removeClientFuel_calm fuel : forall c s msg,
  calm s -> removeClientFuel fuel c s <> Panic msg.
Proof.
  induction fuel as [|fuel IH]; intros c s msg Hcalm Hrun; [discriminate|].
  simpl in Hrun.
  assert (Hbody : forall oc state u u',
            clients u !! oc = Some state ->
            (s ← removeClientFuel fuel oc u; Ok (emit (OnPathClientClose oc) s))
              = Ok u' -> evolves u u').
  { intros oc state u u' Hoc Hb. inv_res.
    eapply evolves_trans; [by eapply removeClientFuel_evolves_present|].
    apply evolves_emit. }
  set (s1 := set_clients (<[c := clientStatePreRemove]> (clients s)) s) in *.
  assert (H1 : calm s1) by (by apply calm_mark).
  apply bind_Panic in Hrun as [Hrun|(t & Ht & Hrun)].
  - destruct (clients s !! c) as [state|] eqn:Hc; simpl in Hrun; [|discriminate].
    destruct state; try discriminate.
    assert (Hnw : noneWaiting s1).
    { destruct Hcalm as [Hcalm|Hcalm];
        [|exfalso; eapply (Hcalm c); [exact Hc|by right]].
      intros x. unfold s1. simpl. destruct (decide (x = c)) as [->|Hne].
      - by rewrite lookup_insert_eq.
      - rewrite lookup_insert_ne by done. apply Hcalm. }
    unfold onSourceSetNotReadyWith in Hrun. revert Hrun.
    apply (forRange_panic noneWaiting (fun _ => False)); [| |done].
    + intros oc st u u' Hu Hoc Hb. repeat case_decide; inv_res; try done.
      eapply evolves_noneWaiting; [|exact Hu].
      eapply (Hbody oc st u). { done. } by rewrite Hstep.
    + intros oc st u m Hu Hoc Hb. repeat case_decide; try discriminate.
      * subst st. by apply Hu in Hoc.
      * apply bind_Panic in Hb as [Hb|(a & _ & Hb)]; [|discriminate].
        eapply IH; [|exact Hb]. by left.
  - apply bind_Panic in Hrun as [Hrun|(a & _ & Hrun)]; [|discriminate].
    case_decide; [|discriminate].
    assert (Hcalmt : calm t).
    { destruct (clients s !! c) as [state|] eqn:Hc; simpl in Ht.
      - destruct state; inv_res; try done.
        eapply evolves_calm; [|exact H1].
        eapply evolves_trans;
          [|eapply onSourceSetNotReadyWith_evolves; [|exact Ht]].
        + by apply evolves_same.
        + intros oc st u u' Hoc Hb.
          by eapply removeClientFuel_evolves_present.
      - by inv_res. }
    revert Hrun.
    apply (forRange_panic calm (fun _ => False)).
    + intros oc st u u' Hu Hoc Hb. case_decide; inv_res; [|done].
      eapply evolves_calm; [|exact Hu].
      eapply (Hbody oc st u). { done. } by rewrite Hstep.
    + intros oc st u m Hu Hoc Hb. case_decide; try discriminate.
      apply bind_Panic in Hb as [Hb|(b & _ & Hb)]; [|discriminate].
      by eapply IH.
    + revert Hcalmt. by apply calm_ext.
Qed.

Lemma removeClient_calm c s msg : calm s -> removeClient c s <> Panic msg.
Proof. apply removeClientFuel_calm. Qed.

Lemma replyLoop_calm (cb : client -> Path -> output) s msg :
  calm s ->
  forRange (fun c state s =>
      if decide (state = clientStateWaitingDescribe)
      then s ← removeClient c s; Ok (emit (cb c s) s)
      else Ok s) s <> Panic msg.
Proof.
  intros Hcalm Hrun. revert Hrun.
  apply (forRange_panic calm (fun _ => False)).
  - intros c st u u' Hu Hc Hb. case_decide; inv_res; [|done].
    eapply evolves_calm; [|exact Hu].
    eapply evolves_trans; [by eapply removeClient_evolves|apply evolves_emit].
  - intros c st u m Hu Hc Hb. case_decide; [|discriminate].
    apply bind_Panic in Hb as [Hb|(a & _ & Hb)]; [|discriminate].
    by eapply removeClient_calm.
  - revert Hcalm. by apply calm_ext.
Qed.

Lemma onSourceSetReady_calm s msg : calm s -> onSourceSetReady s <> Panic msg.
Proof.
  intros Hcalm Hrun. unfold onSourceSetReady in Hrun. cbv zeta in Hrun.
  apply bind_Panic in Hrun as [Hrun|(a & _ & Hrun)]; [|discriminate].
  revert Hrun.
  apply (replyLoop_calm (fun c s => OnPathDescribeData c (sourceSdp s) "" None)).
  revert Hcalm. apply calm_ext. by case_decide.
Qed.

Lemma onSourceSetNotReady_calm s msg :
  noneWaiting s -> onSourceSetNotReady s <> Panic msg.
Proof.
  intros Hnw Hrun. unfold onSourceSetNotReady, onSourceSetNotReadyWith in Hrun.
  revert Hrun. apply (forRange_panic noneWaiting (fun _ => False)); [| |done].
  - intros c st u u' Hu Hc Hb. repeat case_decide; inv_res; try done.
    eapply evolves_noneWaiting; [|exact Hu].
    eapply evolves_trans; [by eapply removeClient_evolves|apply evolves_emit].
  - intros c st u m Hu Hc Hb. repeat case_decide; try discriminate.
    + subst st. by apply Hu in Hc.
    + apply bind_Panic in Hb as [Hb|(a & _ & Hb)]; [|discriminate].
      eapply removeClient_calm; [|exact Hb]. by left.
Qed.

Lemma calm_insert c state s :
  state <> clientStateWaitingDescribe -> ~ isPublisher state ->
  calm s -> calm (set_clients (<[c := state]> (clients s)) s).
Proof.
  intros Hw Hp [H|H]; [left|right].
  - intros x. simpl. destruct (decide (x = c)) as [->|Hne].
    + rewrite lookup_insert_eq. congruence.
    + rewrite lookup_insert_ne by done. apply H.
  - intros x st. simpl. destruct (decide (x = c)) as [->|Hne].
    + rewrite lookup_insert_eq. by intros [= <-].
    + rewrite lookup_insert_ne by done. apply H.
Qed.

(** A turn of the loop does not reach the panic when no client waits or no
    client publishes, and the signal that the source is not ready does not
    come while a client waits. *)
Lemma handle_calm ev s :
  calm s -> (ev = EvSourceSetNotReady -> noneWaiting s) ->
  handle ev s <> Panic "not possible".
Proof.
  intros Hcalm Hnr Hrun. destruct ev; simpl in Hrun.
  - apply bind_Panic in Hrun as [Hrun|(a & _ & Hrun)]; [|discriminate].
    revert Hrun.
    apply (replyLoop_calm
             (fun c _ => OnPathDescribeData c None "" (Some errTimedOut))).
    revert Hcalm. by apply calm_ext.
  - by case_match.
  - by case_match.
  - by apply teardown_panic in Hrun.
  - revert Hrun. apply onSourceSetReady_calm. revert Hcalm. by apply calm_ext.
  - revert Hrun. by apply onSourceSetNotReady_calm, Hnr.
  - destruct (clients s !! c) eqn:Hc; [discriminate|].
    unfold onClientDescribe in Hrun. cbv zeta in Hrun.
    fold (describePrelude (emit (DescribeRes c None) s)) in Hrun.
    destruct (describePrelude_frame (emit (DescribeRes c None) s)) as (E1 & _).
    set (d := describePrelude _) in *. clearbody d.
    assert (Hd : calm d) by (revert Hcalm; by apply calm_ext).
    assert (Hgo : forall cb : Path -> output,
              (s ← addClient c clientStatePreRemove d;
               s ← removeClient c s; Ok (emit (cb s) s)) <> Panic "not possible").
    { clear Hrun. intros cb H.
      apply bind_Panic in H as [H|(a & Ha & H)];
        [unfold addClient in H; by case_match|].
      apply bind_Panic in H as [H|(b & _ & H)]; [|discriminate].
      revert H. apply removeClient_calm.
      unfold addClient in Ha. case_match; inv_res.
      eapply calm_ext; [|apply (calm_insert c clientStatePreRemove d)]; try done.
      by intros [?|?]. }
    case_decide;
      [by apply (Hgo (fun _ => OnPathDescribeData c None (SourceRedirect conf) None))|].
    destruct (sourceState d);
      [by apply (Hgo (fun _ => OnPathDescribeData c None "" (Some errNoOnePublishing)))
      |unfold addClient in Hrun; by case_match
      |by apply (Hgo (fun u => OnPathDescribeData c (sourceSdp u) "" None))].
  - apply bind_Panic in Hrun as [Hrun|([err a] & _ & Hrun)]; [|discriminate].
    unfold onClientSetupPlay, addClient in Hrun. cbv zeta in Hrun.
    repeat case_decide; try discriminate. by repeat case_match.
  - discriminate.
  - apply bind_Panic in Hrun as [Hrun|([err a] & _ & Hrun)]; [|discriminate].
    unfold onClientAnnounce, addClient in Hrun. cbv zeta in Hrun.
    by repeat case_match.
  - apply bind_Panic in Hrun as [Hrun|(a & _ & Hrun)]; [|discriminate].
    unfold onClientRecord in Hrun.
    destruct (clients s !! c) as [state|] eqn:Hc; [|discriminate].
    case_decide as Hst; [discriminate|]. try apply dec_stable in Hst. subst state.
    cbv zeta in Hrun. revert Hrun. apply onSourceSetReady_calm.
    destruct Hcalm as [H|H]; [|exfalso; eapply (H c); [exact Hc|by left]].
    left. intros x. simpl. destruct (decide (x = c)) as [->|Hne].
    + by rewrite lookup_insert_eq.
    + rewrite lookup_insert_ne by done. apply H.
  - destruct (clients s !! c) eqn:Hc; [|discriminate].
    apply bind_Panic in Hrun as [Hrun|(a & _ & Hrun)]; [|discriminate].
    case_decide; [|discriminate]. by eapply removeClient_calm.
  - by apply teardown_panic in Hrun.
Qed.

Lemma Inv_noPublisher s : hasExternalSource = true -> Inv s -> noPublisher s.
Proof.
  intros Hext [_ Hpub _ He _ _] x st Hx Hp.
  specialize (Hpub x st Hx Hp). destruct (He Hext) as [E|E]; rewrite Hpub in E;
    discriminate.
Qed.

Lemma Inv_noneWaiting s :
  Inv s -> sourceState s <> sourceStateWaitingDescribe -> noneWaiting s.
Proof. intros [Hw _ _ _ _ _] Hst x Hx. by apply Hst, (Hw x). Qed.

(** On a path with neither an external source nor an on-demand command
    nothing awaits the source. *)
Lemma describePrelude_sourceState s :
  hasExternalSource = false -> RunOnDemand conf = "" ->
  sourceState (describePrelude s) = sourceState s.
Proof.
  intros Hext Hcmd. unfold describePrelude, startOnDemandCmd, startOnDemandSource,
    preventRunOnDemandClose, preventSourceClose.
  rewrite Hext, Hcmd. simpl. by repeat case_match.
Qed.

Lemma evolves_settled_state s s' :
  evolves s s' -> sourceState s <> sourceStateWaitingDescribe ->
  sourceState s' <> sourceStateWaitingDescribe.
Proof. intros [_ _ [E|E] _ _ _ _ _ _ _] H; rewrite E; done. Qed.

Lemma onSourceSetReady_settled_state s s' :
  onSourceSetReady s = Ok s' -> sourceState s' <> sourceStateWaitingDescribe.
Proof.
  intros Hrun. unfold onSourceSetReady in Hrun. cbv zeta in Hrun. inv_res.
  autorewrite with sched.
  match goal with H : forRange _ _ = Ok _ |- _ =>
    apply replyLoop_evolves in H; eapply evolves_settled_state; [exact H|] end.
  done.
Qed.

Lemma handle_settled_state ev s s' :
  hasExternalSource = false -> RunOnDemand conf = "" ->
  sourceState s <> sourceStateWaitingDescribe ->
  handle ev s = Ok s' -> sourceState s' <> sourceStateWaitingDescribe.
Proof.
  intros Hext Hcmd Hst Hrun. destruct ev; simpl in Hrun.
  - inv_res. by autorewrite with sched.
  - case_match; inv_res. by autorewrite with sched.
  - case_match; inv_res. by autorewrite with sched.
  - apply teardown_frame in Hrun as (_ & _ & E & _). by rewrite E.
  - by eapply onSourceSetReady_settled_state.
  - apply onSourceSetNotReady_evolves in Hrun.
    by eapply evolves_settled_state.
  - destruct (clients s !! c) eqn:Hc; [by inv_res|].
    unfold onClientDescribe in Hrun. cbv zeta in Hrun.
    fold (describePrelude (emit (DescribeRes c None) s)) in Hrun.
    pose proof (describePrelude_sourceState (emit (DescribeRes c None) s) Hext Hcmd)
      as E.
    set (d := describePrelude _) in *. clearbody d. simpl in E.
    assert (Hgo : forall (cb : Path -> output) u,
              (s ← addClient c clientStatePreRemove d;
               s ← removeClient c s; Ok (emit (cb s) s)) = Ok u ->
              sourceState u <> sourceStateWaitingDescribe).
    { clear Hrun. intros cb u H. inv_res. simpl.
      apply addClient_lookup in Hstep as (_ & Hcl & _ & E2 & _).
      eapply evolves_settled_state;
        [eapply removeClient_evolves; [|exact Hstep0]|].
      - rewrite Hcl. apply lookup_insert_eq.
      - congruence. }
    case_decide;
      [by apply (Hgo (fun _ => OnPathDescribeData c None (SourceRedirect conf) None))|].
    destruct (sourceState d) eqn:Ed;
      [by apply (Hgo (fun _ => OnPathDescribeData c None "" (Some errNoOnePublishing)))
      |congruence
      |by apply (Hgo (fun u => OnPathDescribeData c (sourceSdp u) "" None))].
  - inv_res. destruct t as [err t]. inv_res. simpl.
    match goal with H : onClientSetupPlay _ _ _ = _ |- _ =>
      unfold onClientSetupPlay, addClient, preventRunOnDemandClose,
        preventSourceClose in H; cbv zeta in H;
      repeat case_decide; inv_res; try done;
      repeat case_match; inv_res; done end.
  - inv_res. unfold onClientPlay. by repeat case_match.
  - inv_res. destruct t as [err t]. inv_res. simpl.
    match goal with H : onClientAnnounce _ _ _ = _ |- _ =>
      unfold onClientAnnounce, addClient in H; cbv zeta in H;
      repeat case_match; inv_res; done end.
  - inv_res. simpl.
    match goal with H : onClientRecord _ _ = _ |- _ =>
      unfold onClientRecord in H; repeat case_match; inv_res; try done;
      by eapply onSourceSetReady_settled_state end.
  - destruct (clients s !! c) eqn:Hc; inv_res; [|done]. simpl.
    case_decide; inv_res; [|done].
    eapply evolves_settled_state; [by eapply removeClient_evolves|done].
  - apply teardown_frame in Hrun as (_ & _ & E & _). by rewrite E.
Qed.

Lemma start_settled_state :
  hasExternalSource = false -> sourceState start <> sourceStateWaitingDescribe.
Proof.
  intros Hext. unfold start, startExternalSource, paLog.
  by repeat case_match.
Qed.

(** A turn of the loop returns a state when its panic cannot be reached. *)
Lemma step_returns_state ev s :
  Inv s -> inv_pending s -> inv_cmd s ->
  calm s -> (ev = EvSourceSetNotReady -> noneWaiting s) ->
  exists s', step s ev = Ok s' /\ Inv s' /\ inv_pending s' /\ inv_cmd s'.
Proof.
  intros HI Hp Hc Hcalm Hnr.
  destruct (step s ev) as [s'|msg|] eqn:Hstep.
  - exists s'. split; [done|]. unfold step in Hstep.
    destruct (ready s ev); inv_res; [|done].
    split; [by eapply handle_Inv|].
    split; [by eapply handle_inv_pending|by eapply handle_inv_cmd].
  - exfalso. pose proof (step_panic _ _ _ HI Hp Hc Hstep) as ->.
    unfold step in Hstep. destruct (ready s ev); [|discriminate].
    by eapply handle_calm.
  - exfalso. unfold step in Hstep. destruct (ready s ev); [|discriminate].
    by eapply handle_returns.
Qed.

(** A run returns a state, whatever the events and their order, on a path
    that has an external source, as long as that source does not signal that
    it is not ready, and on a path that has neither an external source nor an
    on-demand command. *)
Theorem run_returns evs :
  (hasExternalSource = true /\ EvSourceSetNotReady ∉ evs) \/
  (hasExternalSource = false /\ RunOnDemand conf = "") ->
  exists s, run evs = Ok s.
Proof.
  intros Hcase. unfold run.
  pose proof start_Inv as HI. pose proof start_inv_pending as Hp.
  pose proof start_inv_cmd as Hc.
  destruct Hcase as [[Hext Hevs]|[Hext Hcmd]].
  - revert HI Hp Hc. generalize start.
    induction evs as [|ev evs IH]; intros u HI Hp Hc; simpl; [eauto|].
    apply not_elem_of_cons in Hevs as [Hev Hevs].
    destruct (step_returns_state ev u HI Hp Hc) as (u' & -> & HI' & Hp' & Hc').
    + right. by apply Inv_noPublisher.
    + intros ->. done.
    + simpl. by apply IH.
  - pose proof (start_settled_state Hext) as Hst. revert HI Hp Hc Hst.
    generalize start.
    induction evs as [|ev evs IH]; intros u HI Hp Hc Hst; simpl; [eauto|].
    pose proof (Inv_noneWaiting u HI Hst) as Hnw.
    destruct (step_returns_state ev u HI Hp Hc) as (u' & Hstep & HI' & Hp' & Hc').
    + by left.
    + done.
    + rewrite Hstep. simpl. apply IH; try done.
      unfold step in Hstep. destruct (ready u ev); inv_res; [|done].
      by eapply handle_settled_state.
Qed.

(** *** The close timer *)

Lemma closeQuiet_trace s s' new :
  closeTimerStarted s' = closeTimerStarted s -> closeTimer s' = closeTimer s ->
  trace s' = trace s ++ new -> OnPathClose ∉ new ->
  closeQuiet s -> closeQuiet s'.
Proof.
  unfold closeQuiet. intros -> -> -> Hnew (H1 & H2 & H3).
  split; [done|]. split; [done|]. rewrite elem_of_app. by intros [?|?].
Qed.

Lemma closeQuiet_ext s s' :
  closeTimerStarted s' = closeTimerStarted s -> closeTimer s' = closeTimer s ->
  trace s' = trace s -> closeQuiet s -> closeQuiet s'.
Proof. unfold closeQuiet. by intros -> -> ->. Qed.

Lemma closeQuiet_emit o s :
  o <> OnPathClose -> closeQuiet s -> closeQuiet (emit o s).
Proof.
  intros Ho. apply (closeQuiet_trace s _ [o]); try done.
  rewrite list_elem_of_singleton. congruence.
Qed.

Lemma scheduleAll_closeQuiet s :
  Regexp conf = None -> closeQuiet s -> closeQuiet (scheduleAll s).
Proof.
  intros Hre. apply closeQuiet_ext; [| |by autorewrite with sched];
    unfold scheduleAll, scheduleClose; rewrite Hre;
    rewrite bool_decide_eq_true_2 by done; rewrite orb_true_r; simpl;
    unfold scheduleRunOnDemandClose, scheduleSourceClose; by repeat case_match.
Qed.

Lemma scheduleClose_closeQuiet s :
  Regexp conf = None -> closeQuiet s -> closeQuiet (scheduleClose s).
Proof.
  intros Hre. unfold scheduleClose. rewrite Hre.
  rewrite bool_decide_eq_true_2 by done. by rewrite orb_true_r.
Qed.

Lemma removeClient_closeQuiet c s s' :
  Regexp conf = None -> closeQuiet s -> removeClient c s = Ok s' -> closeQuiet s'.
Proof.
  intros Hre. unfold removeClient. apply removeClientFuel_preserves; clear - Hre.
  - intros c s. by apply closeQuiet_ext.
  - intros c n s. by apply closeQuiet_ext.
  - intros n s. by apply closeQuiet_ext.
  - intros n s. by apply closeQuiet_ext.
  - intros c s. by apply closeQuiet_emit.
  - intros c s H _ _. revert H. by apply closeQuiet_ext.
  - intros s. by apply scheduleAll_closeQuiet.
Qed.

Lemma replyLoop_closeQuiet (cb : client -> Path -> output) s s' :
  Regexp conf = None -> (forall c u, cb c u <> OnPathClose) ->
  closeQuiet s ->
  forRange (fun c state s =>
      if decide (state = clientStateWaitingDescribe)
      then s ← removeClient c s; Ok (emit (cb c s) s)
      else Ok s) s = Ok s' ->
  closeQuiet s'.
Proof.
  intros Hre Hcb Hq. apply forRange_inv; [|revert Hq; by apply closeQuiet_ext].
  intros c st u u' Hu _ Hb. case_decide; inv_res; [|done].
  apply closeQuiet_emit; [done|]. by eapply removeClient_closeQuiet.
Qed.

Lemma onSourceSetReady_closeQuiet s s' :
  Regexp conf = None -> closeQuiet s -> onSourceSetReady s = Ok s' -> closeQuiet s'.
Proof.
  intros Hre Hq Hrun. unfold onSourceSetReady in Hrun. cbv zeta in Hrun. inv_res.
  apply scheduleAll_closeQuiet; [done|].
  match goal with H : forRange _ _ = Ok _ |- _ =>
    refine (replyLoop_closeQuiet
              (fun c s => OnPathDescribeData c (sourceSdp s) "" None)
              _ _ Hre _ _ H) end; [done|].
  revert Hq. apply closeQuiet_ext; by case_decide.
Qed.

Lemma onSourceSetNotReady_closeQuiet s s' :
  Regexp conf = None -> closeQuiet s -> onSourceSetNotReady s = Ok s' ->
  closeQuiet s'.
Proof.
  intros Hre Hq. unfold onSourceSetNotReady, onSourceSetNotReadyWith.
  apply forRange_inv; [|revert Hq; by apply closeQuiet_ext].
  intros c st u u' Hu _ Hb. repeat case_decide; inv_res; try done.
  apply closeQuiet_emit; [done|]. by eapply removeClient_closeQuiet.
Qed.

Lemma describePrelude_closeQuiet s : closeQuiet s -> closeQuiet (describePrelude s).
Proof.
  intros Hq. unfold describePrelude.
  assert (H1 : closeQuiet (preventSourceClose s)).
  { unfold preventSourceClose. case_match; [|done]. revert Hq. by apply closeQuiet_ext. }
  assert (H2 : closeQuiet (preventRunOnDemandClose (preventSourceClose s))).
  { unfold preventRunOnDemandClose. case_match; [|done].
    revert H1. by apply closeQuiet_ext. }
  set (s2 := preventRunOnDemandClose _) in *. clearbody s2.
  assert (H3 : closeQuiet (startOnDemandSource s2)).
  { unfold startOnDemandSource, startExternalSource.
    repeat case_match; try done; revert H2; by apply closeQuiet_ext. }
  set (s3 := startOnDemandSource _) in *. clearbody s3.
  unfold startOnDemandCmd, paLog. repeat case_match; try done.
  - eapply (closeQuiet_trace s3 _ [_]); [done|done|simpl; reflexivity| |done].
    rewrite list_elem_of_singleton. done.
  - eapply (closeQuiet_trace s3 _ [_]); [done|done|simpl; reflexivity| |done].
    rewrite list_elem_of_singleton. done.
Qed.

Lemma addClient_closeQuiet c state s s' :
  closeQuiet s -> addClient c state s = Ok s' -> closeQuiet s'.
Proof. intros Hq Hrun. unfold addClient in Hrun. case_match; inv_res. done. Qed.

Lemma teardown_closeQuiet s s' :
  closeTimerStarted s = false -> OnPathClose ∉ trace s ->
  teardown s = Ok s' -> closeQuiet s'.
Proof.
  intros Hst Htr Hrun. unfold teardown in Hrun. cbv zeta in Hrun. inv_res.
  match goal with H : forRange _ ?s0 = Ok _ |- _ =>
    remember s0 as u eqn:Hu; rename H into Hloop
  end.
  assert (H0 : closeTimerStarted u = false /\ closeTimer u = timerEmpty /\
               OnPathClose ∉ trace u).
  { subst u. unfold paLog. repeat case_match; simpl; repeat split; try done;
      rewrite ?elem_of_app, ?list_elem_of_singleton; intuition congruence. }
  clear Hu.
  cut (closeTimerStarted t = false /\ closeTimer t = timerEmpty /\
       OnPathClose ∉ trace t).
  { intros (H1 & H2 & H3). unfold closeQuiet. simpl. by rewrite H1, H2. }
  eapply (forRange_inv (fun u =>
            closeTimerStarted u = false /\ closeTimer u = timerEmpty /\
            OnPathClose ∉ trace u)); [| |exact Hloop]; [|done].
  intros c state v v' (H1 & H2 & H3) Hc Hb. simpl in Hb.
  case_decide; inv_res; [|done].
  destruct state; simpl; repeat split; try done;
    rewrite elem_of_app, list_elem_of_singleton; intuition congruence.
Qed.

Lemma handle_closeQuiet ev s s' :
  Regexp conf = None -> closeQuiet s -> ready s ev = true ->
  handle ev s = Ok s' -> closeQuiet s'.
Proof.
  intros Hre Hq Hr Hrun. destruct ev; simpl in Hrun.
  - (* describe timer *)
    inv_res. apply scheduleAll_closeQuiet; [done|].
    match goal with |- closeQuiet (set_sourceState _ ?u) =>
      cut (closeQuiet u); [by apply closeQuiet_ext|] end.
    match goal with H : forRange _ _ = Ok _ |- _ =>
      refine (replyLoop_closeQuiet
                (fun c _ => OnPathDescribeData c None "" (Some errTimedOut))
                _ _ Hre _ _ H) end; [done|].
    revert Hq. by apply closeQuiet_ext.
  - (* source close timer *)
    case_match; inv_res. apply scheduleClose_closeQuiet; [done|].
    match goal with |- closeQuiet (set_source _ ?u) =>
      cut (closeQuiet u); [by apply closeQuiet_ext|] end.
    apply closeQuiet_emit; [done|]. revert Hq. by apply closeQuiet_ext.
  - (* run on demand close timer *)
    case_match; inv_res. apply scheduleClose_closeQuiet; [done|].
    match goal with |- closeQuiet (set_onDemandCmd _ ?u) =>
      cut (closeQuiet u); [by apply closeQuiet_ext|] end.
    apply closeQuiet_emit; [done|]. unfold paLog. apply closeQuiet_emit; [done|].
    revert Hq. by apply closeQuiet_ext.
  - (* close timer *)
    exfalso. destruct Hq as (_ & Hp & _). unfold ready in Hr.
    apply andb_true_iff in Hr as [_ Hr]. congruence.
  - (* source set ready *)
    eapply onSourceSetReady_closeQuiet; [done| |exact Hrun].
    revert Hq. by apply closeQuiet_ext.
  - by eapply onSourceSetNotReady_closeQuiet.
  - (* describe *)
    destruct (clients s !! c); [inv_res; by apply closeQuiet_emit|].
    unfold onClientDescribe in Hrun. cbv zeta in Hrun.
    fold (describePrelude (emit (DescribeRes c None) s)) in Hrun.
    assert (H4 : closeQuiet (describePrelude (emit (DescribeRes c None) s))).
    { apply describePrelude_closeQuiet. by apply closeQuiet_emit. }
    set (s4 := describePrelude _) in *. clearbody s4.
    assert (Himm : forall cb : Path -> output,
              (forall u, cb u <> OnPathClose) ->
              (s ← addClient c clientStatePreRemove s4;
               s ← removeClient c s; Ok (emit (cb s) s)) = Ok s' ->
              closeQuiet s').
    { intros cb Hcb Hb. inv_res. apply closeQuiet_emit; [done|].
      eapply removeClient_closeQuiet; [done| |eassumption].
      by eapply addClient_closeQuiet. }
    case_decide.
    + by apply (Himm (fun s => OnPathDescribeData c None (SourceRedirect conf) None)).
    + destruct (sourceState s4).
      * by apply (Himm (fun s => OnPathDescribeData c None "" (Some errNoOnePublishing))).
      * by eapply addClient_closeQuiet.
      * by apply (Himm (fun s => OnPathDescribeData c (sourceSdp s) "" None)).
  - (* setup play *)
    inv_res. destruct t as [err t]. inv_res. apply closeQuiet_emit; [done|].
    match goal with Hs : onClientSetupPlay _ _ _ = _ |- _ =>
      unfold onClientSetupPlay in Hs; cbv zeta in Hs;
      repeat case_decide; inv_res; try done;
      destruct (clients s !! c); inv_res; try done
    end.
    eapply addClient_closeQuiet; [|eassumption].
    unfold preventRunOnDemandClose, preventSourceClose.
    repeat case_match; try done; revert Hq; by apply closeQuiet_ext.
  - inv_res. apply closeQuiet_emit; [done|]. unfold onClientPlay.
    by repeat case_match.
  - inv_res. destruct t as [err t]. inv_res. apply closeQuiet_emit; [done|].
    match goal with Hs : onClientAnnounce _ _ _ = _ |- _ =>
      unfold onClientAnnounce in Hs; cbv zeta in Hs;
      repeat case_match; inv_res; try done
    end.
    match goal with Ha : addClient _ _ _ = Ok ?u |- _ =>
      cut (closeQuiet u); [by apply closeQuiet_ext|];
      by eapply addClient_closeQuiet end.
  - inv_res. apply closeQuiet_emit; [done|].
    match goal with Hs : onClientRecord _ _ = _ |- _ =>
      unfold onClientRecord in Hs; repeat case_match; inv_res; try done;
      eapply onSourceSetReady_closeQuiet; [done| |exact Hs]
    end.
    revert Hq. by apply closeQuiet_ext.
  - destruct (clients s !! c) eqn:Hc; inv_res; [|by apply closeQuiet_emit].
    apply closeQuiet_emit; [done|].
    match goal with |- closeQuiet (set_clientsWg _ (set_clients _ ?u)) =>
      cut (closeQuiet u); [by apply closeQuiet_ext|] end.
    case_decide; inv_res; [|done]. by eapply removeClient_closeQuiet.
  - destruct Hq as (H1 & _ & H3). by eapply teardown_closeQuiet.
Qed.

Lemma start_closeQuiet : closeQuiet start.
Proof.
  unfold start, startExternalSource, paLog, closeQuiet.
  repeat case_match; simpl; repeat split; try done;
    rewrite ?list_elem_of_singleton; try apply not_elem_of_nil; done.
Qed.

(** A path whose configuration does not come from a regular expression never
    arms its close timer and never asks its parent to close it: it ends only
    when it is terminated. *)
Theorem never_closes_itself s :
  Regexp conf = None -> reachable s ->
  closeTimerStarted s = false /\ timerIsPending (closeTimer s) = false /\
  OnPathClose ∉ trace s.
Proof.
  intros Hre [evs Hrun]. unfold run in Hrun.
  pose proof start_closeQuiet as H0. revert H0 Hrun. generalize start.
  induction evs as [|ev evs IH]; intros u Hu Hrun; simpl in Hrun.
  - by inv_res.
  - inv_res. eapply IH; [|done].
    match goal with H : step _ _ = Ok _ |- _ =>
      unfold step in H; destruct (ready u ev) eqn:Hr; inv_res; [|done];
      by eapply handle_closeQuiet end.
Qed.

(** *** The removal of the publisher *)

(** The removal of a client that does not record and is not the source runs
    neither loop. *)
Lemma removeClientFuel_reader n c state s :
  clients s !! c = Some state -> state <> clientStateRecord ->
  source s <> sourceClient c ->
  exists t,
    removeClientFuel (S n) c s = Ok t /\
    clients t = <[c := clientStatePreRemove]> (clients s) /\
    removalView t = removalView s.
Proof.
  intros Hc Hst Hsrc. simpl. rewrite Hc. simpl.
  destruct state; try done; simpl; rewrite decide_False by done; simpl;
    eexists; (split; [reflexivity|]); unfold removalView;
    autorewrite with sched; done.
Qed.

Lemma closedKeys_cons_skip x cl c ks :
  c = x \/ cl !! c = None \/ cl !! c = Some clientStatePreRemove ->
  closedKeys x cl (c :: ks) = closedKeys x cl ks.
Proof.
  intros H. unfold closedKeys. rewrite filter_cons. rewrite decide_False; [done|].
  intros (H1 & [st H2] & H3). destruct H as [?|[?|?]]; congruence.
Qed.

Lemma closedKeys_cons_take x cl c state ks :
  c <> x -> cl !! c = Some state -> state <> clientStatePreRemove ->
  closedKeys x cl (c :: ks) = c :: closedKeys x cl ks.
Proof.
  intros H1 H2 H3. unfold closedKeys. rewrite filter_cons. rewrite decide_True; [done|].
  split; [done|]. split; [eauto|congruence].
Qed.

Lemma closedKeys_ext x cl cl' ks :
  (forall c, c ∈ ks -> c <> x -> cl' !! c = cl !! c) ->
  closedKeys x cl' ks = closedKeys x cl ks.
Proof.
  intros H. unfold closedKeys. induction ks as [|k ks IH]; [done|].
  rewrite !filter_cons.
  rewrite IH by (intros c Hc; apply H; by apply list_elem_of_further).
  destruct (decide (k = x)) as [->|Hne].
  - by rewrite !decide_False by (intros [? _]; done).
  - by rewrite (H k) by (done || apply list_elem_of_here).
Qed.

Lemma rangeClients_cons body c ks s :
  rangeClients body (c :: ks) s =
  match clients s !! c with
  | Some state => s' ← body c state s; rangeClients body ks s'
  | None => rangeClients body ks s
  end.
Proof. reflexivity. Qed.

(** The loop of [onSourceSetNotReady], run for the publisher [x] while no
    client waits: every other client that is not marked is removed and the
    parent is told, in the order of the visit. *)
Lemma closeLoop n x ks : forall u,
  NoDup ks ->
  source u = sourceClient x ->
  (forall c, c ∈ ks -> clients u !! c <> Some clientStateWaitingDescribe) ->
  (forall c, c ∈ ks -> c <> x -> clients u !! c <> Some clientStateRecord) ->
  exists u',
    rangeClients (fun c state s =>
        if decide (state = clientStateWaitingDescribe) then Panic "not possible"
        else if decide (sourceClient c <> source s /\ state <> clientStatePreRemove)
        then s ← removeClientFuel (S n) c s; Ok (emit (OnPathClientClose c) s)
        else Ok s) ks u = Ok u' /\
    (forall c,
       clients u' !! c =
       if decide (c ∈ ks /\ c <> x /\ is_Some (clients u !! c))
       then Some clientStatePreRemove else clients u !! c) /\
    trace u' = trace u ++ map OnPathClientClose (closedKeys x (clients u) ks) /\
    source u' = source u /\ sourceState u' = sourceState u /\
    clientsWg u' = clientsWg u /\ closed u' = closed u.
Proof.
  induction ks as [|c ks IH]; intros u Hnd Hsrc Hnw Hnr.
  { exists u. split; [done|]. split.
    - intros c. rewrite decide_False; [done|]. intros [H _]. by apply not_elem_of_nil in H.
    - simpl. by rewrite app_nil_r. }
  apply NoDup_cons in Hnd as [Hnotin Hnd].
  assert (Hskip : c = x \/ clients u !! c = None \/
                  clients u !! c = Some clientStatePreRemove ->
            exists u',
              rangeClients (fun c state s =>
                  if decide (state = clientStateWaitingDescribe)
                  then Panic "not possible"
                  else if decide (sourceClient c <> source s /\
                                  state <> clientStatePreRemove)
                  then s ← removeClientFuel (S n) c s;
                       Ok (emit (OnPathClientClose c) s)
                  else Ok s) (c :: ks) u = Ok u' /\
              (forall y,
                 clients u' !! y =
                 if decide (y ∈ c :: ks /\ y <> x /\ is_Some (clients u !! y))
                 then Some clientStatePreRemove else clients u !! y) /\
              trace u' = trace u ++
                map OnPathClientClose (closedKeys x (clients u) (c :: ks)) /\
              source u' = source u /\ sourceState u' = sourceState u /\
              clientsWg u' = clientsWg u /\ closed u' = closed u).
  { intros Hcase.
    destruct (IH u Hnd Hsrc) as (u' & Hrun & Hcl & Htr & Hrest).
    { intros y Hy. apply Hnw. by right. }
    { intros y Hy. apply Hnr. by right. }
    exists u'. split.
    - rewrite <- Hrun. simpl. destruct (clients u !! c) as [st|] eqn:Hc; [|done].
      assert (Hst : st <> clientStateWaitingDescribe).
      { intros ->. eapply Hnw; [left|done]. }
      rewrite decide_False by done. rewrite decide_False; [done|].
      intros [H1 H2]. destruct Hcase as [->|[?|?]]; [|done|congruence].
      by rewrite Hsrc in H1.
    - split; [|split; [by rewrite closedKeys_cons_skip|done]].
      intros y. rewrite Hcl.
      destruct (decide (y ∈ ks /\ y <> x /\ is_Some (clients u !! y)))
        as [(H1 & H2 & H3)|Hno].
      + rewrite decide_True; [done|]. split; [by right|done].
      + destruct (decide (y ∈ c :: ks /\ y <> x /\ is_Some (clients u !! y)))
          as [(H1 & H2 & [st H3])|Hno']; [|done].
        apply elem_of_cons in H1 as [->|H1]; [|destruct Hno; eauto].
        destruct Hcase as [?|[?|?]]; congruence. }
  destruct (decide (c = x)) as [Hcx|Hcx]; [by apply Hskip; left|].
  destruct (clients u !! c) as [st|] eqn:Hc; [|by apply Hskip; right; left].
  destruct (decide (st = clientStatePreRemove)) as [->|Hpre];
    [by apply Hskip; right; right|].
  clear Hskip.
  assert (Hst : st <> clientStateWaitingDescribe).
  { intros ->. eapply Hnw; [left|done]. }
  assert (Hrec : st <> clientStateRecord).
  { intros ->. eapply Hnr; [left|done|done]. }
  assert (Hsc : source u <> sourceClient c) by (rewrite Hsrc; congruence).
  destruct (removeClientFuel_reader n c st u Hc Hrec Hsc) as (t & Ht & Hclt & Hview).
  unfold removalView in Hview. injection Hview as Ev1 Ev2 Ev3 Ev4 Ev5.
  destruct (IH (emit (OnPathClientClose c) t) Hnd) as (u' & Hrun & Hcl & Htr & Hrest).
  { simpl. congruence. }
  { intros y Hy. simpl. rewrite Hclt, lookup_insert_ne by (intros ->; done).
    apply Hnw. by right. }
  { intros y Hy. simpl. rewrite Hclt, lookup_insert_ne by (intros ->; done).
    apply Hnr. by right. }
  exists u'. split.
  - rewrite rangeClients_cons, Hc. cbv beta. rewrite decide_False by done.
    rewrite decide_True by (split; [congruence|done]).
    rewrite Ht. exact Hrun.
  - simpl in *. split; [|split].
    + intros y. rewrite Hcl, Hclt. destruct (decide (y = c)) as [->|Hne].
      * rewrite decide_False by (intros [? _]; done).
        rewrite lookup_insert_eq. rewrite decide_True; [done|].
        split; [left|]. split; [done|eauto].
      * rewrite lookup_insert_ne by done.
        destruct (decide (y ∈ ks /\ y <> x /\ is_Some (clients u !! y)))
          as [(H1 & H2 & H3)|Hno].
        -- rewrite decide_True; [done|]. split; [by right|done].
        -- rewrite decide_False; [done|]. intros (H1 & H2 & H3). apply Hno.
           apply elem_of_cons in H1 as [->|H1]; done.
    + rewrite Htr, Ev1, <- app_assoc. simpl.
      rewrite (closedKeys_cons_take x (clients u) c st) by done. simpl.
      do 3 f_equal. apply closedKeys_ext. intros y Hy _.
      rewrite Hclt, lookup_insert_ne; [done|]. intros ->. done.
    + destruct Hrest as (-> & -> & -> & ->). done.
Qed.

Lemma idleLoop n ks : forall v,
  (forall c state, clients v !! c = Some state -> state = clientStatePreRemove) ->
  rangeClients (fun oc state s =>
      if decide (state <> clientStatePreRemove
                 /\ state <> clientStateWaitingDescribe)
      then s ← removeClientFuel n oc s; Ok (emit (OnPathClientClose oc) s)
      else Ok s) ks v = Ok v.
Proof.
  induction ks as [|c ks IH]; intros v Hv; [done|].
  rewrite rangeClients_cons. destruct (clients v !! c) as [st|] eqn:Hc; [|by apply IH].
  cbv beta. rewrite decide_False by (intros [H _]; by apply H, (Hv c)).
  by apply IH.
Qed.

Lemma removeClientFuel_record fuel x s :
  clients s !! x = Some clientStateRecord ->
  removeClientFuel (S fuel) x s =
  (t ← onSourceSetNotReadyWith (removeClientFuel fuel)
         (set_countPublishers (countPublishers s - 1)
            (set_clients (<[x := clientStatePreRemove]> (clients s)) s));
   t ← (if decide (source t = sourceClient x) then
          forRange (fun oc state s =>
              if decide (state <> clientStatePreRemove
                         /\ state <> clientStateWaitingDescribe)
              then s ← removeClientFuel fuel oc s;
                   Ok (emit (OnPathClientClose oc) s)
              else Ok s)
            (set_source sourceNil t)
        else Ok t);
   Ok (scheduleAll t)).
Proof. intros H. simpl. rewrite H. reflexivity. Qed.

Lemma bind_Ok_eq {A B} (a : A) (k : A -> result B) : Ok a ≫= k = k a.
Proof. reflexivity. Qed.

(** The removal of the recording publisher while no client waits: every
    entry is marked, the source is cleared, the source state is reset, and
    [OnPathClientClose] is called for the clients that were not marked, in
    the order of a visit of the map. *)
Lemma removeClient_publisher x s :
  clients s !! x = Some clientStateRecord -> source s = sourceClient x ->
  noneWaiting s ->
  (forall c, c <> x -> clients s !! c <> Some clientStateRecord) ->
  exists t ks,
    removeClient x s = Ok t /\
    NoDup ks /\ (forall c, c ∈ ks <-> is_Some (clients s !! c)) /\
    (forall c, clients t !! c =
               if decide (is_Some (clients s !! c))
               then Some clientStatePreRemove else None) /\
    trace t = trace s ++ map OnPathClientClose (closedKeys x (clients s) ks) /\
    source t = sourceNil /\ sourceState t = sourceStateNotReady /\
    clientsWg t = clientsWg s /\ closed t = closed s.
Proof.
  intros Hx Hsrc Hnw Hnr. unfold removeClient.
  destruct (size (clients s)) as [|n] eqn:Hsz.
  { apply map_size_empty_iff in Hsz. rewrite Hsz in Hx. done. }
  rewrite removeClientFuel_record by done.
  unfold onSourceSetNotReadyWith, forRange.
  set (s1 := set_clients (<[x := clientStatePreRemove]> (clients s)) s).
  set (u0 := set_sourceState sourceStateNotReady
               (set_countPublishers (countPublishers s - 1) s1)).
  assert (Hcl0 : forall c, c <> x -> clients u0 !! c = clients s !! c).
  { intros c Hc. unfold u0, s1. simpl. by rewrite lookup_insert_ne. }
  assert (Hclx : clients u0 !! x = Some clientStatePreRemove).
  { unfold u0, s1. simpl. apply lookup_insert_eq. }
  assert (Hkeys : forall c, c ∈ rangeKeys u0 <-> is_Some (clients s !! c)).
  { intros c. rewrite rangeKeys_elem. destruct (decide (c = x)) as [->|Hne].
    - rewrite Hclx, Hx. split; eauto.
    - by rewrite Hcl0. }
  pose proof (rangeKeys_NoDup u0) as Hnd.
  destruct (closeLoop n x (rangeKeys u0) (set_rangeSeq (S (rangeSeq u0)) u0))
    as (u' & Hrun & Hcl & Htr & E1 & E2 & E3 & E4); [done|done| | |].
  { intros c _. simpl. destruct (decide (c = x)) as [->|Hne].
    - by rewrite lookup_insert_eq.
    - rewrite lookup_insert_ne by done. apply Hnw. }
  { intros c _ Hne. simpl. rewrite lookup_insert_ne by done. by apply Hnr. }
  rewrite Hrun, bind_Ok_eq. simpl in Hcl, Htr, E1, E2, E3, E4.
  assert (Hall : forall c, clients u' !! c =
                   if decide (is_Some (clients s !! c))
                   then Some clientStatePreRemove else None).
  { intros c. rewrite Hcl. destruct (decide (c = x)) as [->|Hne].
    - rewrite decide_False by (intros (_ & ? & _); done).
      rewrite lookup_insert_eq. rewrite decide_True; [done|]. by rewrite Hx.
    - rewrite lookup_insert_ne by done.
      destruct (decide (is_Some (clients s !! c))) as [Hs|Hs].
      + rewrite decide_True; [done|]. split; [by apply Hkeys|done].
      + rewrite decide_False by (intros (_ & _ & ?); done).
        destruct (clients s !! c) eqn:Hc; [|done]. destruct Hs. eauto. }
  rewrite decide_True by congruence.
  rewrite idleLoop.
  2:{ intros c st. simpl. rewrite Hall. case_decide; congruence. }
  rewrite bind_Ok_eq.
  eexists _, (rangeKeys u0). split; [reflexivity|].
  split; [done|]. split; [done|]. autorewrite with sched. simpl.
  split; [done|]. split.
  { rewrite Htr. f_equal. f_equal. apply closedKeys_ext. intros c _ Hne.
    by rewrite lookup_insert_ne. }
  done.
Qed.

Lemma inState_empty state cl :
  (forall c, cl !! c <> Some state) -> inState state cl = ∅.
Proof. intros H. apply map_empty. intros c. by apply inState_lookup_None. Qed.

(** When the client that records is removed while no client waits for a
    description, the turn returns: the source is cleared and the source state
    is [NotReady]; the entry of the publisher is deleted and the wait group
    gives its unit back; every other entry is marked [PreRemove], and the
    parent is told exactly once about each client that was not marked yet;
    the readers map is empty, the reader counter is lowered by the number of
    readers and the publisher counter by 1. *)
Theorem publisher_removal_closes_readers s x :
  reachable s -> closed s = false ->
  clients s !! x = Some clientStateRecord ->
  (forall c, clients s !! c <> Some clientStateWaitingDescribe) ->
  exists s' new,
    step s (EvClientRemove x) = Ok s' /\
    clients s' !! x = None /\
    (forall c, c <> x ->
       clients s' !! c =
       if decide (is_Some (clients s !! c))
       then Some clientStatePreRemove else None) /\
    source s' = sourceNil /\ sourceState s' = sourceStateNotReady /\
    readers s' = ∅ /\
    countReaders s' = countReaders s - Z.of_nat (size (readers s)) /\
    countPublishers s' = countPublishers s - 1 /\
    clientsWg s' = clientsWg s - 1 /\
    trace s' = trace s ++ new /\
    (forall c,
       closeCallsFor c new =
       if decide (c <> x /\ is_Some (clients s !! c) /\
                  clients s !! c <> Some clientStatePreRemove)
       then [OnPathClientClose c] else []) /\
    last new = Some (RemoveRes x).
Proof.
  intros Hreach Hopen Hx Hnw.
  pose proof (reachable_Books s Hreach) as Hbooks.
  pose proof (reachable_Inv s Hreach) as [_ Hpub _ _ _ _].
  assert (Hsrc : source s = sourceClient x) by (apply (Hpub x _ Hx); by right).
  assert (Hnr : forall c, c <> x -> clients s !! c <> Some clientStateRecord).
  { intros c Hne Hc. apply Hne.
    pose proof (Hpub c _ Hc ltac:(by right)) as E. congruence. }
  destruct (removeClient_publisher x s Hx Hsrc Hnw Hnr)
    as (t & ks & Hrun & Hnd & Hks & Hcl & Htr & E1 & E2 & E3 & E4).
  assert (Hstep : step s (EvClientRemove x) =
            Ok (emit (RemoveRes x)
                  (set_clientsWg (clientsWg t - 1)
                     (set_clients (delete x (clients t)) t)))).
  { unfold step, ready. rewrite Hopen. simpl. rewrite Hx.
    rewrite decide_True by done. by rewrite Hrun. }
  pose proof (step_Books _ _ _ Hbooks Hstep) as [_ Ho _].
  destruct Ho as [H1 H2 H3]; [simpl; congruence|]. simpl in H1, H2, H3.
  destruct (Books_open _ Hbooks Hopen) as [T1 T2 T3].
  assert (Hone : size (inState clientStateRecord (clients s)) = 1%nat).
  { assert (E : inState clientStateRecord (clients s)
                = {[x := clientStateRecord]}).
    { apply map_eq. intros c. destruct (decide (c = x)) as [->|Hne].
      - rewrite lookup_singleton_eq. by apply inState_lookup.
      - rewrite lookup_singleton_ne by done. apply inState_lookup_None.
        by apply Hnr. }
    rewrite E. apply map_size_singleton. }
  assert (Hall : forall c, delete x (clients t) !! c <> Some clientStatePlay /\
                           delete x (clients t) !! c <> Some clientStateRecord).
  { intros c. destruct (decide (c = x)) as [->|Hne].
    - by rewrite lookup_delete_eq.
    - rewrite lookup_delete_ne by done. rewrite Hcl. by case_decide. }
  rewrite (inState_empty clientStatePlay) in H1, H2 by apply Hall.
  rewrite (inState_empty clientStateRecord) in H3 by apply Hall.
  eexists _, (map OnPathClientClose (closedKeys x (clients s) ks) ++ [RemoveRes x]).
  split; [exact Hstep|]. simpl.
  split; [apply lookup_delete_eq|].
  split; [intros c Hne; by rewrite lookup_delete_ne|].
  split; [done|]. split; [done|].
  split; [by rewrite H1, dom_empty_L|].
  split; [rewrite H2, map_size_empty, T1, size_dom, T2; simpl; lia|].
  split; [rewrite H3, map_size_empty, T3, Hone; simpl; lia|].
  split; [by rewrite E3|].
  split; [by rewrite Htr, app_assoc|].
  split; [|apply last_snoc].
  intros c. rewrite closeCallsFor_app.
  rewrite closeCallsFor_map by (by apply NoDup_filter).
  assert (Hlast : closeCallsFor c [RemoveRes x] = []) by done.
  rewrite Hlast, app_nil_r.
  assert (Hiff : c ∈ closedKeys x (clients s) ks <->
                 c <> x /\ is_Some (clients s !! c) /\
                 clients s !! c <> Some clientStatePreRemove).
  { unfold closedKeys. rewrite list_elem_of_filter. split; [by intros [? _]|].
    intros Hc. split; [done|]. apply Hks. by destruct Hc as (_ & ? & _). }
  destruct (decide (c ∈ closedKeys x (clients s) ks)) as [Hc|Hc].
  - rewrite decide_True; [done|]. by apply Hiff.
  - rewrite decide_False; [done|]. intros H. by apply Hc, Hiff.
Qed.

(** *** What a Describe starts *)

Lemma prevent_spec s :
  let u := preventRunOnDemandClose (preventSourceClose s) in
  source u = source s /\ sourceState u = sourceState s /\ trace u = trace s /\
  describeTimer u = describeTimer s /\ onDemandCmd u = onDemandCmd s /\
  clients u = clients s /\ clientsWg u = clientsWg s /\
  sourceCloseTimerStarted u = false /\ runOnDemandCloseTimerStarted u = false.
Proof.
  unfold preventRunOnDemandClose, preventSourceClose.
  destruct (sourceCloseTimerStarted s) eqn:E1;
    destruct (runOnDemandCloseTimerStarted s) eqn:E2; simpl;
    rewrite ?E1, ?E2; simpl; done.
Qed.

Lemma startExternalSource_external s :
  hasExternalSource = true ->
  isSourceExternal (source (startExternalSource s)) = true.
Proof.
  unfold hasExternalSource, startExternalSource.
  destruct (String.prefix "rtsp://" (Source conf)); [done|].
  destruct (String.prefix "rtmp://" (Source conf)); done.
Qed.

Lemma startExternalSource_rest s :
  sourceState (startExternalSource s) = sourceState s /\
  trace (startExternalSource s) = trace s /\
  describeTimer (startExternalSource s) = describeTimer s /\
  onDemandCmd (startExternalSource s) = onDemandCmd s /\
  clients (startExternalSource s) = clients s /\
  clientsWg (startExternalSource s) = clientsWg s /\
  sourceCloseTimerStarted (startExternalSource s) = sourceCloseTimerStarted s /\
  runOnDemandCloseTimerStarted (startExternalSource s)
    = runOnDemandCloseTimerStarted s.
Proof. unfold startExternalSource. by repeat case_match. Qed.

Ltac absurd_case :=
  match goal with
  | H : _ \/ _ |- _ => by destruct H
  | H : _ /\ _ |- _ => by destruct H
  end.

Lemma startOnDemandSource_spec s :
  let v := startOnDemandSource s in
  (hasExternalSource = true /\ source s = sourceNil ->
     sourceState v = sourceStateWaitingDescribe /\
     isSourceExternal (source v) = true /\
     describeTimer v =
       if decide (sourceState s = sourceStateWaitingDescribe)
       then describeTimer s
       else timerPending (SourceOnDemandStartTimeout conf)) /\
  (hasExternalSource = false \/ source s <> sourceNil ->
     source v = source s /\ sourceState v = sourceState s /\
     describeTimer v = describeTimer s) /\
  trace v = trace s /\ onDemandCmd v = onDemandCmd s /\
  clients v = clients s /\ clientsWg v = clientsWg s /\
  sourceCloseTimerStarted v = sourceCloseTimerStarted s /\
  runOnDemandCloseTimerStarted v = runOnDemandCloseTimerStarted s.
Proof.
  unfold startOnDemandSource.
  destruct (startExternalSource_rest s) as (R1 & R2 & R3 & R4 & R5 & R6 & R7 & R8).
  destruct hasExternalSource eqn:Hext; simpl.
  - pose proof (startExternalSource_external s Hext) as Hx.
    destruct (decide (source s = sourceNil)) as [Hn|Hn].
    + rewrite (bool_decide_eq_true_2 _ Hn). cbv zeta.
      destruct (decide (sourceState (startExternalSource s)
                        <> sourceStateWaitingDescribe)) as [Hw|Hw]; simpl.
      * rewrite decide_False by congruence. repeat split; try done.
        all: absurd_case.
      * apply dec_stable in Hw. rewrite decide_True by congruence.
        repeat split; try done; try congruence. all: absurd_case.
    + rewrite (bool_decide_eq_false_2 _ Hn). repeat split; try done.
      all: absurd_case.
  - repeat split; try done. all: absurd_case.
Qed.

Lemma startOnDemandCmd_spec s :
  let d := startOnDemandCmd s in
  (RunOnDemand conf <> "" /\ onDemandCmd s = None ->
     sourceState d = sourceStateWaitingDescribe /\
     onDemandCmd d =
       Some (mkExternalCmd (RunOnDemand conf) (RunOnDemandRestart conf) name) /\
     describeTimer d =
       (if decide (sourceState s = sourceStateWaitingDescribe)
        then describeTimer s
        else timerPending (RunOnDemandStartTimeout conf)) /\
     trace d = trace s ++ [Log ("[path " +:+ name +:+ "] " +:+ "on demand command started")]) /\
  (RunOnDemand conf = "" \/ onDemandCmd s <> None ->
     sourceState d = sourceState s /\ onDemandCmd d = onDemandCmd s /\
     describeTimer d = describeTimer s /\ trace d = trace s) /\
  source d = source s /\
  clients d = clients s /\ clientsWg d = clientsWg s /\
  sourceCloseTimerStarted d = sourceCloseTimerStarted s /\
  runOnDemandCloseTimerStarted d = runOnDemandCloseTimerStarted s.
Proof.
  unfold startOnDemandCmd, paLog.
  destruct (decide (RunOnDemand conf <> "")) as [Hr|Hr];
    destruct (decide (onDemandCmd s = None)) as [Hc|Hc].
  - rewrite (bool_decide_eq_true_2 _ Hr), (bool_decide_eq_true_2 _ Hc). cbv zeta.
    simpl.
    destruct (decide (sourceState s <> sourceStateWaitingDescribe)) as [Hw|Hw]; simpl.
    + rewrite decide_False by congruence. repeat split; try done.
      all: absurd_case.
    + apply dec_stable in Hw. rewrite decide_True by congruence.
      repeat split; try done. all: absurd_case.
  - rewrite (bool_decide_eq_false_2 _ Hc), andb_false_r.
    repeat split; try done. all: absurd_case.
  - rewrite (bool_decide_eq_false_2 _ Hr). simpl.
    repeat split; try done. all: absurd_case.
  - rewrite (bool_decide_eq_false_2 _ Hr). simpl.
    repeat split; try done. all: absurd_case.
Qed.

(** A Describe of a client that is not attached, on a path whose on-demand
    source or on-demand command is not running: the source or the command is
    started, the close timers are disarmed, the source state becomes
    [WaitingDescribe] and the client is parked in [WaitingDescribe] without a
    callback; the describe timer is armed with the start timeout of what was
    started first, unless the source was awaited already. *)
Theorem describe_starts_on_demand s c :
  closed s = false -> clients s !! c = None -> source s <> sourceRedirect ->
  (hasExternalSource = true /\ source s = sourceNil) \/
  (RunOnDemand conf <> "" /\ onDemandCmd s = None) ->
  exists s' new,
    step s (EvClientDescribe c) = Ok s' /\
    clients s' = <[c := clientStateWaitingDescribe]> (clients s) /\
    clientsWg s' = clientsWg s + 1 /\
    sourceState s' = sourceStateWaitingDescribe /\
    trace s' = trace s ++ new /\
    head new = Some (DescribeRes c None) /\
    describeDataFor c new = [] /\
    (hasExternalSource = true -> source s = sourceNil ->
       isSourceExternal (source s') = true) /\
    (RunOnDemand conf <> "" -> onDemandCmd s' <> None) /\
    describeTimer s' =
      (if decide (sourceState s = sourceStateWaitingDescribe)
       then describeTimer s
       else timerPending
              (if decide (hasExternalSource = true /\ source s = sourceNil)
               then SourceOnDemandStartTimeout conf
               else RunOnDemandStartTimeout conf)) /\
    sourceCloseTimerStarted s' = false /\
    runOnDemandCloseTimerStarted s' = false.
Proof.
  intros Hopen Hc Hred Hstart.
  unfold step, ready. rewrite Hopen. simpl. rewrite Hc.
  unfold onClientDescribe. cbv zeta.
  set (s0 := emit (DescribeRes c None) s).
  destruct (prevent_spec s0) as (U1 & U2 & U3 & U4 & U5 & U6 & U7 & U8 & U9).
  cbv zeta in *. set (u := preventRunOnDemandClose (preventSourceClose s0)) in *.
  destruct (startOnDemandSource_spec u)
    as (V1 & V2 & V3 & V4 & V5 & V6 & V7 & V8).
  cbv zeta in *. set (v := startOnDemandSource u) in *.
  destruct (startOnDemandCmd_spec v)
    as (D1 & D2 & D3 & D4 & D5 & D6 & D7).
  cbv zeta in *. set (d := startOnDemandCmd v) in *.
  simpl in U1, U2, U3, U4, U5, U6, U7.
  assert (Hcase : (hasExternalSource = true /\ source s = sourceNil) \/
                  (hasExternalSource = false \/ source s <> sourceNil)).
  { destruct hasExternalSource; [|by right; left].
    destruct (decide (source s = sourceNil)); [by left|by right; right]. }
  assert (Hv : sourceState v =
                 (if decide (hasExternalSource = true /\ source s = sourceNil)
                  then sourceStateWaitingDescribe else sourceState s) /\
               describeTimer v =
                 (if decide (hasExternalSource = true /\ source s = sourceNil)
                  then (if decide (sourceState s = sourceStateWaitingDescribe)
                        then describeTimer s
                        else timerPending (SourceOnDemandStartTimeout conf))
                  else describeTimer s) /\
               source v <> sourceRedirect /\
               (hasExternalSource = true -> source s = sourceNil ->
                  isSourceExternal (source v) = true)).
  { destruct Hcase as [[He Hn]|Hrest].
    - destruct V1 as (A1 & A2 & A3); [by rewrite U1|].
      rewrite !(decide_True (P := hasExternalSource = true /\ source s = sourceNil))
        by done.
      rewrite A1, A3, U2, U4.
      split; [done|]. split; [done|]. split; [|done].
      intros E. by rewrite E in A2.
    - destruct V2 as (A1 & A2 & A3); [by rewrite U1|].
      rewrite !(decide_False (P := hasExternalSource = true /\ source s = sourceNil))
        by (intros [? ?]; destruct Hrest; congruence).
      rewrite A1, A2, A3, U1, U2, U4.
      split; [done|]. split; [done|]. split; [done|].
      intros He Hn. destruct Hrest; congruence. }
  destruct Hv as (Hv1 & Hv2 & Hv3 & Hv4).
  assert (Hd : sourceState d = sourceStateWaitingDescribe /\
               describeTimer d =
                 (if decide (sourceState s = sourceStateWaitingDescribe)
                  then describeTimer s
                  else timerPending
                         (if decide (hasExternalSource = true /\ source s = sourceNil)
                          then SourceOnDemandStartTimeout conf
                          else RunOnDemandStartTimeout conf)) /\
               (RunOnDemand conf <> "" -> onDemandCmd d <> None) /\
               exists logs, trace d = trace s ++ DescribeRes c None :: logs /\
                            describeDataFor c logs = []).
  { destruct (decide (RunOnDemand conf <> "" /\ onDemandCmd v = None)) as [Hgo|Hno].
    - destruct (D1 Hgo) as (A1 & A2 & A3 & A4).
      rewrite A1, A3, A4, V3, U3, Hv1, Hv2.
      split; [done|]. split.
      { repeat case_decide; try done. }
      split; [by rewrite A2|].
      eexists [_]. split; [by rewrite <- app_assoc|]. done.
    - assert (Hidle : RunOnDemand conf = "" \/ onDemandCmd v <> None).
      { destruct (decide (RunOnDemand conf = "")); [by left|].
        right. intros E. by apply Hno. }
      destruct (D2 Hidle) as (A1 & A2 & A3 & A4).
      assert (Hext : hasExternalSource = true /\ source s = sourceNil).
      { destruct Hstart as [?|[Hr Hcmd]]; [done|]. exfalso. apply Hno.
        split; [done|]. by rewrite V4, U5. }
      rewrite A1, A3, A4, V3, U3, Hv1, Hv2.
      rewrite !(decide_True (P := hasExternalSource = true /\ source s = sourceNil))
        by done.
      split; [done|]. split; [done|].
      split.
      { intros Hr. rewrite A2. by destruct Hidle. }
      exists []. split; [done|]. done. }
  destruct Hd as (Hd1 & Hd2 & Hd3 & logs & Hd4 & Hd5).
  rewrite decide_False by (by rewrite D3).
  rewrite Hd1. unfold addClient.
  assert (Hcd : clients d !! c = None) by (by rewrite D4, V5, U6).
  rewrite Hcd.
  eexists _, (DescribeRes c None :: logs). split; [reflexivity|]. simpl.
  split; [by rewrite D4, V5, U6|]. split; [by rewrite D5, V6, U7|].
  split; [done|]. split; [done|]. split; [done|].
  split; [done|].
  split; [by rewrite D3|]. split; [done|]. split; [done|].
  split; [by rewrite D6, V7|by rewrite D7, V8].
Qed.

Lemma describePrelude_rest s :
  hasExternalSource = false \/ source s <> sourceNil ->
  RunOnDemand conf = "" \/ onDemandCmd s <> None ->
  source (describePrelude s) = source s /\
  sourceState (describePrelude s) = sourceState s /\
  trace (describePrelude s) = trace s /\
  clients (describePrelude s) = clients s /\
  clientsWg (describePrelude s) = clientsWg s.
Proof.
  intros Hsrc Hcmd. unfold describePrelude.
  destruct (prevent_spec s) as (U1 & U2 & U3 & U4 & U5 & U6 & U7 & U8 & U9).
  cbv zeta in *. set (u := preventRunOnDemandClose (preventSourceClose s)) in *.
  destruct (startOnDemandSource_spec u)
    as (_ & V2 & V3 & V4 & V5 & V6 & V7 & V8).
  cbv zeta in *. set (v := startOnDemandSource u) in *.
  destruct (startOnDemandCmd_spec v) as (_ & D2 & D3 & D4 & D5 & D6 & D7).
  cbv zeta in *. set (d := startOnDemandCmd v) in *.
  destruct V2 as (A1 & A2 & A3); [by rewrite U1|].
  destruct D2 as (B1 & B2 & B3 & B4); [by rewrite V4, U5|].
  repeat split; congruence.
Qed.

(** A Describe of a client that is not attached, on a path on which nothing
    is left to start.  While the source is awaited the client is parked in
    [WaitingDescribe] and gets no callback yet.  Otherwise it is answered at
    once and left in [PreRemove]: with the redirect URL on a redirect path,
    with the stored description when the path is ready, and with the error
    that no one is publishing when it is not. *)
Theorem describe_answer s c :
  reachable s -> closed s = false -> clients s !! c = None ->
  hasExternalSource = false \/ source s <> sourceNil ->
  RunOnDemand conf = "" \/ onDemandCmd s <> None ->
  exists s',
    step s (EvClientDescribe c) = Ok s' /\
    source s' = source s /\ sourceState s' = sourceState s /\
    (source s <> sourceRedirect ->
     sourceState s = sourceStateWaitingDescribe ->
     clients s' = <[c := clientStateWaitingDescribe]> (clients s) /\
     trace s' = trace s ++ [DescribeRes c None]) /\
    (source s = sourceRedirect \/
     sourceState s <> sourceStateWaitingDescribe ->
     clients s' = <[c := clientStatePreRemove]> (clients s) /\
     trace s' = trace s ++
       [DescribeRes c None;
        if decide (source s = sourceRedirect)
        then OnPathDescribeData c None (SourceRedirect conf) None
        else match sourceState s with
             | sourceStateReady => OnPathDescribeData c (sourceSdp s) "" None
             | _ => OnPathDescribeData c None ""
                      (Some ("no one is publishing to path '" +:+ name +:+ "'"))
             end]).
Proof.
  intros Hreach Hopen Hc Hsrc Hcmd.
  apply reachable_Inv in Hreach. destruct Hreach as [_ _ Hinv _ _ _].
  unfold step, ready. rewrite Hopen. simpl. rewrite Hc.
  set (s0 := emit (DescribeRes c None) s).
  destruct (describePrelude_rest s0 Hsrc Hcmd) as (E1 & E2 & E3 & E4 & E5).
  simpl in E1, E2, E3, E4, E5.
  destruct (decide (source s = sourceRedirect \/
                    sourceState s <> sourceStateWaitingDescribe)) as [Himm|Hpark].
  - destruct (onClientDescribe_immediate c s0)
      as (s' & cb & Hrun & Hcl & Htr & Hcb & Hs1 & Hs2 & _); [done|done| |].
    { rewrite E1, E2. done. }
    exists s'. split; [done|]. rewrite Hs1, Hs2, E1, E2.
    split; [done|]. split; [done|]. split.
    { intros H1 H2. by destruct Himm. }
    intros _. split; [done|]. rewrite Htr, E3, <- app_assoc. simpl.
    do 3 f_equal. rewrite Hcb, E1, E2. done.
  - assert (Hred : source s <> sourceRedirect) by tauto.
    assert (Hwd : sourceState s = sourceStateWaitingDescribe).
    { destruct (decide (sourceState s = sourceStateWaitingDescribe)); [done|].
      destruct Hpark. by right. }
    unfold onClientDescribe. cbv zeta. fold (describePrelude s0).
    rewrite decide_False by (by rewrite E1). rewrite E2, Hwd.
    unfold addClient. rewrite E4, Hc. eexists. split; [reflexivity|]. simpl.
    rewrite E1, E2, E3. split; [done|]. split; [done|].
    split; [done|]. intros [?|?]; done.
Qed.

(** *** The two loops that look for a client *)

Lemma hasClientsRange_true ks s :
  hasClientsRange ks s = true <->
  exists c state, c ∈ ks /\ clients s !! c = Some state /\
                  state <> clientStatePreRemove.
Proof.
  induction ks as [|k ks IH]; simpl.
  - split; [done|]. intros (c & st & Hin & _). by apply not_elem_of_nil in Hin.
  - destruct (clients s !! k) as [st|] eqn:Hk.
    + destruct (decide (st <> clientStatePreRemove)) as [Hst|Hst].
      * split; [|done]. intros _. exists k, st. split; [left|done].
      * rewrite IH. split.
        -- intros (c & st' & Hin & H). exists c, st'. split; [by right|done].
        -- intros (c & st' & Hin & Hc & Hne).
           apply elem_of_cons in Hin as [->|Hin]; [|eauto].
           exfalso. apply Hst. congruence.
    + rewrite IH. split.
      * intros (c & st' & Hin & H). exists c, st'. split; [by right|done].
      * intros (c & st' & Hin & Hc & Hne).
        apply elem_of_cons in Hin as [->|Hin]; [congruence|eauto].
Qed.

Lemma hasClientsNotSourcesRange_true ks s :
  hasClientsNotSourcesRange ks s = true <->
  exists c state, c ∈ ks /\ clients s !! c = Some state /\
                  state <> clientStatePreRemove /\ sourceClient c <> source s.
Proof.
  induction ks as [|k ks IH]; simpl.
  - split; [done|]. intros (c & st & Hin & _). by apply not_elem_of_nil in Hin.
  - destruct (clients s !! k) as [st|] eqn:Hk.
    + destruct (decide (st <> clientStatePreRemove /\ sourceClient k <> source s))
        as [Hst|Hst].
      * split; [|done]. intros _. exists k, st. split; [left|]. by destruct Hst.
      * rewrite IH. split.
        -- intros (c & st' & Hin & H). exists c, st'. split; [by right|done].
        -- intros (c & st' & Hin & Hc & Hne & Hsrc).
           apply elem_of_cons in Hin as [->|Hin]; [|eauto 10].
           destruct Hst. split; congruence.
    + rewrite IH. split.
      * intros (c & st' & Hin & H). exists c, st'. split; [by right|done].
      * intros (c & st' & Hin & Hc & Hne).
        apply elem_of_cons in Hin as [->|Hin]; [congruence|eauto].
Qed.

(** [hasClients] returns [true] exactly when some entry of the map is not
    marked [PreRemove], and [hasClientsNotSources] exactly when some entry
    other than the source is not marked, in whichever order the loop visits
    the map. *)
Theorem hasClients_any_order ks s :
  ks ≡ₚ (map_to_list (clients s)).*1 ->
  hasClientsRange ks s = hasClients s /\
  hasClientsNotSourcesRange ks s = hasClientsNotSources s /\
  (hasClients s = true <->
   exists c state, clients s !! c = Some state /\ state <> clientStatePreRemove) /\
  (hasClientsNotSources s = true <->
   exists c state, clients s !! c = Some state /\
                   state <> clientStatePreRemove /\ sourceClient c <> source s).
Proof.
  intros Hks.
  assert (Hin : forall c st, clients s !! c = Some st -> c ∈ ks).
  { intros c st Hc. rewrite Hks. apply list_elem_of_fmap. exists (c, st).
    split; [done|]. by apply elem_of_map_to_list. }
  assert (H2 : hasClientsNotSources s = true <->
               exists c state, clients s !! c = Some state /\
                 state <> clientStatePreRemove /\ sourceClient c <> source s).
  { unfold hasClientsNotSources. by rewrite bool_decide_eq_true. }
  split; [|split; [|split; [apply hasClients_true|exact H2]]].
  - apply eq_true_iff_eq. rewrite hasClientsRange_true, hasClients_true. split.
    + intros (c & st & _ & H). eauto.
    + intros (c & st & Hc & H). exists c, st. eauto.
  - apply eq_true_iff_eq. rewrite hasClientsNotSourcesRange_true, H2. split.
    + intros (c & st & _ & H). eauto.
    + intros (c & st & Hc & H). exists c, st. eauto.
Qed.

(** *** After the loop *)

Lemma map_size_delete_S (m : gmap client clientState) c x :
  m !! c = Some x -> S (size (delete c m)) = size m.
Proof.
  intros H. rewrite <- (insert_id _ _ _ H) at 2. rewrite <- insert_delete_eq.
  rewrite map_size_insert_None; [done|apply lookup_delete_eq].
Qed.

Lemma stillAttached_cons_in c seen cl state :
  cl !! c = Some state -> c ∉ seen ->
  S (size (stillAttached (c :: seen) cl)) = size (stillAttached seen cl).
Proof.
  intros Hc Hnot.
  assert (E : stillAttached (c :: seen) cl = delete c (stillAttached seen cl)).
  { unfold stillAttached. rewrite <- map_filter_delete.
    apply map_filter_strong_ext_1. intros i x. simpl.
    rewrite not_elem_of_cons, lookup_delete_Some. intuition congruence. }
  rewrite E. apply (map_size_delete_S _ c state).
  unfold stillAttached. by apply map_lookup_filter_Some.
Qed.

Lemma stillAttached_cons_out c seen cl :
  cl !! c = None -> stillAttached (c :: seen) cl = stillAttached seen cl.
Proof.
  intros Hc. unfold stillAttached. apply map_filter_ext. intros i x Hi. simpl.
  rewrite not_elem_of_cons. split; [tauto|]. intros H. split; [congruence|done].
Qed.

Lemma stillAttached_ext seen seen' cl :
  (forall c, c ∈ seen <-> c ∈ seen') ->
  stillAttached seen cl = stillAttached seen' cl.
Proof.
  intros H. unfold stillAttached. apply map_filter_ext. intros i x _. simpl.
  by rewrite H.
Qed.

Lemma stillAttached_empty seen cl :
  size (stillAttached seen cl) = 0%nat <->
  forall c, is_Some (cl !! c) -> c ∈ seen.
Proof.
  rewrite map_size_empty_iff. unfold stillAttached. split.
  - intros H c [x Hc]. destruct (decide (c ∈ seen)) as [|Hnot]; [done|].
    assert (Hl : filter (fun kv : client * clientState => kv.1 ∉ seen) cl !! c
                 = Some x) by (by apply map_lookup_filter_Some).
    rewrite H in Hl. done.
  - intros H. apply map_empty. intros c.
    destruct (filter _ cl !! c) as [x|] eqn:Hl; [|done].
    apply map_lookup_filter_Some in Hl as [Hc Hnot]. simpl in Hnot.
    destruct Hnot. apply H. eauto.
Qed.

Lemma exhaust_trace ev s s' :
  exhaust ev s = Ok s' -> exists new, trace s' = trace s ++ new.
Proof.
  intros H. destruct ev; simpl in H; inv_res;
    try (by exists []; rewrite app_nil_r); try (by eexists [_]).
  destruct (clients s !! c); inv_res; [|by eexists [_]].
  unfold wgDone in Hstep. case_decide; inv_res. by eexists [_].
Qed.

Lemma drain_trace reqs : forall s s',
  drain s reqs = Ok s' -> exists new, trace s' = trace s ++ new.
Proof.
  induction reqs as [|ev reqs IH]; intros s s' H; simpl in H; inv_res.
  - exists []. by rewrite app_nil_r.
  - apply exhaust_trace in Hstep as [n1 E1]. apply IH in H as [n2 E2].
    exists (n1 ++ n2). by rewrite E2, E1, app_assoc.
Qed.

(** The wait group goes down by one for each client of the map that asks to
    be removed. *)
Lemma drain_counts reqs : forall seen u,
  NoDup (removeRequests reqs) ->
  (forall c, c ∈ removeRequests reqs -> c ∉ seen) ->
  clientsWg u = Z.of_nat (size (stillAttached seen (clients u))) ->
  exists u',
    drain u reqs = Ok u' /\ clients u' = clients u /\
    clientsWg u' =
      Z.of_nat (size (stillAttached (removeRequests reqs ++ seen) (clients u))) /\
    (forall c, EvClientDescribe c ∈ reqs ->
       DescribeRes c (Some "terminated") ∈ trace u') /\
    (forall c tracks, EvClientAnnounce c tracks ∈ reqs ->
       AnnounceRes c (Some "terminated") ∈ trace u') /\
    (forall c trackId, EvClientSetupPlay c trackId ∈ reqs ->
       SetupPlayRes c (Some "terminated") ∈ trace u').
Proof.
  induction reqs as [|ev reqs IH]; intros seen u Hnd Hfresh Hwg.
  { exists u. simpl. repeat split; try done;
      intros; by match goal with H : _ ∈ [] |- _ => apply not_elem_of_nil in H end. }
  assert (Hother : forall u1 o,
            removeRequests (ev :: reqs) = removeRequests reqs ->
            exhaust ev u = Ok u1 -> clients u1 = clients u ->
            clientsWg u1 = clientsWg u -> trace u1 = trace u ++ o ->
            (forall c, ev = EvClientDescribe c ->
               DescribeRes c (Some "terminated") ∈ o) ->
            (forall c tracks, ev = EvClientAnnounce c tracks ->
               AnnounceRes c (Some "terminated") ∈ o) ->
            (forall c trackId, ev = EvClientSetupPlay c trackId ->
               SetupPlayRes c (Some "terminated") ∈ o) ->
            exists u',
              drain u (ev :: reqs) = Ok u' /\ clients u' = clients u /\
              clientsWg u' =
                Z.of_nat (size (stillAttached (removeRequests (ev :: reqs) ++ seen)
                                  (clients u))) /\
              (forall c, EvClientDescribe c ∈ ev :: reqs ->
                 DescribeRes c (Some "terminated") ∈ trace u') /\
              (forall c tracks, EvClientAnnounce c tracks ∈ ev :: reqs ->
                 AnnounceRes c (Some "terminated") ∈ trace u') /\
              (forall c trackId, EvClientSetupPlay c trackId ∈ ev :: reqs ->
                 SetupPlayRes c (Some "terminated") ∈ trace u')).
  { intros u1 o Hrr Hex Hcl Hw Htr Hd Ha Hs. rewrite Hrr in *.
    destruct (IH seen u1 Hnd Hfresh) as (u' & Hrun & E1 & E2 & F1 & F2 & F3).
    { by rewrite Hw, Hcl. }
    exists u'. simpl. rewrite Hex. simpl. split; [done|].
    split; [congruence|]. split; [by rewrite E2, Hcl|].
    destruct (drain_trace _ _ _ Hrun) as [rest Hrest].
    split; [|split].
    - intros c Hin. apply elem_of_cons in Hin as [E|Hin]; [|eauto].
      rewrite Hrest, Htr, !elem_of_app. left. right. eauto.
    - intros c tr Hin. apply elem_of_cons in Hin as [E|Hin]; [|eauto].
      rewrite Hrest, Htr, !elem_of_app. left. right. eauto.
    - intros c tr Hin. apply elem_of_cons in Hin as [E|Hin]; [|eauto].
      rewrite Hrest, Htr, !elem_of_app. left. right. eauto. }
  destruct ev;
    try (by eapply (Hother _ []); simpl; rewrite ?app_nil_r; try done).
  - eapply (Hother _ [_]); simpl; try done. intros ? [= ->]. apply list_elem_of_here.
  - eapply (Hother _ [_]); simpl; try done. intros ? ? [= -> _]. apply list_elem_of_here.
  - eapply (Hother _ [_]); simpl; try done.
  - eapply (Hother _ [_]); simpl; try done. intros ? ? [= -> _]. apply list_elem_of_here.
  - eapply (Hother _ [_]); simpl; try done.
  - (* a client asks to be removed *)
    clear Hother. simpl in Hnd, Hfresh. apply NoDup_cons in Hnd as [Hc Hnd].
    assert (Hcs : c ∉ seen) by (apply Hfresh; left).
    destruct (clients u !! c) as [st|] eqn:Hlk.
    + pose proof (stillAttached_cons_in c seen (clients u) st Hlk Hcs) as Hsz.
      destruct (IH (c :: seen)
                  (emit (RemoveRes c) (set_clientsWg (clientsWg u - 1) u)) Hnd)
        as (u' & Hrun & E1 & E2 & F1 & F2 & F3).
      { intros y Hy. apply not_elem_of_cons. split; [by intros ->|].
        apply Hfresh. by right. }
      { simpl. lia. }
      exists u'. simpl. rewrite Hlk. unfold wgDone.
      rewrite decide_False by lia. simpl. split; [done|]. simpl in *.
      split; [done|]. split.
      { rewrite E2. do 2 f_equal. apply stillAttached_ext. intros y.
        rewrite !elem_of_app, !elem_of_cons, elem_of_app. tauto. }
      split; [|split].
      * intros y Hin. apply elem_of_cons in Hin as [?|Hin]; [done|eauto].
      * intros y tr Hin. apply elem_of_cons in Hin as [?|Hin]; [done|eauto].
      * intros y tr Hin. apply elem_of_cons in Hin as [?|Hin]; [done|eauto].
    + destruct (IH (c :: seen) (emit (RemoveRes c) u) Hnd)
        as (u' & Hrun & E1 & E2 & F1 & F2 & F3).
      { intros y Hy. apply not_elem_of_cons. split; [by intros ->|].
        apply Hfresh. by right. }
      { simpl. by rewrite stillAttached_cons_out. }
      exists u'. simpl. rewrite Hlk. simpl. split; [done|]. simpl in *.
      split; [done|]. split.
      { rewrite E2. do 2 f_equal. apply stillAttached_ext. intros y.
        rewrite !elem_of_app, !elem_of_cons, elem_of_app. tauto. }
      split; [|split].
      * intros y Hin. apply elem_of_cons in Hin as [?|Hin]; [done|eauto].
      * intros y tr Hin. apply elem_of_cons in Hin as [?|Hin]; [done|eauto].
      * intros y tr Hin. apply elem_of_cons in Hin as [?|Hin]; [done|eauto].
Qed.

(** After [run] has left its loop, the requests that still arrive are
    answered by the goroutine of [exhaustChannels]: Describe, Announce and
    SetupPlay get the error "terminated", and the wait group on which [run]
    waits counts the clients of the map that have not asked to be removed
    yet.  So [run] returns exactly when every client that is still in the
    map, marked [PreRemove] or not, has sent its ClientRemove. *)
Theorem shutdown_waits_for_clients s reqs :
  reachable s -> closed s = true -> NoDup (removeRequests reqs) ->
  exists s',
    drain s reqs = Ok s' /\ clients s' = clients s /\
    clientsWg s' =
      Z.of_nat (size (stillAttached (removeRequests reqs) (clients s))) /\
    (clientsWg s' = 0 <->
     forall c, is_Some (clients s !! c) -> c ∈ removeRequests reqs) /\
    (forall c, EvClientDescribe c ∈ reqs ->
       DescribeRes c (Some "terminated") ∈ trace s') /\
    (forall c tracks, EvClientAnnounce c tracks ∈ reqs ->
       AnnounceRes c (Some "terminated") ∈ trace s') /\
    (forall c trackId, EvClientSetupPlay c trackId ∈ reqs ->
       SetupPlayRes c (Some "terminated") ∈ trace s').
Proof.
  intros Hreach _ Hnd. destruct (reachable_Books s Hreach) as [Hwg _ _].
  destruct (drain_counts reqs [] s Hnd) as (s' & Hrun & E1 & E2 & F).
  { intros c _. apply not_elem_of_nil. }
  { rewrite Hwg. do 2 f_equal. unfold stillAttached. symmetry.
    apply map_filter_id. intros i x _. apply not_elem_of_nil. }
  rewrite app_nil_r in E2.
  exists s'. split; [done|]. split; [done|]. split; [done|]. split; [|done].
  rewrite E2, <- stillAttached_empty. lia.
Qed.

(** ** A reader's session *)

(** A client that is not attached sets a track up on a ready path, plays and
    is removed: the three turns return; in between the client is a reader,
    counted once; afterwards the map of clients, the set of readers, both
    counters, the wait group, the source and its state are what they were,
    and the client got a reply to each request, the first without error. *)
Theorem reader_session_round_trip s c trackId :
  reachable s -> closed s = false -> clients s !! c = None ->
  sourceState s = sourceStateReady -> trackId < sourceTrackCount s ->
  exists s1 s2 s3,
    step s (EvClientSetupPlay c trackId) = Ok s1 /\
    step s1 (EvClientPlay c) = Ok s2 /\
    step s2 (EvClientRemove c) = Ok s3 /\
    clients s1 = <[c := clientStatePrePlay]> (clients s) /\
    readers s1 = readers s /\ countReaders s1 = countReaders s /\
    clients s2 = <[c := clientStatePlay]> (clients s) /\
    readers s2 = {[c]} ∪ readers s /\ (c ∉ readers s) /\
    countReaders s2 = countReaders s + 1 /\
    clientsWg s2 = clientsWg s + 1 /\
    clients s3 = clients s /\ readers s3 = readers s /\
    countReaders s3 = countReaders s /\
    countPublishers s3 = countPublishers s /\
    clientsWg s3 = clientsWg s /\
    source s3 = source s /\ sourceState s3 = sourceStateReady /\
    trace s3 = trace s ++ [SetupPlayRes c None; PlayRes c; RemoveRes c].
Proof.
  intros Hreach Hopen Hc Hready Htrack.
  pose proof (reachable_Books s Hreach) as Hb.
  pose proof (Inv_source s (reachable_Inv s Hreach)) as Hsrc.
  destruct (prevent_spec s) as (Ps & Pst & Ptr & _ & _ & Pcl & Pwg & _ & _).
  set (u := preventRunOnDemandClose (preventSourceClose s)) in *.
  set (s1 := emit (SetupPlayRes c None)
               (set_clientsWg (clientsWg u + 1)
                  (set_clients (<[c := clientStatePrePlay]> (clients u)) u))).
  assert (H1 : step s (EvClientSetupPlay c trackId) = Ok s1).
  { unfold step, ready. rewrite Hopen. simpl. unfold onClientSetupPlay.
    rewrite decide_False by (intros H; by apply H).
    rewrite decide_False by lia. rewrite Hc. fold u.
    unfold addClient.
    destruct (clients u !! c) eqn:E; [rewrite Pcl in E; congruence|].
    reflexivity. }
  assert (Hc1 : clients s1 !! c = Some clientStatePrePlay).
  { subst s1. simpl. by rewrite lookup_insert_eq. }
  set (s2 := emit (PlayRes c)
               (set_readers ({[c]} ∪ readers s1)
                  (set_clients (<[c := clientStatePlay]> (clients s1))
                     (set_countReaders (countReaders s1 + 1) s1)))).
  assert (Hopen1 : closed s1 = false).
  { subst s1 u. simpl. unfold preventRunOnDemandClose, preventSourceClose.
    repeat case_match; done. }
  assert (H2 : step s1 (EvClientPlay c) = Ok s2).
  { unfold step, ready. rewrite Hopen1. simpl. unfold onClientPlay.
    rewrite Hc1. rewrite decide_False by (intros H; by apply H). done. }
  assert (Hcl2 : clients s2 = <[c := clientStatePlay]> (clients s)).
  { subst s2 s1. simpl. by rewrite insert_insert_eq, Pcl. }
  assert (Hsrc2 : source s2 <> sourceClient c).
  { subst s2 s1. simpl. rewrite Ps. intros E.
    destruct (Hsrc c E) as (state & Hst & _). congruence. }
  destruct (removeClientFuel_reader (size (clients s2)) c clientStatePlay s2)
    as (t & Ht & Hclt & Hview); [|done|done|].
  { rewrite Hcl2. by rewrite lookup_insert_eq. }
  unfold removalView in Hview. injection Hview as Ev1 Ev2 Ev3 Ev4 Ev5.
  set (s3 := emit (RemoveRes c)
               (set_clientsWg (clientsWg t - 1)
                  (set_clients (delete c (clients t)) t))).
  assert (H3 : step s2 (EvClientRemove c) = Ok s3).
  { unfold step, ready. replace (closed s2) with false by done. simpl.
    rewrite lookup_insert_eq. rewrite decide_True by done.
    change (removeClient c s2)
      with (removeClientFuel (S (size (clients s2))) c s2).
    rewrite Ht. reflexivity. }
  assert (Hcl3 : clients s3 = clients s).
  { subst s3. simpl. rewrite Hclt, Hcl2, insert_insert_eq.
    by apply delete_insert_id. }
  pose proof (step_Books _ _ _ Hb H1) as Hb1.
  pose proof (step_Books _ _ _ Hb1 H2) as Hb2.
  pose proof (step_Books _ _ _ Hb2 H3) as Hb3.
  assert (Hopen3 : closed s3 = false).
  { subst s3. simpl. rewrite Ev5. exact Hopen1. }
  destruct (Books_open _ Hb Hopen) as [Tr Tc Tp].
  destruct (Books_open _ Hb3 Hopen3) as [Tr3 Tc3 Tp3].
  rewrite Hcl3 in Tr3, Tc3, Tp3.
  assert (Hnr : c ∉ readers s).
  { rewrite Tr. intros Hin. apply elem_of_dom in Hin as [x Hx].
    apply inState_lookup in Hx as [Hx _]. congruence. }
  assert (Hr1 : readers s1 = readers s).
  { subst s1 u. simpl. unfold preventRunOnDemandClose, preventSourceClose.
    repeat case_match; done. }
  assert (Hn1 : countReaders s1 = countReaders s).
  { subst s1 u. simpl. unfold preventRunOnDemandClose, preventSourceClose.
    repeat case_match; done. }
  exists s1, s2, s3. repeat split; try done.
  - subst s1. simpl. by rewrite Pcl.
  - change (readers s2) with ({[c]} ∪ readers s1). by rewrite Hr1.
  - change (countReaders s2) with (countReaders s1 + 1). by rewrite Hn1.
  - subst s2 s1. simpl. by rewrite Pwg.
  - congruence.
  - congruence.
  - congruence.
  - subst s3. simpl. rewrite Ev4. subst s2 s1. simpl. rewrite Pwg. lia.
  - subst s3. simpl. rewrite Ev2. subst s2 s1. simpl. done.
  - subst s3. simpl. rewrite Ev3. subst s2 s1. simpl. congruence.
  - subst s3. simpl. rewrite Ev1. subst s2 s1. simpl. rewrite Ptr.
    by rewrite <- !app_assoc.
Qed.

End PathActor.

(** ** Concrete runs *)

Lemma keyOrder_perm n l : keyOrder n l ≡ₚ l.
Proof. reflexivity. Qed.

(** C1 does not hold as stated: with a publisher in [Record] and the path
    [Ready], a new client that issues Describe, SetupPlay of track 0 and Play
    with no ClientRemove in between is left in [PreRemove] by the Describe, so
    SetupPlay finds its entry and adds nothing, and Play does nothing: the
    reader counter stays 0 and the readers map stays empty. *)
Lemma C1_counterexample :
  exists s s',
    run confRecord "cam" freshStats writeTracks keyOrder
      [EvClientAnnounce publisher [videoTrack]; EvClientRecord publisher] = Ok s /\
    sourceState s = sourceStateReady /\
    clients s !! publisher = Some clientStateRecord /\
    clients s !! reader = None /\
    runFrom confRecord "cam" writeTracks keyOrder s
      [EvClientDescribe reader; EvClientSetupPlay reader 0; EvClientPlay reader]
      = Ok s' /\
    clients s' !! reader = Some clientStatePreRemove /\
    countReaders s' = 0 /\
    readers s' = ∅ /\
    ~ (countReaders s' = 1 /\ clients s' !! reader = Some clientStatePlay /\
       reader ∈ readers s').
Proof.
  do 2 eexists. split; [vm_compute; reflexivity|].
  do 3 (split; [vm_compute; reflexivity|]).
  split; [vm_compute; reflexivity|].
  do 3 (split; [vm_compute; reflexivity|]).
  intros (H & _). vm_compute in H. discriminate H.
Qed.

Lemma C1_witness :
  exists s,
    run confRecord "cam" freshStats writeTracks keyOrder
      [EvClientAnnounce publisher [videoTrack]; EvClientRecord publisher] = Ok s /\
    (closed s = false /\ sourceState s = sourceStateReady /\
     source s = sourceClient publisher /\
     clients s !! publisher = Some clientStateRecord /\
     clients s !! reader = None /\ 0 < sourceTrackCount s /\
     countReaders s = 0) /\
    exists s',
      runFrom confRecord "cam" writeTracks keyOrder s
        [EvClientDescribe reader; EvClientRemove reader;
         EvClientSetupPlay reader 0; EvClientPlay reader] = Ok s' /\
      countReaders s' = countReaders s + 1 /\
      clients s' !! reader = Some clientStatePlay /\
      reader ∈ readers s' /\
      OnPathDescribeData reader (sourceSdp s) "" None ∈ trace s'.
Proof.
  eexists. split; [vm_compute; reflexivity|].
  split; [repeat split; vm_compute; reflexivity|].
  apply (C1_describe_remove_setup_play confRecord "cam" writeTracks keyOrder
           _ publisher reader); try (vm_compute; reflexivity).
  left. reflexivity.
Defined.

(** C2, the code at the failing input: on a path with an on-demand command
    a publisher announces and records, so the path is [Ready]; a Describe
    then starts the command, moves the source state back to
    [WaitingDescribe] and parks the client; the ClientRemove of the publisher
    runs [onSourceSetNotReady], which finds the parked client and panics with
    "not possible", whichever of the two entries the loop visits first. *)
Theorem C2_not_possible_is_reached :
  exists s,
    run confRunOnDemand "cam" freshStats writeTracks keyOrder
      [EvClientAnnounce publisher [videoTrack]; EvClientRecord publisher;
       EvClientDescribe reader] = Ok s /\
    run confRunOnDemand "cam" freshStats writeTracks keyOrderRev
      [EvClientAnnounce publisher [videoTrack]; EvClientRecord publisher;
       EvClientDescribe reader] = Ok s /\
    clients s !! publisher = Some clientStateRecord /\
    clients s !! reader = Some clientStateWaitingDescribe /\
    sourceState s = sourceStateWaitingDescribe /\
    step confRunOnDemand "cam" writeTracks keyOrder s (EvClientRemove publisher)
      = Panic "not possible" /\
    step confRunOnDemand "cam" writeTracks keyOrderRev s (EvClientRemove publisher)
      = Panic "not possible".
Proof.
  eexists. split; [vm_compute; reflexivity|].
  repeat split; vm_compute; reflexivity.
Qed.



Lemma C4_witness :
  exists s,
    run confRecord "cam" freshStats writeTracks keyOrder
      [EvClientAnnounce publisher [videoTrack]; EvClientRecord publisher] = Ok s /\
    clients s !! publisher = Some clientStateRecord /\
    (forall c1 c2 st1 st2,
       clients s !! c1 = Some st1 -> isPublisher st1 ->
       clients s !! c2 = Some st2 -> isPublisher st2 -> c1 = c2) /\
    (forall c st,
       clients s !! c = Some st ->
       st = clientStatePreRecord \/ st = clientStateRecord ->
       source s = sourceClient c).
Proof.
  eexists. split; [vm_compute; reflexivity|].
  split; [vm_compute; reflexivity|].
  apply (C4_single_publisher confRecord "cam" freshStats writeTracks keyOrder
           keyOrder_perm).
  exists [EvClientAnnounce publisher [videoTrack]; EvClientRecord publisher].
  vm_compute. reflexivity.
Defined.

(** C5 does not hold as stated: on a path with an on-demand command a
    Describe starts the command and moves the source state to
    [WaitingDescribe]; the Announce of the publisher the command brings is
    accepted in that state, which it leaves as it is, so after the Announce
    the source state is not [NotReady]. *)
Lemma C5_counterexample :
  exists s s',
    run confRunOnDemand "cam" freshStats writeTracks keyOrder
      [EvClientDescribe reader] = Ok s /\
    onClientAnnounce confRunOnDemand "cam" writeTracks publisher [videoTrack] s
      = Ok (None, s') /\
    clients s' !! publisher = Some clientStatePreRecord /\
    source s' = sourceClient publisher /\
    sourceState s' = sourceStateWaitingDescribe /\
    sourceState s' <> sourceStateNotReady.
Proof.
  do 2 eexists. split; [vm_compute; reflexivity|].
  split; [vm_compute; reflexivity|].
  do 3 (split; [vm_compute; reflexivity|]).
  vm_compute. discriminate.
Qed.

Lemma C5_witness :
  exists s',
    onClientAnnounce confRecord "cam" writeTracks publisher [videoTrack]
      (start confRecord "cam" freshStats) = Ok (None, s') /\
    clients s' =
      <[publisher := clientStatePreRecord]>
        (clients (start confRecord "cam" freshStats)) /\
    source s' = sourceClient publisher /\
    sourceTrackCount s' = Z.of_nat (length [videoTrack]) /\
    sourceSdp s' = Some (writeTracks [videoTrack]) /\
    sourceState s' = sourceState (start confRecord "cam" freshStats).
Proof.
  apply (proj2 (proj2 (proj2
    (C5_announce confRecord "cam" writeTracks publisher [videoTrack]
       (start confRecord "cam" freshStats))))); vm_compute; reflexivity.
Defined.

Lemma C6_witness :
  exists s,
    run confRecord "cam" freshStats writeTracks keyOrder
      [EvClientAnnounce publisher [videoTrack]; EvClientRecord publisher] = Ok s /\
    5 >= sourceTrackCount s /\
    onClientSetupPlay "cam" reader 5 s = Ok (Some "track 5 does not exist", s) /\
    handle confRecord "cam" writeTracks keyOrder (EvClientSetupPlay reader 5) s
      = Ok (emit (SetupPlayRes reader (Some "track 5 does not exist")) s) /\
    clients s !! reader = None.
Proof.
  eexists. split; [vm_compute; reflexivity|].
  assert (Hge : 5 >= 1) by discriminate.
  split; [exact Hge|].
  match goal with |- onClientSetupPlay _ _ _ ?s = _ /\ _ =>
    destruct (C6_setup_play_errors confRecord "cam" writeTracks keyOrder
                reader 5 s (or_intror Hge))
      as (err & Herr & Hrun & Hhandle & Hcl)
  end.
  vm_compute in Herr. subst err.
  split; [exact Hrun|]. split; [exact Hhandle|]. vm_compute. reflexivity.
Defined.

Lemma C7_witness :
  exists s s' new,
    run confRunOnDemand "cam" freshStats writeTracks keyOrder
      [EvClientDescribe reader] = Ok s /\
    ready s EvDescribeTimer = true /\
    clients s !! reader = Some clientStateWaitingDescribe /\
    step confRunOnDemand "cam" writeTracks keyOrder s EvDescribeTimer = Ok s' /\
    sourceState s' = sourceStateNotReady /\
    clients s' !! reader = Some clientStatePreRemove /\
    trace s' = trace s ++ new /\
    describeDataFor reader new
      = [OnPathDescribeData reader None ""
           (Some "publisher of path 'cam' has timed out")].
Proof.
  eexists.
  match goal with |- exists s' new, run _ _ _ _ _ _ = Ok ?s /\ _ =>
    destruct (C7_describe_timer_fires confRunOnDemand "cam" freshStats
                writeTracks keyOrder
                keyOrder_perm s)
      as (s' & mid & new & Hstep & Hst & Hwd & _ & Htr & Hcb & _);
      [exists [EvClientDescribe reader]; vm_compute; reflexivity
      |vm_compute; reflexivity|]
  end.
  exists s', new.
  split; [vm_compute; reflexivity|].
  do 2 (split; [vm_compute; reflexivity|]).
  split; [exact Hstep|]. split; [exact Hst|].
  split; [apply Hwd; vm_compute; reflexivity|].
  split; [exact Htr|].
  rewrite Hcb. reflexivity.
Defined.

Lemma C8_witness :
  exists s s' new,
    run confRunOnDemand "cam" freshStats writeTracks keyOrder
      [EvClientDescribe reader; EvClientAnnounce publisher [videoTrack]] = Ok s /\
    clients s !! publisher = Some clientStatePreRecord /\
    clients s !! reader = Some clientStateWaitingDescribe /\
    sourceState s = sourceStateWaitingDescribe /\
    onSourceSetReady confRunOnDemand keyOrder
      (set_clients (<[publisher := clientStateRecord]> (clients s))
         (set_countPublishers (countPublishers s + 1) s)) = Ok s' /\
    sourceState s' = sourceStateReady /\
    describeTimer s' = timerEmpty /\
    clients s' !! reader = Some clientStatePreRemove /\
    clients s' !! publisher = Some clientStateRecord /\
    trace s' = trace s ++ new /\
    describeDataFor reader new = [OnPathDescribeData reader (sourceSdp s) "" None] /\
    describeDataFor publisher new = [].
Proof.
  eexists.
  match goal with |- exists s' new, run _ _ _ _ _ _ = Ok ?s /\ _ =>
    destruct (C8_source_set_ready confRunOnDemand "cam" freshStats writeTracks keyOrder
                keyOrder_perm s
                (set_clients (<[publisher := clientStateRecord]> (clients s))
                   (set_countPublishers (countPublishers s + 1) s)))
      as (s' & new & Hrun & Hst & Htimer & _ & Hwd & Hother & _ & Htr & Hcb);
      [exists [EvClientDescribe reader; EvClientAnnounce publisher [videoTrack]];
       vm_compute; reflexivity
      |right; exists publisher; split; [vm_compute; reflexivity|reflexivity]|]
  end.
  exists s', new.
  split; [vm_compute; reflexivity|].
  do 3 (split; [vm_compute; reflexivity|]).
  split; [exact Hrun|]. split; [exact Hst|].
  split; [apply Htimer; vm_compute; reflexivity|].
  split; [apply Hwd; vm_compute; reflexivity|].
  split; [rewrite Hother; vm_compute; [reflexivity|discriminate]|].
  split; [exact Htr|].
  split; rewrite Hcb; reflexivity.
Defined.

Lemma C9_witness :
  exists s,
    run confSourceOnDemand "cam" freshStats writeTracks keyOrder
      [EvClientDescribe reader; EvDescribeTimer] = Ok s /\
    sourceCloseTimerStarted s = true /\
    clients s !! reader = Some clientStatePreRemove /\
    hasExternalSource confSourceOnDemand = true /\
    SourceOnDemand confSourceOnDemand = true /\
    source s <> sourceNil /\
    (forall c state, clients s !! c = Some state -> state = clientStatePreRemove) /\
    sourceState s <> sourceStateWaitingDescribe.
Proof.
  eexists. split; [vm_compute; reflexivity|].
  do 2 (split; [vm_compute; reflexivity|]).
  apply (C9_source_close_timer confSourceOnDemand "cam" freshStats writeTracks keyOrder
           keyOrder_perm).
  - exists [EvClientDescribe reader; EvDescribeTimer]. vm_compute. reflexivity.
  - left. vm_compute. reflexivity.
Defined.

Lemma C10_witness :
  exists s,
    run confRecord "cam" freshStats writeTracks keyOrder
      [EvClientAnnounce publisher [videoTrack]; EvClientRecord publisher] = Ok s /\
    closed s = false /\
    clients s !! reader = None /\
    sourceState (describePrelude confRecord "cam" s) = sourceStateReady /\
    exists s1 sdp url err,
      step confRecord "cam" writeTracks keyOrder s (EvClientDescribe reader) = Ok s1 /\
      last (trace s1) = Some (OnPathDescribeData reader sdp url err) /\
      clients s1 !! reader = Some clientStatePreRemove /\
      forall evs s2,
        EvClientRemove reader ∉ evs ->
        runFrom confRecord "cam" writeTracks keyOrder s1 evs = Ok s2 ->
        clients s2 !! reader = Some clientStatePreRemove /\
        handle confRecord "cam" writeTracks keyOrder (EvClientDescribe reader) s2 =
          Ok (emit (DescribeRes reader (Some "already subscribed")) s2) /\
        forall tracks,
          handle confRecord "cam" writeTracks keyOrder
            (EvClientAnnounce reader tracks) s2 =
            Ok (emit (AnnounceRes reader (Some "already subscribed")) s2).
Proof.
  eexists. split; [vm_compute; reflexivity|].
  do 3 (split; [vm_compute; reflexivity|]).
  apply (C10_describe_leaves_preRemove confRecord "cam" freshStats writeTracks keyOrder
           keyOrder_perm).
  - exists [EvClientAnnounce publisher [videoTrack]; EvClientRecord publisher].
    vm_compute. reflexivity.
  - vm_compute. reflexivity.
  - vm_compute. reflexivity.
  - right. left. vm_compute. reflexivity.
Defined.

Lemma waiting_client_source_state_witness :
  exists s,
    run confRunOnDemand "cam" freshStats writeTracks keyOrder
      [EvClientDescribe reader] = Ok s /\
    clients s !! reader = Some clientStateWaitingDescribe /\
    sourceState s = sourceStateWaitingDescribe.
Proof.
  eexists. split; [vm_compute; reflexivity|].
  assert (Hc : forall (s : Path) (P : Prop),
            (clients s !! reader = Some clientStateWaitingDescribe -> P) ->
            clients s !! reader = Some clientStateWaitingDescribe ->
            clients s !! reader = Some clientStateWaitingDescribe /\ P)
    by (intros s P HP H; split; [exact H|exact (HP H)]).
  apply Hc; [|vm_compute; reflexivity].
  apply (waiting_client_source_state confRunOnDemand "cam" freshStats writeTracks keyOrder
           keyOrder_perm).
  exists [EvClientDescribe reader]. vm_compute. reflexivity.
Defined.

(** ** Concrete runs for the books, the timers and the shutdown *)

Lemma wait_group_counts_clients_witness :
  exists s,
    run confRecord "cam" freshStats writeTracks keyOrder
      [EvClientAnnounce publisher [videoTrack]; EvClientRecord publisher;
       EvClientDescribe reader] = Ok s /\
    clientsWg s = Z.of_nat (size (clients s)).
Proof.
  eexists. split; [vm_compute; reflexivity|].
  apply (wait_group_counts_clients confRecord "cam" freshStats writeTracks keyOrder
           keyOrder_perm).
  exists [EvClientAnnounce publisher [videoTrack]; EvClientRecord publisher;
          EvClientDescribe reader].
  vm_compute. reflexivity.
Defined.

Lemma stats_count_clients_witness :
  exists s,
    run confRecord "cam" sharedStats writeTracks keyOrder
      [EvClientAnnounce publisher [videoTrack]; EvClientRecord publisher;
       EvClientSetupPlay reader 0; EvClientPlay reader] = Ok s /\
    closed s = false /\
    (forall c, c ∈ readers s <-> clients s !! c = Some clientStatePlay) /\
    countReaders s = CountReaders sharedStats + Z.of_nat (size (readers s)) /\
    countPublishers s =
      CountPublishers sharedStats
      + Z.of_nat (size (inState clientStateRecord (clients s))) /\
    0 <= countPublishers s - CountPublishers sharedStats <= 1.
Proof.
  eexists. split; [vm_compute; reflexivity|].
  split; [vm_compute; reflexivity|].
  apply (stats_count_clients confRecord "cam" sharedStats writeTracks keyOrder
           keyOrder_perm).
  - exists [EvClientAnnounce publisher [videoTrack]; EvClientRecord publisher;
            EvClientSetupPlay reader 0; EvClientPlay reader].
    vm_compute. reflexivity.
  - vm_compute. reflexivity.
Defined.

Lemma terminate_settles_the_books_witness :
  exists s s' new,
    run confRecord "cam" sharedStats writeTracks keyOrder
      [EvClientAnnounce publisher [videoTrack]; EvClientRecord publisher;
       EvClientSetupPlay reader 0; EvClientPlay reader] = Ok s /\
    ready s EvTerminate = true /\
    countReaders s = 8 /\ countPublishers s = 4 /\
    step confRecord "cam" writeTracks keyOrder s EvTerminate = Ok s' /\
    closed s' = true /\ clients s' = clients s /\ clientsWg s' = clientsWg s /\
    readers s' = ∅ /\
    countReaders s' = countReaders s - Z.of_nat (size (readers s)) /\
    countPublishers s' =
      countPublishers s
      - Z.of_nat (size (inState clientStateRecord (clients s))) /\
    countReaders s' = 7 /\ countPublishers s' = 3 /\
    trace s' = trace s ++ new /\
    closeCallsFor publisher new = [OnPathClientClose publisher] /\
    closeCallsFor reader new = [OnPathClientClose reader].
Proof.
  eexists.
  match goal with |- exists s' new, run _ _ _ _ _ _ = Ok ?s /\ _ =>
    destruct (terminate_settles_the_books confRecord "cam" sharedStats
                writeTracks keyOrder keyOrder_perm s EvTerminate)
      as (s' & new & Hrun & Hcl & Hcls & Hwg & Hr & Hcr & Hcp & _ & Htr & _ &
          Hcalls & _);
      [exists [EvClientAnnounce publisher [videoTrack]; EvClientRecord publisher;
               EvClientSetupPlay reader 0; EvClientPlay reader];
       vm_compute; reflexivity
      |left; reflexivity
      |vm_compute; reflexivity|]
  end.
  exists s', new.
  split; [vm_compute; reflexivity|].
  do 3 (split; [vm_compute; reflexivity|]).
  do 7 (split; [assumption|]).
  split; [rewrite Hcr; vm_compute; reflexivity|].
  split; [rewrite Hcp; vm_compute; reflexivity|].
  split; [assumption|].
  split; rewrite Hcalls; vm_compute; reflexivity.
Defined.

Lemma on_demand_close_timer_armed_witness :
  exists s,
    run confRunOnDemand "cam" freshStats writeTracks keyOrder
      [EvClientDescribe reader; EvDescribeTimer] = Ok s /\
    runOnDemandCloseTimerStarted s = true /\
    RunOnDemand confRunOnDemand <> "" /\
    onDemandCmd s <> None /\
    (forall c state, clients s !! c = Some state ->
       state = clientStatePreRemove \/ source s = sourceClient c) /\
    sourceState s <> sourceStateWaitingDescribe.
Proof.
  eexists. split; [vm_compute; reflexivity|].
  split; [vm_compute; reflexivity|].
  match goal with |- _ /\ onDemandCmd ?s <> None /\ _ =>
    destruct (on_demand_close_timer_armed confRunOnDemand "cam" freshStats writeTracks
                keyOrder keyOrder_perm s) as [Harmed _];
      [exists [EvClientDescribe reader; EvDescribeTimer]; vm_compute; reflexivity|]
  end.
  apply Harmed. left. vm_compute. reflexivity.
Defined.

Lemma only_panic_is_not_possible_witness :
  exists msg,
    run confRunOnDemand "cam" freshStats writeTracks keyOrder
      [EvClientAnnounce publisher [videoTrack]; EvClientRecord publisher;
       EvClientDescribe reader; EvClientRemove publisher] = Panic msg /\
    msg = "not possible".
Proof.
  eexists. split; [vm_compute; reflexivity|].
  apply (only_panic_is_not_possible confRunOnDemand "cam" freshStats writeTracks keyOrder
           keyOrder_perm
           [EvClientAnnounce publisher [videoTrack]; EvClientRecord publisher;
            EvClientDescribe reader; EvClientRemove publisher]).
  vm_compute. reflexivity.
Defined.

Lemma run_returns_witness :
  hasExternalSource confRecord = false /\ RunOnDemand confRecord = "" /\
  exists s,
    run confRecord "cam" freshStats writeTracks keyOrderRev
      [EvClientAnnounce publisher [videoTrack]; EvClientRecord publisher;
       EvClientDescribe reader; EvClientRemove publisher;
       EvClientRemove reader] = Ok s.
Proof.
  split; [vm_compute; reflexivity|]. split; [reflexivity|].
  apply (run_returns confRecord "cam" freshStats writeTracks keyOrderRev).
  - intros n l. unfold keyOrderRev. symmetry. apply Permutation_rev.
  - right. split; [vm_compute; reflexivity|reflexivity].
Defined.

Lemma never_closes_itself_witness :
  Regexp confSourceOnDemand = None /\
  exists s,
    run confSourceOnDemand "cam" freshStats writeTracks keyOrder
      [EvClientDescribe reader; EvDescribeTimer; EvClientRemove reader;
       EvSourceCloseTimer] = Ok s /\
    source s = sourceNil /\ clients s = ∅ /\
    closeTimerStarted s = false /\
    timerIsPending (closeTimer s) = false /\
    OnPathClose ∉ trace s.
Proof.
  split; [reflexivity|].
  eexists. split; [vm_compute; reflexivity|].
  do 2 (split; [vm_compute; reflexivity|]).
  apply (never_closes_itself confSourceOnDemand "cam" freshStats writeTracks keyOrder);
    [reflexivity|].
  exists [EvClientDescribe reader; EvDescribeTimer; EvClientRemove reader;
          EvSourceCloseTimer].
  vm_compute. reflexivity.
Defined.

Lemma publisher_removal_closes_readers_witness :
  exists s s' new,
    run confRecord "cam" sharedStats writeTracks keyOrder
      [EvClientAnnounce publisher [videoTrack]; EvClientRecord publisher;
       EvClientSetupPlay reader 0; EvClientPlay reader] = Ok s /\
    closed s = false /\
    clients s !! publisher = Some clientStateRecord /\
    clients s !! reader = Some clientStatePlay /\
    step confRecord "cam" writeTracks keyOrder s (EvClientRemove publisher)
      = Ok s' /\
    clients s' !! publisher = None /\
    clients s' !! reader = Some clientStatePreRemove /\
    source s' = sourceNil /\ sourceState s' = sourceStateNotReady /\
    readers s' = ∅ /\
    countReaders s' = countReaders s - Z.of_nat (size (readers s)) /\
    countPublishers s' = countPublishers s - 1 /\
    countReaders s' = 7 /\ countPublishers s' = 3 /\
    clientsWg s' = clientsWg s - 1 /\
    trace s' = trace s ++ new /\
    closeCallsFor reader new = [OnPathClientClose reader] /\
    closeCallsFor publisher new = [] /\
    last new = Some (RemoveRes publisher).
Proof.
  eexists.
  match goal with |- exists s' new, run _ _ _ _ _ _ = Ok ?s /\ _ =>
    destruct (publisher_removal_closes_readers confRecord "cam" sharedStats
                writeTracks keyOrder keyOrder_perm s publisher)
      as (s' & new & Hrun & Hx & Hothers & Hsrc & Hst & Hr & Hcr & Hcp & Hwg &
          Htr & Hcalls & Hlast);
      [exists [EvClientAnnounce publisher [videoTrack]; EvClientRecord publisher;
               EvClientSetupPlay reader 0; EvClientPlay reader];
       vm_compute; reflexivity
      |vm_compute; reflexivity
      |vm_compute; reflexivity
      | |]
  end.
  { intros c Hc.
    match type of Hc with ?m !! c = _ =>
      assert (Hall : map_Forall
                (fun _ state => state <> clientStateWaitingDescribe) m)
    end.
    { apply map_Forall_to_list. vm_compute.
      repeat constructor; discriminate. }
    exact (Hall c _ Hc eq_refl). }
  exists s', new.
  split; [vm_compute; reflexivity|].
  do 3 (split; [vm_compute; reflexivity|]).
  split; [exact Hrun|]. split; [exact Hx|].
  split; [rewrite Hothers; [vm_compute; reflexivity|discriminate]|].
  do 5 (split; [assumption|]).
  split; [rewrite Hcr; vm_compute; reflexivity|].
  split; [rewrite Hcp; vm_compute; reflexivity|].
  do 2 (split; [assumption|]).
  split; [rewrite Hcalls; vm_compute; reflexivity|].
  split; [rewrite Hcalls; vm_compute; reflexivity|exact Hlast].
Defined.

Lemma describe_starts_on_demand_witness :
  exists s s' new,
    s = start confRunOnDemand "cam" freshStats /\
    closed s = false /\ clients s !! reader = None /\
    RunOnDemand confRunOnDemand <> "" /\ onDemandCmd s = None /\
    step confRunOnDemand "cam" writeTracks keyOrder s (EvClientDescribe reader)
      = Ok s' /\
    clients s' = <[reader := clientStateWaitingDescribe]> (clients s) /\
    clientsWg s' = clientsWg s + 1 /\
    sourceState s' = sourceStateWaitingDescribe /\
    trace s' = trace s ++ new /\
    head new = Some (DescribeRes reader None) /\
    describeDataFor reader new = [] /\
    onDemandCmd s' <> None /\
    describeTimer s' = timerPending (RunOnDemandStartTimeout confRunOnDemand).
Proof.
  assert (Hcmd : RunOnDemand confRunOnDemand <> "") by discriminate.
  exists (start confRunOnDemand "cam" freshStats).
  match goal with |- exists s' new, ?s = _ /\ _ =>
    destruct (describe_starts_on_demand confRunOnDemand "cam" writeTracks
                keyOrder s reader)
      as (s' & new & Hrun & Hcl & Hwg & Hst & Htr & Hhead & Hdata & _ & Hstarted &
          Htimer & _);
      [vm_compute; reflexivity
      |vm_compute; reflexivity
      |discriminate
      |right; split; [exact Hcmd|vm_compute; reflexivity]|]
  end.
  exists s', new.
  split; [reflexivity|].
  do 2 (split; [vm_compute; reflexivity|]).
  split; [exact Hcmd|]. split; [vm_compute; reflexivity|].
  do 7 (split; [assumption|]).
  split; [exact (Hstarted Hcmd)|].
  rewrite Htimer. vm_compute. reflexivity.
Defined.

Lemma describe_answer_witness :
  exists s s',
    run confRecord "cam" freshStats writeTracks keyOrder
      [EvClientAnnounce publisher [videoTrack]; EvClientRecord publisher] = Ok s /\
    closed s = false /\ clients s !! reader = None /\
    hasExternalSource confRecord = false /\ RunOnDemand confRecord = "" /\
    sourceState s = sourceStateReady /\
    step confRecord "cam" writeTracks keyOrder s (EvClientDescribe reader)
      = Ok s' /\
    source s' = source s /\ sourceState s' = sourceState s /\
    clients s' = <[reader := clientStatePreRemove]> (clients s) /\
    trace s' = trace s ++
      [DescribeRes reader None; OnPathDescribeData reader (sourceSdp s) "" None].
Proof.
  eexists.
  match goal with |- exists s', run _ _ _ _ _ _ = Ok ?s /\ _ =>
    destruct (describe_answer confRecord "cam" freshStats writeTracks keyOrder
                keyOrder_perm s reader)
      as (s' & Hrun & Hsrc & Hst & _ & Hans);
      [exists [EvClientAnnounce publisher [videoTrack]; EvClientRecord publisher];
       vm_compute; reflexivity
      |vm_compute; reflexivity
      |vm_compute; reflexivity
      |left; vm_compute; reflexivity
      |left; reflexivity|]
  end.
  destruct Hans as [Hcl Htr]; [right; discriminate|].
  exists s'.
  split; [vm_compute; reflexivity|].
  do 2 (split; [vm_compute; reflexivity|]).
  split; [vm_compute; reflexivity|]. split; [reflexivity|].
  split; [vm_compute; reflexivity|].
  do 4 (split; [assumption|]).
  rewrite Htr. reflexivity.
Defined.

Lemma hasClients_any_order_witness :
  exists s,
    run confRecord "cam" freshStats writeTracks keyOrder
      [EvClientAnnounce publisher [videoTrack]; EvClientRecord publisher;
       EvClientDescribe reader] = Ok s /\
    [publisher; reader] ≡ₚ (map_to_list (clients s)).*1 /\
    hasClientsRange [publisher; reader] s = hasClients s /\
    hasClientsNotSourcesRange [publisher; reader] s = hasClientsNotSources s /\
    (hasClients s = true <->
     exists c state, clients s !! c = Some state /\
                     state <> clientStatePreRemove) /\
    (hasClientsNotSources s = true <->
     exists c state, clients s !! c = Some state /\
                     state <> clientStatePreRemove /\ sourceClient c <> source s).
Proof.
  eexists. split; [vm_compute; reflexivity|].
  match goal with |- ?P /\ _ => assert (Hperm : P) end.
  { vm_compute. apply perm_swap. }
  split; [exact Hperm|].
  apply (hasClients_any_order _ _ Hperm).
Defined.

Lemma shutdown_waits_for_clients_witness :
  exists s s',
    run confRecord "cam" freshStats writeTracks keyOrder
      [EvClientAnnounce publisher [videoTrack]; EvClientRecord publisher;
       EvClientDescribe reader; EvTerminate] = Ok s /\
    closed s = true /\ clientsWg s = 2 /\
    drain writeTracks s
      [EvClientDescribe 3%positive; EvClientRemove reader;
       EvClientRemove 3%positive; EvClientRemove publisher] = Ok s' /\
    clients s' = clients s /\ clientsWg s' = 0 /\
    DescribeRes 3%positive (Some "terminated") ∈ trace s'.
Proof.
  eexists.
  match goal with |- exists s', run _ _ _ _ _ _ = Ok ?s /\ _ =>
    destruct (shutdown_waits_for_clients confRecord "cam" freshStats writeTracks keyOrder
                keyOrder_perm s
                [EvClientDescribe 3%positive; EvClientRemove reader;
                 EvClientRemove 3%positive; EvClientRemove publisher])
      as (s' & Hrun & Hcl & Hwg & _ & Hdesc & _);
      [exists [EvClientAnnounce publisher [videoTrack]; EvClientRecord publisher;
               EvClientDescribe reader; EvTerminate];
       vm_compute; reflexivity
      |vm_compute; reflexivity
      |refine (bool_decide_unpack _ _); vm_compute; exact I|]
  end.
  exists s'.
  split; [vm_compute; reflexivity|].
  do 2 (split; [vm_compute; reflexivity|]).
  split; [exact Hrun|]. split; [exact Hcl|].
  split; [rewrite Hwg; vm_compute; reflexivity|].
  apply Hdesc. apply list_elem_of_here.
Defined.

Lemma reader_session_round_trip_witness :
  exists s s1 s2 s3,
    run confRecord "cam" freshStats writeTracks keyOrder
      [EvClientAnnounce publisher [videoTrack]; EvClientRecord publisher] = Ok s /\
    closed s = false /\ clients s !! reader = None /\
    sourceState s = sourceStateReady /\ 0 < sourceTrackCount s /\
    step confRecord "cam" writeTracks keyOrder s (EvClientSetupPlay reader 0)
      = Ok s1 /\
    step confRecord "cam" writeTracks keyOrder s1 (EvClientPlay reader) = Ok s2 /\
    step confRecord "cam" writeTracks keyOrder s2 (EvClientRemove reader) = Ok s3 /\
    clients s2 = <[reader := clientStatePlay]> (clients s) /\
    readers s2 = {[reader]} ∪ readers s /\
    countReaders s2 = countReaders s + 1 /\
    clients s3 = clients s /\ readers s3 = readers s /\
    countReaders s3 = countReaders s /\
    countPublishers s3 = countPublishers s /\
    clientsWg s3 = clientsWg s /\
    trace s3 = trace s ++
      [SetupPlayRes reader None; PlayRes reader; RemoveRes reader].
Proof.
  eexists.
  match goal with |- exists s1 s2 s3, run _ _ _ _ _ _ = Ok ?s /\ _ =>
    destruct (reader_session_round_trip confRecord "cam" freshStats writeTracks keyOrder
                keyOrder_perm s reader 0)
      as (s1 & s2 & s3 & H1 & H2 & H3 & _ & _ & _ & Hcl2 & Hr2 & _ & Hcr2 & _ &
          Hcl3 & Hr3 & Hcr3 & Hcp3 & Hwg3 & _ & _ & Htr3);
      [exists [EvClientAnnounce publisher [videoTrack]; EvClientRecord publisher];
       vm_compute; reflexivity
      |vm_compute; reflexivity
      |vm_compute; reflexivity
      |vm_compute; reflexivity
      |vm_compute; reflexivity|]
  end.
  exists s1, s2, s3.
  split; [vm_compute; reflexivity|].
  do 4 (split; [vm_compute; reflexivity|]).
  do 11 (split; [assumption|]).
  exact Htr3.
Defined.
